(** * Huobi spot REST client: the signed-request pipeline

    A shallow embedding of [HuobiSpotRestAPI.request] and
    [HuobiSpotRestAPI.generate_signature] from
    [alpha/platforms/huobi_spot_api.py], together with the parts of the
    Python standard library they call ([str] methods, [urllib.parse],
    [hashlib.sha256], [hmac], [base64], [datetime.strftime]).

    Conventions of the model.
    - A Python [str] is a Rocq [string]; its characters are read as the code
      points U+0000..U+00FF.  On that alphabet [str.lower], UTF-8 encoding
      and percent-quoting are total and are defined below in full.
    - Python [bytes] are lists of integers in [0, 256); 32-bit words are
      integers with the wrap-around written out.
    - [urllib.parse] follows CPython 3.8 ([~] is never quoted, the scheme is
      any run of scheme characters before the first colon).  [urlsplit],
      [urlparse] and [urljoin] raise [ValueError] where the library does, on
      a bracket without its partner in the network location.
    - Exceptions are values of [result]; mutable dictionaries live in a heap
      and are passed by reference. *)

From Stdlib Require Import ZArith NArith List String Ascii Bool Lia.
From Stdlib Require Import Permutation Sorted DecimalString.
From stdpp Require Import base list.
Import ListNotations.

Local Open Scope string_scope.
Local Open Scope Z_scope.

(** ** Python [str] *)

Module Str.

Definition code (c : ascii) : Z := Z.of_N (N_of_ascii c).
Definition chr (z : Z) : ascii := ascii_of_N (Z.to_N z).

(** [c in set] for a one-character [c]. *)
Fixpoint mem (c : ascii) (set : string) : bool :=
  match set with
  | EmptyString => false
  | String d set' => Ascii.eqb c d || mem c set'
  end.

(** [s.startswith(p)] *)
Definition startswith (s p : string) : bool := String.prefix p s.

(** [s.split(sep)] for a one-character separator. *)
Fixpoint split (sep : ascii) (s : string) : list string :=
  match s with
  | EmptyString => [EmptyString]
  | String c s' =>
      if Ascii.eqb c sep then EmptyString :: split sep s'
      else match split sep s' with
           | h :: t => String c h :: t
           | [] => [String c EmptyString]
           end
  end.

(** [sep.join(l)] *)
Definition join (sep : string) (l : list string) : string := String.concat sep l.

(** [l[n:]] *)
Definition slice_from {A} (n : nat) (l : list A) : list A := skipn n l.

(** [s.partition(sep)]: the part before the first [sep], whether [sep]
    was found, and the part after it. *)
Fixpoint partition (sep : ascii) (s : string) : string * bool * string :=
  match s with
  | EmptyString => (EmptyString, false, EmptyString)
  | String c s' =>
      if Ascii.eqb c sep then (EmptyString, true, s')
      else let '(a, f, b) := partition sep s' in (String c a, f, b)
  end.

(** [s.rpartition(sep)]: split at the last [sep]; when there is none the
    whole string is the third component. *)
Fixpoint rpartition (sep : ascii) (s : string) : string * bool * string :=
  match s with
  | EmptyString => (EmptyString, false, EmptyString)
  | String c s' =>
      let '(a, f, b) := rpartition sep s' in
      if f then (String c a, true, b)
      else if Ascii.eqb c sep then (EmptyString, true, s')
      else (EmptyString, false, String c b)
  end.

(** [str.lower] on one code point of U+0000..U+00FF: the ASCII capitals and
    the Latin-1 capitals U+00C0..U+00DE (the sign U+00D7 is not a letter). *)
Definition lower_char (c : ascii) : ascii :=
  let n := code c in
  if (65 <=? n) && (n <=? 90) then chr (n + 32)
  else if (192 <=? n) && (n <=? 222) && negb (n =? 215) then chr (n + 32)
  else c.

Fixpoint lower (s : string) : string :=
  match s with
  | EmptyString => EmptyString
  | String c s' => String (lower_char c) (lower s')
  end.

(** [str.upper] on the ASCII letters; it is only used to state what an
    upper-cased method would be. *)
Definition upper_char (c : ascii) : ascii :=
  let n := code c in
  if (97 <=? n) && (n <=? 122) then chr (n - 32) else c.

Fixpoint upper (s : string) : string :=
  match s with
  | EmptyString => EmptyString
  | String c s' => String (upper_char c) (upper s')
  end.

(** [s.encode("utf8")]: one byte below U+0080, two bytes up to U+00FF. *)
Definition utf8_char (c : ascii) : list Z :=
  let n := code c in
  if n <? 128 then [n]
  else [Z.lor 192 (Z.shiftr n 6); Z.lor 128 (Z.land n 63)].

Fixpoint encode (s : string) : list Z :=
  match s with
  | EmptyString => []
  | String c s' => utf8_char c ++ encode s'
  end.

(** [b.decode()] of ASCII bytes. *)
Fixpoint decode (b : list Z) : string :=
  match b with
  | [] => EmptyString
  | x :: b' => String (chr x) (decode b')
  end.

(** Python compares strings code point by code point. *)
Definition ltb (a b : string) : bool := String.ltb a b.
Definition leb (a b : string) : bool := String.leb a b.

End Str.

(** ** [hashlib.sha256] (FIPS 180-4) *)

Module Sha256.

Definition wrap (x : Z) : Z := x mod 2 ^ 32.
Definition add32 (x y : Z) : Z := wrap (x + y).
Definition rotr (n x : Z) : Z :=
  Z.lor (Z.shiftr x n) (wrap (Z.shiftl x (32 - n))).
Definition not32 (x : Z) : Z := Z.lxor x 4294967295.

Definition ch (x y z : Z) : Z := Z.lxor (Z.land x y) (Z.land (not32 x) z).
Definition maj (x y z : Z) : Z :=
  Z.lxor (Z.lxor (Z.land x y) (Z.land x z)) (Z.land y z).
Definition bsig0 (x : Z) : Z := Z.lxor (Z.lxor (rotr 2 x) (rotr 13 x)) (rotr 22 x).
Definition bsig1 (x : Z) : Z := Z.lxor (Z.lxor (rotr 6 x) (rotr 11 x)) (rotr 25 x).
Definition ssig0 (x : Z) : Z := Z.lxor (Z.lxor (rotr 7 x) (rotr 18 x)) (Z.shiftr x 3).
Definition ssig1 (x : Z) : Z := Z.lxor (Z.lxor (rotr 17 x) (rotr 19 x)) (Z.shiftr x 10).

Definition round_constants : list Z :=
  [ 0x428A2F98; 0x71374491; 0xB5C0FBCF; 0xE9B5DBA5;
    0x3956C25B; 0x59F111F1; 0x923F82A4; 0xAB1C5ED5;
    0xD807AA98; 0x12835B01; 0x243185BE; 0x550C7DC3;
    0x72BE5D74; 0x80DEB1FE; 0x9BDC06A7; 0xC19BF174;
    0xE49B69C1; 0xEFBE4786; 0x0FC19DC6; 0x240CA1CC;
    0x2DE92C6F; 0x4A7484AA; 0x5CB0A9DC; 0x76F988DA;
    0x983E5152; 0xA831C66D; 0xB00327C8; 0xBF597FC7;
    0xC6E00BF3; 0xD5A79147; 0x06CA6351; 0x14292967;
    0x27B70A85; 0x2E1B2138; 0x4D2C6DFC; 0x53380D13;
    0x650A7354; 0x766A0ABB; 0x81C2C92E; 0x92722C85;
    0xA2BFE8A1; 0xA81A664B; 0xC24B8B70; 0xC76C51A3;
    0xD192E819; 0xD6990624; 0xF40E3585; 0x106AA070;
    0x19A4C116; 0x1E376C08; 0x2748774C; 0x34B0BCB5;
    0x391C0CB3; 0x4ED8AA4A; 0x5B9CCA4F; 0x682E6FF3;
    0x748F82EE; 0x78A5636F; 0x84C87814; 0x8CC70208;
    0x90BEFFFA; 0xA4506CEB; 0xBEF9A3F7; 0xC67178F2 ].

Definition initial_hash : list Z :=
  [ 0x6A09E667; 0xBB67AE85; 0x3C6EF372; 0xA54FF53A;
    0x510E527F; 0x9B05688C; 0x1F83D9AB; 0x5BE0CD19 ].

(** Big-endian bytes of [x], [n] of them. *)
Fixpoint be_bytes (n : nat) (x : Z) : list Z :=
  match n with
  | O => []
  | S n' => be_bytes n' (Z.shiftr x 8) ++ [Z.land x 255]
  end.

(** Big-endian value of a byte string. *)
Definition be_value (bs : list Z) : Z :=
  fold_left (fun acc b => Z.lor (Z.shiftl acc 8) b) bs 0.

(** Padding: a 1 bit, zeros up to 56 mod 64 bytes, the bit length on 8
    bytes. *)
Definition pad (msg : list Z) : list Z :=
  let len := Z.of_nat (List.length msg) in
  let zeros := Z.to_nat ((55 - len) mod 64) in
  msg ++ [128] ++ repeat 0 zeros ++ be_bytes 8 (8 * len).

(** Cut a list into pieces of [n] elements; [fuel] bounds their number. *)
Fixpoint chunks {A} (fuel n : nat) (l : list A) : list (list A) :=
  match fuel, l with
  | O, _ | _, [] => []
  | S fuel', _ => firstn n l :: chunks fuel' n (skipn n l)
  end.

Definition words_of_block (block : list Z) : list Z :=
  map be_value (chunks 16 4 block).

(** Message schedule, kept newest word first while it is extended. *)
Fixpoint extend (n : nat) (rev_w : list Z) : list Z :=
  match n with
  | O => rev_w
  | S n' =>
      let at_ i := nth i rev_w 0 in
      let w := add32 (add32 (ssig1 (at_ 1%nat)) (at_ 6%nat))
                     (add32 (ssig0 (at_ 14%nat)) (at_ 15%nat)) in
      extend n' (w :: rev_w)
  end.

Definition schedule (block : list Z) : list Z :=
  rev (extend 48 (rev (words_of_block block))).

Record regs := Regs { ra : Z; rb : Z; rc : Z; rd : Z; re : Z; rf : Z; rg : Z; rh : Z }.

Definition round (s : regs) (kw : Z * Z) : regs :=
  let t1 := add32 (add32 (add32 (rh s) (bsig1 (re s)))
                         (add32 (ch (re s) (rf s) (rg s)) (fst kw))) (snd kw) in
  let t2 := add32 (bsig0 (ra s)) (maj (ra s) (rb s) (rc s)) in
  Regs (add32 t1 t2) (ra s) (rb s) (rc s) (add32 (rd s) t1) (re s) (rf s) (rg s).

Definition regs_of (h : list Z) : regs :=
  let at_ i := nth i h 0 in
  Regs (at_ 0%nat) (at_ 1%nat) (at_ 2%nat) (at_ 3%nat)
       (at_ 4%nat) (at_ 5%nat) (at_ 6%nat) (at_ 7%nat).

Definition list_of (s : regs) : list Z :=
  [ra s; rb s; rc s; rd s; re s; rf s; rg s; rh s].

Definition compress (h : list Z) (block : list Z) : list Z :=
  let s := fold_left round (combine round_constants (schedule block)) (regs_of h) in
  map (fun p => add32 (fst p) (snd p)) (combine h (list_of s)).

Definition sha256 (msg : list Z) : list Z :=
  let padded := pad msg in
  let blocks := chunks (List.length padded) 64 padded in
  flat_map (be_bytes 4) (fold_left compress blocks initial_hash).

End Sha256.

(** ** [hmac.new(key, msg, digestmod=hashlib.sha256).digest()] (RFC 2104) *)

Module Hmac.

Definition block_size : nat := 64.

Definition block_key (key : list Z) : list Z :=
  let k := if (64 <? Z.of_nat (List.length key)) then Sha256.sha256 key else key in
  k ++ repeat 0 (block_size - List.length k).

Definition digest (key msg : list Z) : list Z :=
  let k := block_key key in
  let inner := Sha256.sha256 (map (Z.lxor 54) k ++ msg) in
  Sha256.sha256 (map (Z.lxor 92) k ++ inner).

End Hmac.

(** ** [base64.b64encode] (RFC 4648, standard alphabet, padded) *)

Module Base64.

Definition alphabet : string :=
  "ABCDEFGHIJKLMNOPQRSTUVWXYZabcdefghijklmnopqrstuvwxyz0123456789+/".

Definition sextet (i : Z) : Z :=
  match String.get (Z.to_nat i) alphabet with
  | Some c => Str.code c
  | None => 0
  end.

Definition pad_char : Z := 61.

Fixpoint groups (fuel : nat) (b : list Z) : list Z :=
  match fuel with
  | O => []
  | S fuel' =>
      match b with
      | [] => []
      | [x] =>
          [sextet (Z.shiftr x 2); sextet (Z.shiftl (Z.land x 3) 4); pad_char; pad_char]
      | [x; y] =>
          [sextet (Z.shiftr x 2);
           sextet (Z.lor (Z.shiftl (Z.land x 3) 4) (Z.shiftr y 4));
           sextet (Z.shiftl (Z.land y 15) 2); pad_char]
      | x :: y :: z :: b' =>
          [sextet (Z.shiftr x 2);
           sextet (Z.lor (Z.shiftl (Z.land x 3) 4) (Z.shiftr y 4));
           sextet (Z.lor (Z.shiftl (Z.land y 15) 2) (Z.shiftr z 6));
           sextet (Z.land z 63)] ++ groups fuel' b'
      end
  end.

Definition b64encode (b : list Z) : list Z := groups (List.length b) b.

End Base64.

(** ** Exceptions *)

Inductive exn : Type :=
| ValueError
| AttributeError
| TypeError
| JSONDecodeError.

Inductive result (A : Type) : Type :=
| Ok (a : A)
| Raise (e : exn).

Arguments Ok {A} a.
Arguments Raise {A} e.

Definition rbind {A B} (r : result A) (k : A -> result B) : result B :=
  match r with
  | Ok a => k a
  | Raise e => Raise e
  end.

Declare Scope result_scope.
Delimit Scope result_scope with result.
Notation "'let?' x ':=' r 'in' k" := (rbind r (fun x => k))
  (at level 10, x pattern, r at level 100, k at level 200) : result_scope.

(** ** Scalar values held in query and header dictionaries

    [str(v)] is what [urlencode] renders.  Floats are left out. *)

Inductive value : Type :=
| VNone
| VBool (b : bool)
| VInt (z : Z)
| VStr (s : string).

Definition str_of_value (v : value) : string :=
  match v with
  | VNone => "None"
  | VBool true => "True"
  | VBool false => "False"
  | VInt z => DecimalString.NilZero.string_of_int (Z.to_int z)
  | VStr s => s
  end.

(** ** [urllib.parse] *)

Module Urllib.

Definition always_safe : string :=
  "ABCDEFGHIJKLMNOPQRSTUVWXYZabcdefghijklmnopqrstuvwxyz0123456789_.-~".

Definition scheme_chars : string :=
  "abcdefghijklmnopqrstuvwxyzABCDEFGHIJKLMNOPQRSTUVWXYZ0123456789+-.".

Definition hex_digit (d : Z) : ascii :=
  match String.get (Z.to_nat d) "0123456789ABCDEF" with
  | Some c => c
  | None => "0"%char
  end.

(** One byte of [quote_from_bytes]: kept when it is an always-safe or a
    caller-safe character, else [%XX]. *)
Definition quote_byte (safe : string) (b : Z) : string :=
  if (b <? 128) && (Str.mem (Str.chr b) always_safe || Str.mem (Str.chr b) safe)
  then String (Str.chr b) EmptyString
  else String "%" (String (hex_digit (Z.shiftr b 4))
                     (String (hex_digit (Z.land b 15)) EmptyString)).

Definition quote_from_bytes (bs : list Z) (safe : string) : string :=
  String.concat EmptyString (map (quote_byte safe) bs).

Definition quote (s : string) (safe : string) : string :=
  quote_from_bytes (Str.encode s) safe.

Fixpoint replace_char (a b : ascii) (s : string) : string :=
  match s with
  | EmptyString => EmptyString
  | String c s' => String (if Ascii.eqb c a then b else c) (replace_char a b s')
  end.

Definition quote_plus (s : string) : string :=
  if negb (Str.mem " " s) then quote s EmptyString
  else replace_char " " "+" (quote s " ").

(** [urlencode(query)] for a sequence of pairs, [doseq=False]. *)
Definition urlencode (query : list (string * value)) : string :=
  Str.join "&"
    (map (fun kv => quote_plus (fst kv) ++ "=" ++ quote_plus (str_of_value (snd kv)))
         query).

Definition is_digit (c : ascii) : bool := Str.mem c "0123456789".

Fixpoint all_chars (p : ascii -> bool) (s : string) : bool :=
  match s with
  | EmptyString => true
  | String c s' => p c && all_chars p s'
  end.

(** The scheme test of [urlsplit]: what is left of [url] once a leading
    [scheme:] has been taken off. *)
Definition after_scheme (url : string) : string :=
  let '(pre, found, rest) := Str.partition ":" url in
  if found && negb (String.eqb pre EmptyString) then
    if String.eqb pre "http" then rest
    else if all_chars (fun c => Str.mem c scheme_chars) pre then
      if String.eqb rest EmptyString || negb (all_chars is_digit rest) then rest else url
    else url
  else url.

(** [_splitnetloc(url, 2)]: the text between the leading [//] and the first
    of [/], [?], [#]; and what follows it. *)
Fixpoint splitnetloc (s : string) : string * string :=
  match s with
  | EmptyString => (EmptyString, EmptyString)
  | String c s' =>
      if Str.mem c "/?#" then (EmptyString, s)
      else let '(n, r) := splitnetloc s' in (String c n, r)
  end.

(** [urlparse(url).netloc], with the [ValueError] for unbalanced brackets.
    [_checknetloc] never raises on U+0000..U+00FF: no such character
    normalises (NFKC) to one of [/?#@:]. *)
Definition netloc (url : string) : result string :=
  match after_scheme url with
  | String "/" (String "/" tl) =>
      let n := fst (splitnetloc tl) in
      if xorb (Str.mem "[" n) (Str.mem "]" n) then Raise ValueError else Ok n
  | _ => Ok EmptyString
  end.

(** The path-and-beyond part that [urlsplit] keeps after the netloc. *)
Definition after_netloc (url : string) : string :=
  match after_scheme url with
  | String "/" (String "/" tl) => snd (splitnetloc tl)
  | rest => rest
  end.

(** [urlsplit(url).path]: what follows the netloc, up to the first [#] and
    then the first [?]. *)
Definition path (url : string) : string :=
  let '(no_frag, _, _) := Str.partition "#" (after_netloc url) in
  let '(p, _, _) := Str.partition "?" no_frag in
  p.

(** [_hostinfo[0]] *)
Definition hostinfo_name (n : string) : string :=
  let '(_, _, hostinfo) := Str.rpartition "@" n in
  let '(_, have_open_br, bracketed) := Str.partition "[" hostinfo in
  if have_open_br then
    let '(h, _, _) := Str.partition "]" bracketed in h
  else
    let '(h, _, _) := Str.partition ":" hostinfo in h.

(** The [hostname] property: [None] for an empty host, else the host
    lower-cased with any [%zone] kept as written. *)
Definition hostname_of_netloc (n : string) : option string :=
  let h := hostinfo_name n in
  if String.eqb h EmptyString then None
  else
    let '(name, percent, zone) := Str.partition "%" h in
    Some (Str.lower name ++ (if percent then "%" else EmptyString) ++ zone).

(** [urlparse(url).hostname] *)
Definition hostname (url : string) : result (option string) :=
  (let? n := netloc url in Ok (hostname_of_netloc n))%result.

(** [urlsplit(url, scheme).scheme]: the scheme found before the first
    colon, lower-cased, else the default. *)
Definition scheme_of (url default : string) : string :=
  let '(pre, found, rest) := Str.partition ":" url in
  if found && negb (String.eqb pre EmptyString) then
    if String.eqb pre "http" then "http"
    else if all_chars (fun c => Str.mem c scheme_chars) pre then
      if String.eqb rest EmptyString || negb (all_chars is_digit rest) then Str.lower pre
      else default
    else default
  else default.

(** [urlsplit(url, scheme)]: scheme, netloc, path, query and fragment. *)
Definition urlsplit (url default : string)
  : result (string * string * string * string * string) :=
  (let? n := netloc url in
   let '(no_frag, _, fragment) := Str.partition "#" (after_netloc url) in
   let '(p, _, query) := Str.partition "?" no_frag in
   Ok (scheme_of url default, n, p, query, fragment))%result.

Definition uses_relative : list string :=
  [""; "ftp"; "http"; "gopher"; "nntp"; "imap"; "wais"; "file"; "https"; "shttp"; "mms";
   "prospero"; "rtsp"; "rtspu"; "sftp"; "svn"; "svn+ssh"; "ws"; "wss"].

Definition uses_netloc : list string :=
  [""; "ftp"; "http"; "gopher"; "nntp"; "telnet"; "imap"; "wais"; "file"; "mms"; "https";
   "shttp"; "snews"; "prospero"; "rtsp"; "rtspu"; "rsync"; "svn"; "svn+ssh"; "sftp"; "nfs";
   "git"; "git+ssh"; "ws"; "wss"].

Definition uses_params : list string :=
  [""; "ftp"; "hdl"; "prospero"; "http"; "imap"; "https"; "shttp"; "rtsp"; "rtspu"; "sip";
   "sips"; "mms"; "sftp"; "tel"].

Definition in_list (s : string) (l : list string) : bool := existsb (String.eqb s) l.

Definition nonempty (s : string) : bool := negb (String.eqb s EmptyString).

(** [_splitparams(url)]: the parameters are what follows the first [;] of
    the last path segment. *)
Definition splitparams (url : string) : string * string :=
  let '(dir, has_slash, last_segment) := Str.rpartition "/" url in
  let '(a, found, b) := Str.partition ";" last_segment in
  if found then ((if has_slash then dir ++ "/" else EmptyString) ++ a, b)
  else (url, EmptyString).

(** [urlparse(url, scheme)]: scheme, netloc, path, params, query and
    fragment. *)
Definition urlparse (url default : string)
  : result (string * string * string * string * string * string) :=
  (let? (scheme, n, p, query, fragment) := urlsplit url default in
   let '(p, params) :=
     if in_list scheme uses_params then splitparams p else (p, EmptyString) in
   Ok (scheme, n, p, params, query, fragment))%result.

Definition urlunsplit (scheme n url query fragment : string) : string :=
  let url :=
    if nonempty n
       || (nonempty scheme && in_list scheme uses_netloc && negb (Str.startswith url "//"))
    then "//" ++ n ++ (if nonempty url && negb (Str.startswith url "/")
                       then "/" ++ url else url)
    else url in
  let url := if nonempty scheme then scheme ++ ":" ++ url else url in
  let url := if nonempty query then url ++ "?" ++ query else url in
  if nonempty fragment then url ++ "#" ++ fragment else url.

Definition urlunparse (scheme n url params query fragment : string) : string :=
  urlunsplit scheme n (if nonempty params then url ++ ";" ++ params else url)
             query fragment.

(** [segments[1:-1] = filter(None, segments[1:-1])] *)
Definition squeeze (segments : list string) : list string :=
  match segments with
  | first :: (_ :: _) as rest =>
      (first :: List.filter nonempty (List.removelast rest)
         ++ [List.last rest EmptyString])%list
  | _ => segments
  end.

(** The loop over the segments: [..] takes the last resolved segment away,
    if there is one, [.] is skipped. *)
Fixpoint resolve (segments resolved : list string) : list string :=
  match segments with
  | [] => resolved
  | seg :: rest =>
      if String.eqb seg ".." then resolve rest (List.removelast resolved)
      else if String.eqb seg "." then resolve rest resolved
      else resolve rest (resolved ++ [seg])%list
  end.

(** [urljoin(base, url)] *)
Definition urljoin (base url : string) : result string :=
  if String.eqb base EmptyString then Ok url
  else if String.eqb url EmptyString then Ok base
  else
    (let? (bscheme, bnetloc, bpath, bparams, bquery, bfragment) := urlparse base EmptyString in
     let? (scheme, n, p, params, query, fragment) := urlparse url bscheme in
     if negb (String.eqb scheme bscheme) || negb (in_list scheme uses_relative) then Ok url
     else if in_list scheme uses_netloc && nonempty n then
       Ok (urlunparse scheme n p params query fragment)
     else
       let n := if in_list scheme uses_netloc then bnetloc else n in
       if negb (nonempty p) && negb (nonempty params) then
         Ok (urlunparse scheme n bpath bparams (if nonempty query then query else bquery)
               fragment)
       else
         let base_parts := Str.split "/" bpath in
         let base_parts :=
           if nonempty (List.last base_parts EmptyString) then List.removelast base_parts
           else base_parts in
         let segments :=
           if Str.startswith p "/" then Str.split "/" p
           else squeeze (base_parts ++ Str.split "/" p)%list in
         let resolved := resolve segments [] in
         let resolved :=
           if String.eqb (List.last segments EmptyString) "."
              || String.eqb (List.last segments EmptyString) ".."
           then (resolved ++ [EmptyString])%list else resolved in
         let joined := Str.join "/" resolved in
         Ok (urlunparse scheme n (if nonempty joined then joined else "/") params query
               fragment))%result.

End Urllib.

(** ** Dictionaries: insertion-ordered, one entry per key *)

Abbreviation dict := (list (string * value)).

Definition keys (d : dict) : list string := map fst d.

(** [d.get(k)] *)
Fixpoint dict_get (k : string) (d : dict) : option value :=
  match d with
  | [] => None
  | (k', v) :: d' => if String.eqb k' k then Some v else dict_get k d'
  end.

(** [d[k] = v]: an existing key keeps its place, a new one goes last. *)
Fixpoint dict_set (k : string) (v : value) (d : dict) : dict :=
  match d with
  | [] => [(k, v)]
  | (k', v') :: d' =>
      if String.eqb k' k then (k', v) :: d' else (k', v') :: dict_set k v d'
  end.

(** [d.update(other)] *)
Definition dict_update (d : dict) (other : list (string * value)) : dict :=
  fold_left (fun acc kv => dict_set (fst kv) (snd kv) acc) other d.

(** [del d[k]] when present. *)
Definition dict_remove (k : string) (d : dict) : dict :=
  List.filter (fun kv => negb (String.eqb (fst kv) k)) d.

(** [sorted(params.items(), key=lambda d: d[0], reverse=False)]: a stable
    sort on the keys. *)
Fixpoint insert_by_key (x : string * value) (l : list (string * value))
  : list (string * value) :=
  match l with
  | [] => [x]
  | y :: l' => if Str.leb (fst x) (fst y) then x :: y :: l' else y :: insert_by_key x l'
  end.

Definition sorted_items (d : dict) : list (string * value) :=
  fold_right insert_by_key [] d.

(** ** The client *)

Record HuobiSpotRestAPI : Type := {
  _host : string;
  _access_key : option string;
  _secret_key : option string
}.

Definition is_absolute (uri : string) : bool :=
  Str.startswith uri "http://" || Str.startswith uri "https://".

(** [x.lower()] where [x] may be [None]. *)
Definition lower_attr (x : option string) : result string :=
  match x with
  | Some s => Ok (Str.lower s)
  | None => Raise AttributeError
  end.

(** [x.encode(encoding="utf8")] where [x] may be [None]. *)
Definition encode_attr (x : option string) : result (list Z) :=
  match x with
  | Some s => Ok (Str.encode s)
  | None => Raise AttributeError
  end.

(** The host and the path that enter the payload. *)
Definition signing_target (self : HuobiSpotRestAPI) (request_path : string)
  : result (string * string) :=
  (if is_absolute request_path then
     let? h := Urllib.hostname request_path in
     let? host_url := lower_attr h in
     Ok (host_url,
         "/" ++ Str.join "/" (Str.slice_from 3 (Str.split "/" request_path)))
   else
     let? h := Urllib.hostname (_host self) in
     let? host_url := lower_attr h in
     Ok (host_url, request_path))%result.

(** The list [payload] joined with newlines. *)
Definition payload_of (method host_url request_path : string) (params : dict) : string :=
  let sorted_params := sorted_items params in
  let encode_params := Urllib.urlencode sorted_params in
  Str.join (String (Str.chr 10) EmptyString)
           [method; host_url; request_path; encode_params].

(** The signature of a payload under a key. *)
Definition sign (secret_key payload : list Z) : string :=
  Str.decode (Base64.b64encode (Hmac.digest secret_key payload)).

Definition generate_signature (self : HuobiSpotRestAPI)
    (method : string) (params : dict) (request_path : string) : result string :=
  (let? (host_url, request_path) := signing_target self request_path in
   let payload := Str.encode (payload_of method host_url request_path params) in
   let? secret_key := encode_attr (_secret_key self) in
   Ok (sign secret_key payload))%result.

(** ** Structured values: request bodies and what the transport returns *)

#[local] Set Warnings "-register-all".

Inductive pyval : Type :=
| PScalar (v : value)
| PList (l : list pyval)
| PDict (d : list (string * pyval))
| PError (msg : string).

Definition PNone : pyval := PScalar VNone.

(** Python truthiness, as tested by [if error:]. *)
Definition truthy (v : pyval) : bool :=
  match v with
  | PScalar VNone => false
  | PScalar (VBool b) => b
  | PScalar (VInt z) => negb (z =? 0)
  | PScalar (VStr s) => negb (String.eqb s EmptyString)
  | PList l => match l with [] => false | _ => true end
  | PDict d => match d with [] => false | _ => true end
  | PError _ => true
  end.

(** [result.get(k)] on a decoded JSON object. *)
Fixpoint pdict_get (k : string) (d : list (string * pyval)) : option pyval :=
  match d with
  | [] => None
  | (k', v) :: d' => if String.eqb k' k then Some v else pdict_get k d'
  end.

(** [result.get("status") != "ok"] *)
Definition status_not_ok (d : list (string * pyval)) : bool :=
  match pdict_get "status" d with
  | Some (PScalar (VStr s)) => negb (String.eqb s "ok")
  | _ => true
  end.

(** ** [datetime.datetime.utcnow().strftime("%Y-%m-%dT%H:%M:%S")]

    [%Y] is written on four digits, as it is for the years 1000 to 9999. *)

Record datetime : Type := {
  year : Z; month : Z; day : Z;
  hour : Z; minute : Z; second : Z; microsecond : Z
}.

(** The last [n] decimal digits of [z], zero-padded. *)
Fixpoint digits (n : nat) (z : Z) : string :=
  match n with
  | O => EmptyString
  | S n' => (digits n' (z / 10) ++ String (Str.chr (48 + z mod 10)) EmptyString)%string
  end.

Definition strftime (t : datetime) : string :=
  (digits 4 (year t) ++ "-" ++ digits 2 (month t) ++ "-" ++ digits 2 (day t)
   ++ "T" ++ digits 2 (hour t) ++ ":" ++ digits 2 (minute t) ++ ":"
   ++ digits 2 (second t))%string.

(** ** The heap of dictionaries, the transport and the world around a call *)

Abbreviation loc := nat.

(** One call of [AsyncHttpRequests.fetch]: the arguments as they are when
    the call is made.  Dictionaries are given by reference and contents;
    [fc_data] is [None] when no [data] argument is passed. *)
Record FetchCall : Type := {
  fc_method : string;
  fc_url : string;
  fc_params : option (loc * dict);
  fc_data : option pyval;
  fc_headers : loc * dict;
  fc_timeout : Z
}.

(** What [request] takes from outside this file: the constant
    [alpha.const.USER_AGENT], [urllib.parse.urljoin] and [json.loads], which
    return or raise, the clock, and the transport, which answers a call with
    its [success] and [error] values. *)
Record Env : Type := {
  USER_AGENT : string;
  urljoin : string -> string -> result string;
  json_loads : string -> result pyval;
  utcnow : datetime;
  fetch : FetchCall -> pyval * pyval
}.

Record state : Type := {
  heap : list dict;
  calls : list FetchCall
}.

(** A computation may raise; what it did to the state before remains. *)
Definition M (A : Type) : Type := state -> result A * state.

Definition ret {A} (a : A) : M A := fun st => (Ok a, st).

Definition raise {A} (e : exn) : M A := fun st => (Raise e, st).

Definition bind {A B} (m : M A) (k : A -> M B) : M B :=
  fun st =>
    match m st with
    | (Ok a, st') => k a st'
    | (Raise e, st') => (Raise e, st')
    end.

Definition lift {A} (r : result A) : M A := fun st => (r, st).

Declare Scope M_scope.
Delimit Scope M_scope with M.
Notation "x <- c ;; k" := (bind c (fun x => k))
  (at level 20, c at level 99, k at level 200) : M_scope.
Notation "c ;; k" := (bind c (fun _ => k))
  (at level 100, k at level 200, right associativity) : M_scope.

(** A new dictionary object. *)
Definition alloc (d : dict) : M loc :=
  fun st => (Ok (List.length (heap st)), {| heap := heap st ++ [d]; calls := calls st |}).

(** The contents of a dictionary object.  A location outside the heap is
    no Python reference; reading it is reported as a [TypeError]. *)
Definition load (l : loc) : M dict :=
  fun st =>
    match heap st !! l with
    | Some d => (Ok d, st)
    | None => (Raise TypeError, st)
    end.

Definition modify (l : loc) (f : dict -> dict) : M unit :=
  fun st =>
    match heap st !! l with
    | Some d => (Ok tt, {| heap := <[l := f d]> (heap st); calls := calls st |})
    | None => (Raise TypeError, st)
    end.

(** [x if x else {}] for an optional dictionary argument: the caller's
    object when it is a non-empty dictionary, a new empty one otherwise. *)
Definition or_fresh (x : option loc) : M loc :=
  (match x with
   | Some l =>
       d <- load l ;;
       match d with
       | [] => alloc []
       | _ => ret l
       end
   | None => alloc []
   end)%M.

(** The transport call, recorded with its arguments as they are now. *)
Definition do_fetch (E : Env) (method url : string) (params : option loc)
    (data : option pyval) (headers : loc) (timeout : Z) : M (pyval * pyval) :=
  (p <- match params with
        | Some l => d <- load l ;; ret (Some (l, d))
        | None => ret None
        end ;;
   h <- load headers ;;
   let call := {| fc_method := method; fc_url := url; fc_params := p;
                  fc_data := data; fc_headers := (headers, h);
                  fc_timeout := timeout |} in
   fun st => (Ok (fetch E call), {| heap := heap st; calls := calls st ++ [call] |}))%M.

Definition value_of_key (k : option string) : value :=
  match k with
  | Some s => VStr s
  | None => VNone
  end.

(** ** [HuobiSpotRestAPI.request] *)

Definition request (E : Env) (self : HuobiSpotRestAPI) (method uri : string)
    (params : option loc) (body : pyval) (headers : option loc) (auth : bool)
  : M (pyval * pyval) :=
  (url <- (if is_absolute uri then ret uri else lift (urljoin E (_host self) uri)) ;;
   params <- (if auth then
                let timestamp := strftime (utcnow E) in
                params <- or_fresh params ;;
                modify params (fun d =>
                  dict_update d [("AccessKeyId", value_of_key (_access_key self));
                                 ("SignatureMethod", VStr "HmacSHA256");
                                 ("SignatureVersion", VStr "2");
                                 ("Timestamp", VStr timestamp)]) ;;
                d <- load params ;;
                signature <- lift (generate_signature self method d uri) ;;
                modify params (dict_set "Signature" (VStr signature)) ;;
                ret (Some params)
              else ret params) ;;
   headers <- or_fresh headers ;;
   reply <- (if String.eqb method "GET" then
               modify headers (dict_set "Content-type"
                                 (VStr "application/x-www-form-urlencoded")) ;;
               modify headers (dict_set "User-Agent" (VStr (USER_AGENT E))) ;;
               do_fetch E "GET" url params None headers 10
             else
               modify headers (dict_set "Accept" (VStr "application/json")) ;;
               modify headers (dict_set "Content-type" (VStr "application/json")) ;;
               modify headers (dict_set "User-Agent" (VStr (USER_AGENT E))) ;;
               do_fetch E "POST" url params (Some body) headers 10) ;;
   let '(success, error) := reply in
   if truthy error then ret (PNone, error)
   else
     result <- match success with
               | PDict _ => ret success
               | PScalar (VStr s) => lift (json_loads E s)
               | _ => raise TypeError
               end ;;
     match result with
     | PDict d => if status_not_ok d then ret (PNone, result) else ret (result, PNone)
     | _ => raise AttributeError
     end)%M.

(** * Vocabulary of the statements *)

Local Open Scope list_scope.

(** ** Order and payload *)

(** Ascending order of two entries by key. *)
Definition key_le (a b : string * value) : Prop := Str.leb (fst a) (fst b) = true.

Definition newline : string := String (Str.chr 10) EmptyString.

(** The payload as the specification words it: the method upper-cased, the
    host name, the path and the encoded sorted query, joined by newlines. *)
Definition spec_payload (method host_url path : string) (params : dict) : string :=
  Str.join newline
    [Str.upper method; host_url; path; Urllib.urlencode (sorted_items params)].

(** ** References *)

(** A caller's reference points into the heap. *)
Definition valid_ref (x : option loc) (st : state) : Prop :=
  match x with
  | Some l => is_Some (heap st !! l)
  | None => True
  end.

(** The dictionary a caller passed; none reads as the empty one. *)
Definition dict_at (x : option loc) (st : state) : dict :=
  match x with
  | Some l => default [] (heap st !! l)
  | None => []
  end.

(** The object [or_fresh] answers with, and the state it leaves. *)
Definition chosen (x : option loc) (st : state) : loc :=
  match dict_at x st, x with
  | _ :: _, Some l => l
  | _, _ => List.length (heap st)
  end.

Definition grown (x : option loc) (st : state) : state :=
  match dict_at x st with
  | _ :: _ => st
  | [] => {| heap := heap st ++ [[]]; calls := calls st |}
  end.

(** ** The three stages of [request] *)

(** The four entries merged into the mapping before it is signed, and the
    names of the five entries that authentication adds. *)
Definition auth_fields (E : Env) (self : HuobiSpotRestAPI) : list (string * value) :=
  [("AccessKeyId", value_of_key (_access_key self));
   ("SignatureMethod", VStr "HmacSHA256");
   ("SignatureVersion", VStr "2");
   ("Timestamp", VStr (strftime (utcnow E)))].

Definition auth_keys : list string :=
  ["AccessKeyId"; "SignatureMethod"; "SignatureVersion"; "Timestamp"; "Signature"].

(** The [if auth:] block. *)
Definition authenticate (E : Env) (self : HuobiSpotRestAPI) (method uri : string)
    (params : option loc) : M (option loc) :=
  (params <- or_fresh params ;;
   modify params (fun d => dict_update d (auth_fields E self)) ;;
   d <- load params ;;
   signature <- lift (generate_signature self method d uri) ;;
   modify params (dict_set "Signature" (VStr signature)) ;;
   ret (Some params))%M.

(** The last lines, from [if error:] on. *)
Definition interpret (E : Env) (reply : pyval * pyval) : M (pyval * pyval) :=
  (let '(success, error) := reply in
   if truthy error then ret (PNone, error)
   else
     result <- match success with
               | PDict _ => ret success
               | PScalar (VStr s) => lift (json_loads E s)
               | _ => raise TypeError
               end ;;
     match result with
     | PDict d => if status_not_ok d then ret (PNone, result) else ret (result, PNone)
     | _ => raise AttributeError
     end)%M.

(** From the headers to the end, for the mapping [params] held by then. *)
Definition send (E : Env) (method url : string) (params : option loc)
    (body : pyval) (headers : option loc) : M (pyval * pyval) :=
  (headers <- or_fresh headers ;;
   reply <- (if String.eqb method "GET" then
               modify headers (dict_set "Content-type"
                                 (VStr "application/x-www-form-urlencoded")) ;;
               modify headers (dict_set "User-Agent" (VStr (USER_AGENT E))) ;;
               do_fetch E "GET" url params None headers 10
             else
               modify headers (dict_set "Accept" (VStr "application/json")) ;;
               modify headers (dict_set "Content-type" (VStr "application/json")) ;;
               modify headers (dict_set "User-Agent" (VStr (USER_AGENT E))) ;;
               do_fetch E "POST" url params (Some body) headers 10) ;;
   interpret E reply)%M.

(** ** What the stages compute *)

(** The URL of the call, when [urljoin] returns one. *)
Definition resolved_url (E : Env) (self : HuobiSpotRestAPI) (uri : string)
  : result string :=
  if is_absolute uri then Ok uri else urljoin E (_host self) uri.

(** The method, the headers and the body handed to the transport. *)
Definition transport_method (method : string) : string :=
  if String.eqb method "GET" then "GET" else "POST".

Definition headers_for (E : Env) (method : string) (h : dict) : dict :=
  if String.eqb method "GET" then
    dict_set "User-Agent" (VStr (USER_AGENT E))
      (dict_set "Content-type" (VStr "application/x-www-form-urlencoded") h)
  else
    dict_set "User-Agent" (VStr (USER_AGENT E))
      (dict_set "Content-type" (VStr "application/json")
         (dict_set "Accept" (VStr "application/json") h)).

Definition transport_data (method : string) (body : pyval) : option pyval :=
  if String.eqb method "GET" then None else Some body.

(** The call that [send] makes from a state, and the state it leaves. *)
Definition call_of (E : Env) (method url : string) (params : option loc)
    (body : pyval) (headers : option loc) (st : state) : FetchCall :=
  let lh := chosen headers st in
  let hp := <[lh := headers_for E method (dict_at headers st)]> (heap (grown headers st)) in
  {| fc_method := transport_method method;
     fc_url := url;
     fc_params := match params with
                  | Some l => Some (l, default [] (hp !! l))
                  | None => None
                  end;
     fc_data := transport_data method body;
     fc_headers := (lh, headers_for E method (dict_at headers st));
     fc_timeout := 10 |}.

Definition sent (E : Env) (method url : string) (params : option loc)
    (body : pyval) (headers : option loc) (st : state) : state :=
  let lh := chosen headers st in
  {| heap := <[lh := headers_for E method (dict_at headers st)]> (heap (grown headers st));
     calls := calls st ++ [call_of E method url params body headers st] |}.

(** The envelope: the body itself when it is a dictionary, else what
    [json.loads] makes of it. *)
Definition decode_body (E : Env) (success : pyval) : result pyval :=
  match success with
  | PDict _ => Ok success
  | PScalar (VStr s) => json_loads E s
  | _ => Raise TypeError
  end.

(** What [interpret] returns. *)
Definition outcome (E : Env) (reply : pyval * pyval) : result (pyval * pyval) :=
  let '(success, error) := reply in
  if truthy error then Ok (PNone, error)
  else
    (let? result := decode_body E success in
     match result with
     | PDict d => if status_not_ok d then Ok (PNone, result) else Ok (result, PNone)
     | _ => Raise AttributeError
     end)%result.

(** ** Data of the examples *)

(** Bytes in lower-case hexadecimal, as test vectors are printed. *)
Definition hex_of (b : list Z) : string :=
  let digit d := match String.get (Z.to_nat d) "0123456789abcdef" with
                 | Some c => c | None => "?"%char end in
  fold_right (fun x acc => String (digit (Z.shiftr x 4)) (String (digit (Z.land x 15)) acc))
             EmptyString b.

(** Clients: with both keys, without secret key, without access key. *)
Definition hb : HuobiSpotRestAPI :=
  {| _host := "https://api.huobi.pro"; _access_key := Some "ak"; _secret_key := Some "sk" |}.

Definition no_secret : HuobiSpotRestAPI :=
  {| _host := "https://api.huobi.pro"; _access_key := Some "ak"; _secret_key := None |}.

Definition no_access : HuobiSpotRestAPI :=
  {| _host := "https://api.huobi.pro"; _access_key := None; _secret_key := Some "sk" |}.

(** A client whose host opens a bracket and does not close it. *)
Definition unbracketed : HuobiSpotRestAPI :=
  {| _host := "http://[::1"; _access_key := Some "ak"; _secret_key := Some "sk" |}.

(** Environments.  [urljoin] is the model of [urllib.parse.urljoin] above.
    The transport of [demo] answers with an [ok] envelope, that of [failing]
    with an error, that of [rejecting] with a rejection by the server. *)
Definition clock_2020 : datetime :=
  {| year := 2020; month := 9; day := 10;
     hour := 1; minute := 2; second := 3; microsecond := 456789 |}.

Definition ok_envelope : pyval := PDict [("status", PScalar (VStr "ok"))].

Definition rejection : pyval :=
  PDict [("status", PScalar (VStr "error"));
         ("err-code", PScalar (VStr "order-orderstate-error"))].

Definition answering (reply : pyval * pyval) : Env :=
  {| USER_AGENT := "AlphaQuant";
     urljoin := Urllib.urljoin;
     json_loads := fun _ => Raise JSONDecodeError;
     utcnow := clock_2020;
     fetch := fun _ => reply |}.

Definition demo : Env := answering (ok_envelope, PNone).
Definition failing : Env := answering (PNone, PError "timeout").
Definition rejecting : Env := answering (rejection, PNone).

(** A transport that answers without an error, with text that is not JSON
    (the page of a gateway): [json.loads] raises on it. *)
Definition unparsable : Env := answering (PScalar (VStr "Bad Gateway"), PNone).

(** States: nothing allocated; a caller's mapping at location 0. *)
Definition init : state := {| heap := []; calls := [] |}.

Definition placed : state :=
  {| heap := [[("symbol", VStr "btcusdt")]]; calls := [] |}.

(** The worked example, an authenticated [GET] from [placed]: the mapping as
    it is sent, and the call. *)
Definition placed_params : dict :=
  [("symbol", VStr "btcusdt"); ("AccessKeyId", VStr "ak");
   ("SignatureMethod", VStr "HmacSHA256"); ("SignatureVersion", VStr "2");
   ("Timestamp", VStr "2020-09-10T01:02:03");
   ("Signature", VStr "ZnLUgt395V/wWuZXfaAzsqyjJO/rgWfLyt5EgWWIAbA=")].

Definition placed_call : FetchCall :=
  {| fc_method := "GET";
     fc_url := "https://api.huobi.pro/v1/order/orders";
     fc_params := Some (0%nat, placed_params);
     fc_data := None;
     fc_headers := (1%nat, [("Content-type", VStr "application/x-www-form-urlencoded");
                            ("User-Agent", VStr "AlphaQuant")]);
     fc_timeout := 10 |}.

(** The body of a market order. *)
Definition order_body : pyval :=
  PDict [("account-id", PScalar (VStr "spot")); ("symbol", PScalar (VStr "btcusdt"));
         ("type", PScalar (VStr "buy-market")); ("amount", PScalar (VStr "1"))].

(** The absolute URI of the futures transfer, and one with a query. *)
Definition transfer_uri : string := "https://api.huobi.pro/v1/futures/transfer".

Definition query_uri : string := "https://api.example.com/v1/x?a=b".

(** * The endpoint methods

    Each method is read as it is written.  An argument that the code tests,
    stores or concatenates is a scalar value, a list argument a list of
    them; a default value is passed by the caller of the model.  The query
    mapping of a method is an object of the heap, as [request] may write to
    it; the body is a value, as nothing writes to it once it is built. *)

Local Open Scope string_scope.

(** [if x:] for a scalar argument. *)
Definition is_true (x : value) : bool := truthy (PScalar x).

(** [body.update({k: v})] *)
Fixpoint pdict_set (k : string) (v : pyval) (d : list (string * pyval))
  : list (string * pyval) :=
  match d with
  | [] => [(k, v)]
  | (k', v') :: d' =>
      if String.eqb k' k then (k', v) :: d' else (k', v') :: pdict_set k v d'
  end.

(** [s + x] for a [str] [s]: a [TypeError] unless [x] is a [str]. *)
Definition str_add (s : string) (x : value) : result string :=
  match x with
  | VStr t => Ok (s ++ t)
  | _ => Raise TypeError
  end.

(** The items of a list as [str.join] wants them: every one a [str]. *)
Fixpoint str_items (xs : list value) : result (list string) :=
  match xs with
  | [] => Ok []
  | VStr s :: xs' => (let? l := str_items xs' in Ok (s :: l))%result
  | _ :: _ => Raise TypeError
  end.

(** [sep.join(xs)] for a list [xs]. *)
Definition join_list (sep : string) (xs : list value) : result string :=
  (let? l := str_items xs in Ok (Str.join sep l))%result.

(** [sep.join(x)] for a scalar [x]: a [str] is joined character by
    character, nothing else can be iterated. *)
Definition join_chars (sep : string) (x : value) : result string :=
  match x with
  | VStr s =>
      Ok (Str.join sep (map (fun c => String c EmptyString) (list_ascii_of_string s)))
  | _ => Raise TypeError
  end.

(** How a method ends: it returns, it raises one of the exceptions of
    [request], or it stops at a name that is bound nowhere. *)
Inductive ending (A : Type) : Type :=
| Returned (a : A)
| Raised (e : exn)
| NameError (name : string).

Arguments Returned {A} a.
Arguments Raised {A} e.
Arguments NameError {A} name.

Definition finish {A} (m : M A) : state -> ending A * state :=
  fun st =>
    match m st with
    | (Ok a, st') => (Returned a, st')
    | (Raise e, st') => (Raised e, st')
    end.

(** ** Market data and ETP queries: [GET], not signed *)

Definition get_etp_reference (E : Env) (self : HuobiSpotRestAPI) (etpName : value)
  : state -> ending (pyval * pyval) * state :=
  fun st =>
    match alloc [] st with
    | (_, st') => (NameError "etp_code", st')
    end.

Definition get_orderbook (E : Env) (self : HuobiSpotRestAPI) (symbol depth : value)
  : M (pyval * pyval) :=
  (let uri := "/market/depth" in
   params <- alloc [("symbol", symbol); ("type", VStr "step0")] ;;
   (if is_true depth then modify params (dict_set "depth" depth) else ret tt) ;;
   request E self "GET" uri (Some params) PNone None false)%M.

Definition get_klines (E : Env) (self : HuobiSpotRestAPI) (symbol period size : value)
  : M (pyval * pyval) :=
  (let uri := "/market/history/kline" in
   params <- alloc [("symbol", symbol); ("period", period)] ;;
   (if is_true size then modify params (dict_set "size" size) else ret tt) ;;
   request E self "GET" uri (Some params) PNone None false)%M.

Definition get_etp_nav (E : Env) (self : HuobiSpotRestAPI) (symbol : value)
  : M (pyval * pyval) :=
  (let uri := "/market/etp" in
   params <- alloc [("symbol", symbol)] ;;
   request E self "GET" uri (Some params) PNone None false)%M.

Definition get_etp_transaction (E : Env) (self : HuobiSpotRestAPI) (transactId : value)
  : M (pyval * pyval) :=
  (let uri := "/v2/etp/transaction" in
   params <- alloc [("transactId", transactId)] ;;
   request E self "GET" uri (Some params) PNone None false)%M.

Definition get_etp_transactions (E : Env) (self : HuobiSpotRestAPI)
    (etpNames currencies : list value) (transactTypes transactStatus : value)
    (startTime endTime sort limit fromId : value)
  : state -> ending (pyval * pyval) * state :=
  fun st =>
    match
      (params <- alloc [("limit", limit)] ;;
       match etpNames with
       | [] => ret tt
       | _ => s <- lift (join_list "," etpNames) ;;
              modify params (dict_set "etpNames" (VStr s))
       end ;;
       match currencies with
       | [] => ret tt
       | _ => s <- lift (join_list "," currencies) ;;
              modify params (dict_set "currencies" (VStr s))
       end ;;
       (if is_true transactTypes then
          s <- lift (join_chars "," transactTypes) ;;
          modify params (dict_set "transactTypes" (VStr s))
        else ret tt) ;;
       (if is_true transactStatus then
          s <- lift (join_chars "," transactStatus) ;;
          modify params (dict_set "transactStatus" (VStr s))
        else ret tt) ;;
       (if is_true startTime then modify params (dict_set "startTime" startTime)
        else ret tt) ;;
       (if is_true endTime then modify params (dict_set "endTime" endTime)
        else ret tt) ;;
       (if is_true sort then modify params (dict_set "sort" sort) else ret tt))%M st
    with
    | (Ok _, st') => (NameError "fromID", st')
    | (Raise e, st') => (Raised e, st')
    end.

(** ** Orders, ETP creation and transfers: [POST], signed *)

Definition create_order (E : Env) (self : HuobiSpotRestAPI)
    (account_id symbol _type amount price source client_order_id stop_price operater : value)
  : state -> ending (pyval * pyval) * state :=
  fun st =>
    let uri := "/v1/order/orders/place" in
    let body := [("account-id", PScalar account_id); ("symbol", PScalar symbol);
                 ("type", PScalar _type); ("amount", PScalar amount)] in
    let body := if is_true client_order_id
                then pdict_set "client_order_id" (PScalar client_order_id) body
                else body in
    let body := if is_true price then pdict_set "price" (PScalar price) body else body in
    if is_true source then (NameError "souce", st)
    else
      let body := if is_true stop_price
                  then pdict_set "stop_price" (PScalar stop_price) body
                  else body in
      if is_true operater then (NameError "operator", st)
      else finish (request E self "POST" uri None (PDict body) None true) st.

Definition revoke_order (E : Env) (self : HuobiSpotRestAPI) (order_id : value)
  : M (pyval * pyval) :=
  (uri <- lift (let? s := str_add "/v1/order/orders/" order_id in
                str_add s (VStr "/submitcancel"))%result ;;
   let body := PDict [("order_id", PScalar order_id)] in
   request E self "POST" uri None body None true)%M.

Definition revoke_client_order (E : Env) (self : HuobiSpotRestAPI)
    (client_order_id : value) : M (pyval * pyval) :=
  (let uri := "/v1/order/orders/submitCancelClientOrder" in
   let body := PDict [("client-order-id", PScalar client_order_id)] in
   request E self "POST" uri None body None true)%M.

Definition revoke_orders (E : Env) (self : HuobiSpotRestAPI)
    (order_ids client_order_ids : list value) : M (pyval * pyval) :=
  (let uri := "/v1/order/orders/batchcancel" in
   ids <- lift (join_list "," order_ids) ;;
   client_ids <- lift (join_list "," client_order_ids) ;;
   let body := PDict [("order_id", PScalar (VStr ids));
                      ("client_order_id", PScalar (VStr client_ids))] in
   request E self "POST" uri None body None true)%M.

Definition revoke_open_orders (E : Env) (self : HuobiSpotRestAPI)
    (account_id : value) (symbol : list value) (side size : value)
  : M (pyval * pyval) :=
  (let uri := "/v1/order/orders/batchCancelOpenOrders" in
   let body := [] in
   let body := if is_true account_id
               then pdict_set "account_id" (PScalar account_id) body
               else body in
   body <- match symbol with
           | [] => ret body
           | _ => s <- lift (join_list "," symbol) ;;
                  ret (pdict_set "symbol" (PScalar (VStr s)) body)
           end ;;
   let body := if is_true side then pdict_set "side" (PScalar side) body else body in
   let body := if is_true size then pdict_set "size" (PScalar size) body else body in
   request E self "POST" uri None (PDict body) None true)%M.

Definition get_order_info (E : Env) (self : HuobiSpotRestAPI)
    (contract_code : value) (order_ids client_order_ids : list value)
  : M (pyval * pyval) :=
  (let uri := "/linear-swap-api/v1/swap_order_info" in
   ids <- lift (join_list "," order_ids) ;;
   client_ids <- lift (join_list "," client_order_ids) ;;
   let body := PDict [("contract_code", PScalar contract_code);
                      ("order_id", PScalar (VStr ids));
                      ("client_order_id", PScalar (VStr client_ids))] in
   request E self "POST" uri None body None true)%M.

Definition get_order_detail (E : Env) (self : HuobiSpotRestAPI) (order_id : value)
  : M (pyval * pyval) :=
  (uri <- lift (str_add "/v1/order/orders/" order_id) ;;
   let body := PDict [("order_id", PScalar order_id)] in
   request E self "POST" uri None body None true)%M.

Definition get_open_orders (E : Env) (self : HuobiSpotRestAPI)
    (account_id symbol side _from direct size : value) : M (pyval * pyval) :=
  (let uri := "/v1/order/openOrders" in
   let body := [("account-id", PScalar account_id); ("symbol", PScalar symbol);
                ("size", PScalar size)] in
   let body := if is_true side then pdict_set "side" (PScalar side) body else body in
   let body := if is_true _from then pdict_set "from" (PScalar _from) body else body in
   let body := if is_true direct then pdict_set "direct" (PScalar direct) body else body in
   request E self "POST" uri None (PDict body) None true)%M.

Definition create_etp (E : Env) (self : HuobiSpotRestAPI) (etpName value curency : value)
  : state -> ending (pyval * pyval) * state :=
  fun st => (NameError "currency", st).

Definition redempt_etp (E : Env) (self : HuobiSpotRestAPI)
    (etpName currency amount : value) : M (pyval * pyval) :=
  (let uri := "/v2/etp/redemption" in
   let body := PDict [("etpName", PScalar etpName); ("currency", PScalar currency);
                      ("amount", PScalar amount)] in
   request E self "POST" uri None body None true)%M.

Definition transfer_between_spot_future (E : Env) (self : HuobiSpotRestAPI)
    (symbol amount type_s : value) : M (pyval * pyval) :=
  (let body := PDict [("currency", PScalar symbol); ("amount", PScalar amount);
                      ("type", PScalar type_s)] in
   let uri := "https://api.huobi.pro/v1/futures/transfer" in
   request E self "POST" uri None body None true)%M.

Local Open Scope list_scope.

(** * Vocabulary of the further properties *)

(** Every dictionary of the heap has one entry per key. *)
Definition heap_wf (st : state) : Prop :=
  Forall (fun d : dict => NoDup (keys d)) (heap st).

(** What a call shows of the request apart from the body. *)
Definition call_line (c : FetchCall)
  : string * string * option (loc * dict) * (loc * dict) * Z :=
  (fc_method c, fc_url c, fc_params c, fc_headers c, fc_timeout c).

(** The headers that [request] builds when the caller gives none. *)
Definition form_headers (E : Env) : dict :=
  [("Content-type", VStr "application/x-www-form-urlencoded");
   ("User-Agent", VStr (USER_AGENT E))].

Definition json_headers (E : Env) : dict :=
  [("Accept", VStr "application/json"); ("Content-type", VStr "application/json");
   ("User-Agent", VStr (USER_AGENT E))].

(** The one call of a query method: a [GET] of [url] with the mapping [q],
    a new object, and new headers. *)
Definition query_call (E : Env) (url : string) (q : dict) (st : state) : FetchCall :=
  {| fc_method := "GET";
     fc_url := url;
     fc_params := Some (List.length (heap st), q);
     fc_data := None;
     fc_headers := (S (List.length (heap st)), form_headers E);
     fc_timeout := 10 |}.

(** The mapping of a signed call that started from no mapping. *)
Definition signed_query (E : Env) (self : HuobiSpotRestAPI) (signature : string) : dict :=
  auth_fields E self ++ [("Signature", VStr signature)].

(** The one call of a signed method: a [POST] of [body] to [url] with the
    signed mapping, a new object, and new headers. *)
Definition signed_call (E : Env) (self : HuobiSpotRestAPI) (url : string) (body : pyval)
    (signature : string) (st : state) : FetchCall :=
  {| fc_method := "POST";
     fc_url := url;
     fc_params := Some (List.length (heap st), signed_query E self signature);
     fc_data := Some body;
     fc_headers := (S (List.length (heap st)), json_headers E);
     fc_timeout := 10 |}.

(** The state that the [if auth:] block leaves, with [d] in the mapping it
    worked on. *)
Definition signed_state (params : option loc) (d : dict) (st : state) : state :=
  {| heap := <[chosen params st := d]> (heap (grown params st)); calls := calls st |}.

(** ** Data of the further examples *)

(** A caller's mapping at location 0 and a caller's headers at location 1. *)
Definition with_headers : state :=
  {| heap := [[("symbol", VStr "btcusdt")];
              [("X-Trace", VStr "7"); ("Content-type", VStr "text/plain")]];
     calls := [] |}.

(** The call of a second authenticated [GET] with the mapping of [placed],
    made after the first one. *)
Definition reused_call : FetchCall :=
  {| fc_method := "GET";
     fc_url := "https://api.huobi.pro/v1/order/orders";
     fc_params :=
       Some (0%nat,
             [("symbol", VStr "btcusdt"); ("AccessKeyId", VStr "ak");
              ("SignatureMethod", VStr "HmacSHA256"); ("SignatureVersion", VStr "2");
              ("Timestamp", VStr "2020-09-10T01:02:03");
              ("Signature", VStr "21wX3gfUnCaCcQIJT7adqWSZPvbLnlZpp+qO5q+jR9s=")]);
     fc_data := None;
     fc_headers := (2%nat, [("Content-type", VStr "application/x-www-form-urlencoded");
                            ("User-Agent", VStr "AlphaQuant")]);
     fc_timeout := 10 |}.

(** A transport that answers with something that is neither a dictionary nor
    text. *)
Definition garbled : Env := answering (PList [], PNone).

(** A computation that builds the newest mapping: it works on the last
    object of the heap only, and ends normally or with a [TypeError]. *)
Definition builds (st : state) (m : M unit) : Prop :=
  forall d, exists d',
    m {| heap := heap st ++ [d]; calls := calls st |}
    = (Ok tt, {| heap := heap st ++ [d']; calls := calls st |})
    \/ m {| heap := heap st ++ [d]; calls := calls st |}
       = (Raise TypeError, {| heap := heap st ++ [d']; calls := calls st |}).

(** ** [quote_plus], character by character *)

(** What [quote_plus] writes for one character: [+] for a space, the
    character itself when it is always safe, else [%XX] for each of its
    UTF-8 bytes. *)
Definition quote_plus_char (c : ascii) : string :=
  if Ascii.eqb c " " then "+"%string
  else String.concat EmptyString (map (Urllib.quote_byte EmptyString) (Str.utf8_char c)).

Fixpoint flat_map_string (f : ascii -> string) (s : string) : string :=
  match s with
  | EmptyString => EmptyString
  | String c s' => (f c ++ flat_map_string f s')%string
  end.

(** The value of a hexadecimal digit as [quote] writes it. *)
Definition hex_value (c : ascii) : Z :=
  let n := Str.code c in
  if ((48 <=? n) && (n <=? 57))%Z then n - 48 else n - 55.

(** The first character that a quoted text stands for, and the rest of the
    text: the inverse of [quote_plus_char]. *)
Definition unquote_char (s : string) : option (ascii * string) :=
  match s with
  | EmptyString => None
  | String c rest =>
      if Ascii.eqb c "+" then Some (" "%char, rest)
      else if Ascii.eqb c "%" then
        match rest with
        | String h (String l rest') =>
            let b := 16 * hex_value h + hex_value l in
            if (b <? 128)%Z then Some (Str.chr b, rest')
            else
              match rest' with
              | String _ (String h2 (String l2 rest'')) =>
                  let b2 := 16 * hex_value h2 + hex_value l2 in
                  Some (Str.chr (Z.lor (Z.shiftl (Z.land b 31) 6) (Z.land b2 63)), rest'')
              | _ => None
              end
        | _ => None
        end
      else Some (c, rest)
  end.

(** The entries of a mapping as the payload shows them: sorted, each value
    as [str] writes it. *)
Definition rendered (d : dict) : list (string * string) :=
  map (fun kv => (fst kv, str_of_value (snd kv))) (sorted_items d).

(** A date and time as [datetime] holds them, in the years that [%Y]
    writes on four digits. *)
Definition valid_datetime (t : datetime) : Prop :=
  1000 <= year t <= 9999 /\ 1 <= month t <= 12 /\ 1 <= day t <= 31
  /\ 0 <= hour t <= 23 /\ 0 <= minute t <= 59 /\ 0 <= second t <= 59.

(** The number that a string of decimal digits writes. *)
Definition decimal (s : string) : Z :=
  fold_left (fun acc c => 10 * acc + (Str.code c - 48)) (list_ascii_of_string s) 0.

(** A time stamp of the form [YYYY-MM-DDTHH:MM:SS] read back: 19 characters,
    the six fields in digits between the separators, nothing finer than the
    second and no zone after it. *)
Definition read_timestamp (s : string) : option datetime :=
  let field i n := substring i n s in
  if (String.length s =? 19)%nat
     && String.eqb (field 4 1)%nat "-" && String.eqb (field 7 1)%nat "-"
     && String.eqb (field 10 1)%nat "T"
     && String.eqb (field 13 1)%nat ":" && String.eqb (field 16 1)%nat ":"
     && forallb (Urllib.all_chars Urllib.is_digit)
          [field 0 4; field 5 2; field 8 2; field 11 2; field 14 2; field 17 2]%nat
  then Some {| year := decimal (field 0 4)%nat; month := decimal (field 5 2)%nat;
               day := decimal (field 8 2)%nat; hour := decimal (field 11 2)%nat;
               minute := decimal (field 14 2)%nat; second := decimal (field 17 2)%nat;
               microsecond := 0 |}
  else None.

(** * Properties *)

(** ** Test vectors of the library models *)

Example sha256_abc :
  hex_of (Sha256.sha256 (Str.encode "abc")) =
  "ba7816bf8f01cfea414140de5dae2223b00361a396177a9cb410ff61f20015ad".
Proof. vm_compute. reflexivity. Qed.

Example sha256_empty :
  hex_of (Sha256.sha256 []) =
  "e3b0c44298fc1c149afbf4c8996fb92427ae41e4649b934ca495991b7852b855".
Proof. vm_compute. reflexivity. Qed.

Example sha256_two_blocks :
  hex_of (Sha256.sha256
            (Str.encode "abcdbcdecdefdefgefghfghighijhijkijkljklmklmnlmnomnopnopq")) =
  "248d6a61d20638b8e5c026930c3e6039a33ce45964ff2167f6ecedd419db06c1".
Proof. vm_compute. reflexivity. Qed.

Example hmac_rfc4231_case2 :
  hex_of (Hmac.digest (Str.encode "Jefe") (Str.encode "what do ya want for nothing?")) =
  "5bdcc146bf60754e6a042426089575c75a003f089d2739839dec58b964ec3843".
Proof. vm_compute. reflexivity. Qed.

Example b64_rfc4648 :
  map (fun s => Str.decode (Base64.b64encode (Str.encode s)))
      [""; "f"; "fo"; "foo"; "foob"; "fooba"; "foobar"]
  = [""; "Zg=="; "Zm8="; "Zm9v"; "Zm9vYg=="; "Zm9vYmE="; "Zm9vYmFy"].
Proof. vm_compute. reflexivity. Qed.

(** ** Order on keys *)

Lemma ascii_compare_lt_trans a b c :
  Ascii.compare a b = Lt -> Ascii.compare b c = Lt -> Ascii.compare a c = Lt.
Proof.
  unfold Ascii.compare. rewrite !N.compare_lt_iff. apply N.lt_trans.
Qed.

Lemma string_compare_lt_trans a : forall b c,
  String.compare a b = Lt -> String.compare b c = Lt -> String.compare a c = Lt.
Proof.
  induction a as [|x a IH]; intros [|y b] [|z c]; simpl; try congruence.
  destruct (Ascii.compare x y) eqn:Hxy; try discriminate.
  - apply Ascii.compare_eq_iff in Hxy. subst y.
    destruct (Ascii.compare x z) eqn:Hxz; try congruence. apply IH.
  - intros _. destruct (Ascii.compare y z) eqn:Hyz; try discriminate.
    + apply Ascii.compare_eq_iff in Hyz. subst z. now rewrite Hxy.
    + intros _. now rewrite (ascii_compare_lt_trans _ _ _ Hxy Hyz).
Qed.

Lemma leb_trans a b c :
  Str.leb a b = true -> Str.leb b c = true -> Str.leb a c = true.
Proof.
  unfold Str.leb, String.leb.
  destruct (String.compare a b) eqn:Hab; try discriminate; intros _.
  - apply String.compare_eq_iff in Hab. now subst b.
  - destruct (String.compare b c) eqn:Hbc; try discriminate; intros _.
    + apply String.compare_eq_iff in Hbc. subst c. now rewrite Hab.
    + now rewrite (string_compare_lt_trans _ _ _ Hab Hbc).
Qed.

Lemma leb_antisym a b : Str.leb a b = true -> Str.leb b a = true -> a = b.
Proof. apply String.leb_antisym. Qed.

Lemma leb_false_le a b : Str.leb a b = false -> Str.leb b a = true.
Proof.
  intros H. destruct (String.leb_total a b) as [H'|H']; [|exact H'].
  unfold Str.leb in H. congruence.
Qed.

(** ** [sorted]: ascending, a rearrangement of its input, and the same for
    every insertion order *)

Lemma insert_by_key_perm x l : Permutation (insert_by_key x l) (x :: l).
Proof.
  induction l as [|y l IH]; simpl; [reflexivity|].
  destruct (Str.leb (fst x) (fst y)); [reflexivity|].
  rewrite IH. apply perm_swap.
Qed.

Lemma sorted_items_perm d : Permutation (sorted_items d) d.
Proof.
  induction d as [|x d IH]; simpl; [reflexivity|].
  rewrite insert_by_key_perm. now constructor.
Qed.

Lemma insert_by_key_sorted x l :
  StronglySorted key_le l -> StronglySorted key_le (insert_by_key x l).
Proof.
  induction 1 as [|y l Hs IH Hy]; simpl.
  - repeat constructor.
  - destruct (Str.leb (fst x) (fst y)) eqn:Hxy.
    + constructor; [now constructor|]. constructor; [exact Hxy|].
      eapply List.Forall_impl; [|exact Hy]. intros z Hz. unfold key_le in *.
      eapply leb_trans; eassumption.
    + constructor; [exact IH|].
      eapply Permutation_Forall; [symmetry; apply insert_by_key_perm|].
      constructor; [|exact Hy]. now apply leb_false_le.
Qed.

Lemma sorted_items_sorted d : StronglySorted key_le (sorted_items d).
Proof.
  induction d as [|x d IH]; simpl; [constructor|]. now apply insert_by_key_sorted.
Qed.

Lemma sorted_unique (l1 : list (string * value)) : forall l2,
  StronglySorted key_le l1 -> StronglySorted key_le l2 ->
  NoDup (keys l1) -> Permutation l1 l2 -> l1 = l2.
Proof.
  induction l1 as [|x l1 IH]; intros l2 S1 S2 N1 P.
  - now apply Permutation_nil in P.
  - destruct l2 as [|y l2]; [now apply Permutation_sym, Permutation_nil in P|].
    apply StronglySorted_inv in S1 as [S1 H1].
    apply StronglySorted_inv in S2 as [S2 H2].
    assert (N2 : NoDup (keys (y :: l2))).
    { unfold keys in *. now rewrite <- (Permutation_map fst P). }
    assert (x = y) as ->.
    { assert (Hx : In x (y :: l2)) by (eapply Permutation_in; [exact P|now left]).
      assert (Hy : In y (x :: l1))
        by (eapply Permutation_in; [symmetry; exact P|now left]).
      destruct Hx as [->|Hx]; [reflexivity|].
      destruct Hy as [->|Hy]; [reflexivity|].
      rewrite List.Forall_forall in H1, H2.
      assert (fst x = fst y) by (apply leb_antisym; [now apply H1|now apply H2]).
      exfalso. simpl in N2. apply NoDup_cons in N2 as [N2 _]. apply N2.
      rewrite <- H. apply list_elem_of_In. unfold keys. now apply in_map. }
    f_equal. apply IH; auto.
    + simpl in N1. now apply NoDup_cons in N1.
    + eapply Permutation_cons_inv; exact P.
Qed.

Lemma sorted_items_order_free d1 d2 :
  NoDup (keys d1) -> Permutation d1 d2 -> sorted_items d1 = sorted_items d2.
Proof.
  intros N P. apply sorted_unique; try apply sorted_items_sorted.
  - unfold keys. now rewrite (Permutation_map fst (sorted_items_perm d1)).
  - rewrite sorted_items_perm, P. symmetry. apply sorted_items_perm.
Qed.

(** ** Strings: [startswith], [split], [join], [partition] *)

Lemma prefix_app p : forall s, String.prefix p s = true -> exists t, s = (p ++ t)%string.
Proof.
  induction p as [|a p IH]; intros s H.
  - now exists s.
  - destruct s as [|b s]; cbn [String.prefix] in H; [discriminate|].
    destruct (ascii_dec a b) as [->|]; [|discriminate].
    destruct (IH _ H) as [t ->]. now exists t.
Qed.

Lemma is_absolute_inv uri :
  is_absolute uri = true ->
  exists tl, uri = ("http://" ++ tl)%string \/ uri = ("https://" ++ tl)%string.
Proof.
  unfold is_absolute, Str.startswith. intros H.
  apply orb_true_iff in H as [H|H]; apply prefix_app in H as [t ->]; eauto.
Qed.

Lemma split_nonempty sep s : Str.split sep s <> [].
Proof.
  destruct s as [|c s]; simpl; [discriminate|].
  destruct (Ascii.eqb c sep); [discriminate|].
  destruct (Str.split sep s); discriminate.
Qed.

Lemma join_split sep s : Str.join (String sep EmptyString) (Str.split sep s) = s.
Proof.
  unfold Str.join. induction s as [|c s IH]; simpl; [reflexivity|].
  destruct (Ascii.eqb_spec c sep) as [->|Hne].
  - pose proof (split_nonempty sep s) as Hs.
    destruct (Str.split sep s) as [|h t]; [congruence|].
    simpl in *. now rewrite IH.
  - destruct (Str.split sep s) as [|h t] eqn:E; [now apply split_nonempty in E|].
    simpl in *. destruct t; simpl in *; now rewrite <- IH.
Qed.

Lemma split_app_sep sep a : forall b,
  Str.mem sep a = false ->
  Str.split sep (a ++ String sep b) = a :: Str.split sep b.
Proof.
  induction a as [|c a IH]; intros b H; simpl in *.
  - now rewrite Ascii.eqb_refl.
  - apply orb_false_iff in H as [Hc Ha].
    rewrite Ascii.eqb_sym, Hc. now rewrite IH.
Qed.

Lemma split_no_sep sep a : Str.mem sep a = false -> Str.split sep a = [a].
Proof.
  induction a as [|c a IH]; simpl; [reflexivity|]. intros H.
  apply orb_false_iff in H as [Hc Ha]. rewrite Ascii.eqb_sym, Hc. now rewrite IH.
Qed.

Lemma partition_absent c s :
  Str.mem c s = false -> Str.partition c s = (s, false, EmptyString).
Proof.
  induction s as [|x s IH]; simpl; [reflexivity|]. intros H.
  apply orb_false_iff in H as [Hc Hs]. rewrite Ascii.eqb_sym, Hc. now rewrite IH.
Qed.

(** ** The absolute-URL branch of the signing target *)

Lemma splitnetloc_app tl :
  tl = (fst (Urllib.splitnetloc tl) ++ snd (Urllib.splitnetloc tl))%string.
Proof.
  induction tl as [|c tl IH]; [reflexivity|]. cbn [Urllib.splitnetloc].
  destruct (Str.mem c "/?#"); [reflexivity|].
  destruct (Urllib.splitnetloc tl) as [n r]. simpl in *. now rewrite <- IH.
Qed.

Lemma splitnetloc_no_slash tl : Str.mem "/" (fst (Urllib.splitnetloc tl)) = false.
Proof.
  induction tl as [|c tl IH]; [reflexivity|]. cbn [Urllib.splitnetloc].
  destruct (Str.mem c "/?#") eqn:Hc; [reflexivity|].
  destruct (Urllib.splitnetloc tl) as [n r]. cbn [fst Str.mem] in *.
  rewrite IH, orb_false_r.
  apply orb_false_iff in Hc as [Hc _]. now rewrite Ascii.eqb_sym.
Qed.

Lemma after_scheme_absolute uri tl :
  uri = ("http://" ++ tl)%string \/ uri = ("https://" ++ tl)%string ->
  Urllib.after_scheme uri = String "/" (String "/" tl).
Proof. intros [->| ->]; reflexivity. Qed.

Lemma split_absolute uri tl :
  uri = ("http://" ++ tl)%string \/ uri = ("https://" ++ tl)%string ->
  Str.slice_from 3 (Str.split "/" uri) = Str.slice_from 1 (Str.split "/" tl).
Proof.
  intros [->| ->]; simpl;
    (destruct (Str.split "/" tl) as [|h t] eqn:E; [now apply split_nonempty in E|]);
    reflexivity.
Qed.

(** What the code takes as the path of an absolute URL is everything after
    the authority, whenever that starts with a slash. *)
Lemma absolute_path_after_netloc uri rest :
  is_absolute uri = true ->
  Urllib.after_netloc uri = String "/" rest ->
  ("/" ++ Str.join "/" (Str.slice_from 3 (Str.split "/" uri)))%string
  = Urllib.after_netloc uri.
Proof.
  intros Habs Hrest. destruct (is_absolute_inv _ Habs) as [tl Huri].
  rewrite (split_absolute _ _ Huri).
  unfold Urllib.after_netloc in *. rewrite (after_scheme_absolute _ _ Huri) in *.
  pose proof (splitnetloc_app tl) as Happ.
  pose proof (splitnetloc_no_slash tl) as Hno.
  rewrite Hrest in *. rewrite Happ at 1.
  rewrite split_app_sep by exact Hno. simpl.
  now rewrite (join_split "/" rest).
Qed.

(** An absolute URL with nothing after the authority is signed with the
    path [/]. *)
Lemma absolute_path_empty uri :
  is_absolute uri = true ->
  Urllib.after_netloc uri = EmptyString ->
  ("/" ++ Str.join "/" (Str.slice_from 3 (Str.split "/" uri)))%string = "/".
Proof.
  intros Habs Hrest. destruct (is_absolute_inv _ Habs) as [tl Huri].
  rewrite (split_absolute _ _ Huri).
  unfold Urllib.after_netloc in *. rewrite (after_scheme_absolute _ _ Huri) in *.
  pose proof (splitnetloc_app tl) as Happ.
  pose proof (splitnetloc_no_slash tl) as Hno.
  rewrite Hrest in *. rewrite Happ.
  replace (fst (Urllib.splitnetloc tl) ++ EmptyString)%string
    with (fst (Urllib.splitnetloc tl)).
  - now rewrite split_no_sep.
  - generalize (fst (Urllib.splitnetloc tl)). induction s; simpl; congruence.
Qed.

Lemma path_without_query uri :
  Str.mem "?" (Urllib.after_netloc uri) = false ->
  Str.mem "#" (Urllib.after_netloc uri) = false ->
  Urllib.path uri = Urllib.after_netloc uri.
Proof.
  intros Hq Hf. unfold Urllib.path.
  rewrite (partition_absent _ _ Hf). now rewrite (partition_absent _ _ Hq).
Qed.

(** ** The fuel is enough *)

Lemma chunks_concat {A} (n : nat) : (0 < n)%nat ->
  forall fuel (l : list A),
    (List.length l <= fuel)%nat -> concat (Sha256.chunks fuel n l) = l.
Proof.
  intros Hn. induction fuel as [|fuel IH]; intros l Hl.
  - destruct l; [reflexivity|simpl in Hl; lia].
  - destruct l as [|x l]; [reflexivity|].
    cbn [Sha256.chunks concat]. rewrite IH.
    + apply firstn_skipn.
    + rewrite length_skipn. simpl in *. lia.
Qed.

Lemma sha256_blocks_cover msg :
  concat (Sha256.chunks (List.length (Sha256.pad msg)) 64 (Sha256.pad msg))
  = Sha256.pad msg.
Proof. apply chunks_concat; lia. Qed.

Lemma groups_fuel : forall fuel fuel' b,
  (List.length b <= fuel)%nat -> (List.length b <= fuel')%nat ->
  Base64.groups fuel b = Base64.groups fuel' b.
Proof.
  induction fuel as [|fuel IH]; intros fuel' b H H'.
  - destruct b; [now destruct fuel'|simpl in H; lia].
  - destruct fuel' as [|fuel'].
    + destruct b; [reflexivity|simpl in H'; lia].
    + destruct b as [|x [|y [|z b]]]; try reflexivity.
      cbn [Base64.groups]. f_equal. apply IH; simpl in *; lia.
Qed.

(** ** Sizes: a digest has 32 bytes, a signature 44 characters, a time
    stamp 19 *)

Lemma be_bytes_length n x : List.length (Sha256.be_bytes n x) = n.
Proof.
  revert x. induction n as [|n IH]; intros x; simpl; [reflexivity|].
  rewrite length_app, IH. simpl. lia.
Qed.

Lemma compress_length h block :
  List.length h = 8%nat -> List.length (Sha256.compress h block) = 8%nat.
Proof.
  intros H. unfold Sha256.compress. rewrite length_map, length_combine, H. reflexivity.
Qed.

Lemma sha256_length msg : List.length (Sha256.sha256 msg) = 32%nat.
Proof.
  unfold Sha256.sha256.
  assert (H : forall blocks h, List.length h = 8%nat ->
                List.length (fold_left Sha256.compress blocks h) = 8%nat).
  { induction blocks as [|b blocks IH]; intros h Hh; simpl; [exact Hh|].
    apply IH. now apply compress_length. }
  specialize (H (Sha256.chunks (List.length (Sha256.pad msg)) 64 (Sha256.pad msg))
                Sha256.initial_hash eq_refl).
  destruct (fold_left Sha256.compress _ Sha256.initial_hash)
    as [|a [|b [|c [|d [|e [|f [|g [|h [|]]]]]]]]]; try discriminate.
  reflexivity.
Qed.

Lemma hmac_digest_length key msg : List.length (Hmac.digest key msg) = 32%nat.
Proof. apply sha256_length. Qed.

Lemma b64encode_length_32 b :
  List.length b = 32%nat -> List.length (Base64.b64encode b) = 44%nat.
Proof.
  intros H. unfold Base64.b64encode. rewrite H.
  do 33 (destruct b as [|? b]; try discriminate). reflexivity.
Qed.

Lemma decode_length b : String.length (Str.decode b) = List.length b.
Proof. induction b as [|x b IH]; simpl; congruence. Qed.

Lemma sign_length key payload : String.length (sign key payload) = 44%nat.
Proof.
  unfold sign. rewrite decode_length. apply b64encode_length_32, hmac_digest_length.
Qed.

Lemma string_length_app a b :
  String.length (a ++ b)%string = (String.length a + String.length b)%nat.
Proof. induction a as [|c a IH]; simpl; congruence. Qed.

Lemma digits_length n z : String.length (digits n z) = n.
Proof.
  revert z. induction n as [|n IH]; intros z; simpl; [reflexivity|].
  rewrite string_length_app, IH. simpl. lia.
Qed.

Lemma strftime_length t : String.length (strftime t) = 19%nat.
Proof.
  unfold strftime. rewrite !string_length_app, !digits_length. reflexivity.
Qed.

Lemma strftime_second_precision t t' :
  year t = year t' -> month t = month t' -> day t = day t' ->
  hour t = hour t' -> minute t = minute t' -> second t = second t' ->
  strftime t = strftime t'.
Proof. unfold strftime. now intros -> -> -> -> -> ->. Qed.

Lemma code_chr x : 0 <= x < 256 -> Str.code (Str.chr x) = x.
Proof.
  intros H. unfold Str.code, Str.chr. rewrite N_ascii_embedding by lia. lia.
Qed.

Lemma digit_char z :
  Urllib.is_digit (Str.chr (48 + z mod 10)) = true
  /\ Str.code (Str.chr (48 + z mod 10)) - 48 = z mod 10.
Proof.
  pose proof (Z.mod_pos_bound z 10 ltac:(lia)) as H.
  split; [|rewrite code_chr by lia; lia].
  assert (Hc : z mod 10 = 0 \/ z mod 10 = 1 \/ z mod 10 = 2 \/ z mod 10 = 3
               \/ z mod 10 = 4 \/ z mod 10 = 5 \/ z mod 10 = 6 \/ z mod 10 = 7
               \/ z mod 10 = 8 \/ z mod 10 = 9) by lia.
  repeat (destruct Hc as [->|Hc]; [reflexivity|]). now rewrite Hc.
Qed.

Lemma two_digits z : 0 <= z <= 99 -> 10 * (10 * 0 + z / 10 mod 10) + z mod 10 = z.
Proof.
  intros H.
  rewrite (Z.mod_small (z / 10));
    [|split; [apply Z.div_pos; lia|apply Z.div_lt_upper_bound; lia]].
  pose proof (Z.div_mod z 10). lia.
Qed.

Lemma four_digits z :
  0 <= z <= 9999 ->
  10 * (10 * (10 * (10 * 0 + z / 10 / 10 / 10 mod 10) + z / 10 / 10 mod 10)
        + z / 10 mod 10) + z mod 10 = z.
Proof.
  intros H.
  pose proof (Z.div_mod z 10). pose proof (Z.div_mod (z / 10) 10).
  pose proof (Z.div_mod (z / 10 / 10) 10).
  assert (0 <= z / 10 / 10 / 10 < 10).
  { split; [repeat apply Z.div_pos; lia|].
    repeat (apply Z.div_lt_upper_bound; [lia|]). lia. }
  rewrite (Z.mod_small (z / 10 / 10 / 10)) by lia. lia.
Qed.

(** What [strftime] writes reads back as the date and time, to the
    second. *)
Lemma read_strftime t :
  0 <= year t <= 9999 -> 0 <= month t <= 99 -> 0 <= day t <= 99 ->
  0 <= hour t <= 99 -> 0 <= minute t <= 99 -> 0 <= second t <= 99 ->
  read_timestamp (strftime t)
  = Some {| year := year t; month := month t; day := day t; hour := hour t;
            minute := minute t; second := second t; microsecond := 0 |}.
Proof.
  intros Hy Hmo Hd Hh Hmi Hs.
  unfold read_timestamp, strftime. cbn [digits String.append].
  cbn [substring String.length Nat.eqb String.eqb Ascii.eqb Bool.eqb andb forallb
       Urllib.all_chars].
  rewrite !(proj1 (digit_char _)). cbn [andb].
  unfold decimal. cbn [list_ascii_of_string fold_left].
  rewrite !(proj2 (digit_char _)).
  rewrite four_digits by assumption.
  rewrite !two_digits by assumption. reflexivity.
Qed.

(** ** The signature *)

Lemma signing_target_absolute self uri h :
  is_absolute uri = true ->
  Urllib.hostname uri = Ok (Some h) ->
  signing_target self uri =
    Ok (Str.lower h,
        ("/" ++ Str.join "/" (Str.slice_from 3 (Str.split "/" uri)))%string).
Proof. intros Habs Hh. unfold signing_target. now rewrite Habs, Hh. Qed.

Lemma signing_target_relative self uri h :
  is_absolute uri = false ->
  Urllib.hostname (_host self) = Ok (Some h) ->
  signing_target self uri = Ok (Str.lower h, uri).
Proof. intros Habs Hh. unfold signing_target. now rewrite Habs, Hh. Qed.

Lemma upper_idem_payload method host_url path params :
  Str.upper method = method ->
  spec_payload method host_url path params = payload_of method host_url path params.
Proof. intros H. unfold spec_payload, payload_of, newline. now rewrite H. Qed.

(** C1 (amended).  Whenever the URL that names the host (the request path
    when it is absolute, the configured host otherwise) has a host name and
    the secret key is configured, [generate_signature] returns the base64
    text (44 characters) of the HMAC-SHA256 digest, keyed by the UTF-8 bytes
    of the secret key, of the UTF-8 bytes of four newline-separated fields:
    the method as the caller passed it, the lower-cased host name, the path
    and the form-encoded sorted query.  The method is not upper-cased by the
    code; the payload is the one with the upper-cased method when the caller
    passes the method upper-cased. *)
Theorem generate_signature_payload self method params request_path h secret :
  Urllib.hostname (if is_absolute request_path then request_path else _host self)
    = Ok (Some h) ->
  _secret_key self = Some secret ->
  let host_url := Str.lower h in
  let path :=
    if is_absolute request_path
    then ("/" ++ Str.join "/" (Str.slice_from 3 (Str.split "/" request_path)))%string
    else request_path in
  let payload :=
    (method ++ newline ++ host_url ++ newline ++ path ++ newline
     ++ Urllib.urlencode (sorted_items params))%string in
  let signature :=
    Str.decode (Base64.b64encode
                  (Hmac.digest (Str.encode secret) (Str.encode payload))) in
  generate_signature self method params request_path = Ok signature
  /\ String.length signature = 44%nat
  /\ (Str.upper method = method ->
      payload = spec_payload method host_url path params).
Proof.
  intros Hh Hs host_url path payload signature.
  assert (Ht : signing_target self request_path = Ok (host_url, path)).
  { unfold path. destruct (is_absolute request_path) eqn:Habs.
    - now apply signing_target_absolute.
    - now apply signing_target_relative. }
  repeat split.
  - unfold generate_signature. rewrite Ht, Hs. reflexivity.
  - apply sign_length.
  - intros Hu. rewrite (upper_idem_payload _ _ _ _ Hu). reflexivity.
Qed.

Lemma generate_signature_payload_witness :
  generate_signature hb "GET" [("symbol", VStr "btcusdt")] "/market/depth" =
    Ok (Str.decode (Base64.b64encode (Hmac.digest (Str.encode "sk")
          (Str.encode (spec_payload "GET" "api.huobi.pro" "/market/depth"
                         [("symbol", VStr "btcusdt")]))))).
Proof.
  pose proof (generate_signature_payload hb "GET" [("symbol", VStr "btcusdt")]
                "/market/depth" "api.huobi.pro" "sk" eq_refl eq_refl) as H.
  cbv zeta in H. destruct H as [H1 [_ H3]].
  rewrite (H3 eq_refl) in H1. exact H1.
Defined.

(** C1 (counterexample).  For the method [get] the code signs a payload that
    starts with [get], not with [GET]: its signature is not the one of the
    payload with the method upper-cased. *)
Lemma generate_signature_keeps_method_case :
  generate_signature hb "get" [] "/v1/x" <>
  Ok (Str.decode (Base64.b64encode (Hmac.digest (Str.encode "sk")
        (Str.encode (spec_payload "get" "api.huobi.pro" "/v1/x" []))))).
Proof. vm_compute. discriminate. Qed.

(** C3 (counterexample).  A [Signature] entry in the mapping is signed like
    any other entry: with it and without it the signatures differ. *)
Lemma generate_signature_signs_signature_entry :
  generate_signature hb "GET" [("Signature", VStr "x")] "/v1/x" <>
  generate_signature hb "GET" (dict_remove "Signature" [("Signature", VStr "x")]) "/v1/x".
Proof. vm_compute. discriminate. Qed.

(** C7.  [sorted] puts the entries in ascending key order and only rearranges
    them, so two mappings with the same entries in different insertion orders
    sort to the same list and get the same signature. *)
Theorem generate_signature_order_free self method d1 d2 request_path :
  NoDup (keys d1) ->
  Permutation d1 d2 ->
  StronglySorted key_le (sorted_items d1)
  /\ Permutation (sorted_items d1) d1
  /\ sorted_items d1 = sorted_items d2
  /\ generate_signature self method d1 request_path
     = generate_signature self method d2 request_path.
Proof.
  intros N P. pose proof (sorted_items_order_free _ _ N P) as E.
  repeat split.
  - apply sorted_items_sorted.
  - apply sorted_items_perm.
  - exact E.
  - unfold generate_signature, payload_of. now rewrite E.
Qed.

Lemma generate_signature_order_free_witness :
  StronglySorted key_le
    (sorted_items [("symbol", VStr "btcusdt"); ("AccessKeyId", VStr "ak")])
  /\ Permutation
       (sorted_items [("symbol", VStr "btcusdt"); ("AccessKeyId", VStr "ak")])
       [("symbol", VStr "btcusdt"); ("AccessKeyId", VStr "ak")]
  /\ sorted_items [("symbol", VStr "btcusdt"); ("AccessKeyId", VStr "ak")]
     = sorted_items [("AccessKeyId", VStr "ak"); ("symbol", VStr "btcusdt")]
  /\ generate_signature hb "GET"
       [("symbol", VStr "btcusdt"); ("AccessKeyId", VStr "ak")] "/v1/x"
     = generate_signature hb "GET"
       [("AccessKeyId", VStr "ak"); ("symbol", VStr "btcusdt")] "/v1/x".
Proof.
  apply (generate_signature_order_free hb "GET"
           [("symbol", VStr "btcusdt"); ("AccessKeyId", VStr "ak")]
           [("AccessKeyId", VStr "ak"); ("symbol", VStr "btcusdt")] "/v1/x").
  - repeat constructor; simpl; rewrite ?list_elem_of_In; simpl;
      intuition discriminate.
  - apply perm_swap.
Defined.

(** ** Heap and monad steps *)

Lemma bind_ok {A B} (m : M A) (k : A -> M B) st a st' :
  m st = (Ok a, st') -> bind m k st = k a st'.
Proof. intros H. unfold bind. now rewrite H. Qed.

Lemma bind_raise {A B} (m : M A) (k : A -> M B) st e st' :
  m st = (Raise e, st') -> bind m k st = (Raise e, st').
Proof. intros H. unfold bind. now rewrite H. Qed.

(** One step of a run: the first computation of a [bind] returns. *)
Tactic Notation "step" uconstr(H) := rewrite (bind_ok _ _ _ _ _ H).

Lemma load_run l st d : heap st !! l = Some d -> load l st = (Ok d, st).
Proof. intros H. unfold load. now rewrite H. Qed.

Lemma modify_run l f st d :
  heap st !! l = Some d ->
  modify l f st = (Ok tt, {| heap := <[l := f d]> (heap st); calls := calls st |}).
Proof. intros H. unfold modify. now rewrite H. Qed.

Lemma chosen_lookup x st :
  valid_ref x st -> heap (grown x st) !! chosen x st = Some (dict_at x st).
Proof.
  unfold chosen, grown, valid_ref, dict_at. destruct x as [l|].
  - intros [d Hd]. rewrite Hd. destruct d; cbn [from_option id heap].
    + rewrite lookup_app_r by lia. now rewrite Nat.sub_diag.
    + exact Hd.
  - intros _. cbn [heap]. rewrite lookup_app_r by lia. now rewrite Nat.sub_diag.
Qed.

Lemma or_fresh_run x st :
  valid_ref x st -> or_fresh x st = (Ok (chosen x st), grown x st).
Proof.
  unfold or_fresh, chosen, grown, valid_ref, dict_at. destruct x as [l|].
  - intros [d Hd]. rewrite (bind_ok _ _ _ _ _ (load_run _ _ _ Hd)).
    rewrite Hd. destruct d; reflexivity.
  - intros _. reflexivity.
Qed.

Lemma grown_calls x st : calls (grown x st) = calls st.
Proof. unfold grown. now destruct (dict_at x st). Qed.

Lemma grown_keeps x st l d :
  heap st !! l = Some d -> heap (grown x st) !! l = Some d.
Proof.
  intros H. unfold grown. destruct (dict_at x st); simpl; [|exact H].
  now apply lookup_app_l_Some.
Qed.

(** ** The [if auth:] block *)

Lemma authenticate_run E self method uri params st :
  valid_ref params st ->
  let lp := chosen params st in
  let pre := dict_update (dict_at params st) (auth_fields E self) in
  authenticate E self method uri params st =
    match generate_signature self method pre uri with
    | Ok signature =>
        (Ok (Some lp),
         {| heap := <[lp := dict_set "Signature" (VStr signature) pre]>
                      (heap (grown params st));
            calls := calls st |})
    | Raise e =>
        (Raise e, {| heap := <[lp := pre]> (heap (grown params st)); calls := calls st |})
    end.
Proof.
  intros Hv lp pre. unfold authenticate.
  step (or_fresh_run _ _ Hv).
  pose proof (chosen_lookup _ _ Hv) as Hl. fold lp in Hl |- *.
  step (modify_run _ _ _ _ Hl).
  assert (Hl2 : forall c, heap {| heap := <[lp := pre]> (heap (grown params st));
                                  calls := c |} !! lp = Some pre).
  { intros c. simpl. apply list_lookup_insert_eq. now apply lookup_lt_Some in Hl. }
  step (load_run _ _ _ (Hl2 _)).
  unfold lift at 1. unfold bind at 1. fold pre.
  rewrite grown_calls.
  destruct (generate_signature self method pre uri) as [signature|e]; [|reflexivity].
  step (modify_run _ _ _ _ (Hl2 _)). simpl.
  now rewrite list_insert_insert_eq.
Qed.

(** ** From the headers to the answer *)

Lemma interpret_run E reply st : interpret E reply st = (outcome E reply, st).
Proof.
  unfold interpret, outcome, decode_body. destruct reply as [success error].
  destruct (truthy error); [reflexivity|].
  destruct success as [[| | |s]|l|d|m]; try reflexivity.
  - unfold bind, lift. destruct (json_loads E s) as [[| |d|]|]; try reflexivity.
    simpl. now destruct (status_not_ok d).
  - unfold bind, ret. simpl. now destruct (status_not_ok d).
Qed.

Lemma do_fetch_run E method url params data lh st h :
  valid_ref params st ->
  heap st !! lh = Some h ->
  do_fetch E method url params data lh 10 st =
    let call := {| fc_method := method; fc_url := url;
                   fc_params := match params with
                                | Some l => Some (l, default [] (heap st !! l))
                                | None => None
                                end;
                   fc_data := data; fc_headers := (lh, h); fc_timeout := 10 |} in
    (Ok (fetch E call), {| heap := heap st; calls := calls st ++ [call] |}).
Proof.
  intros Hp Hh. unfold do_fetch. destruct params as [l|].
  - destruct Hp as [d Hd].
    rewrite (bind_ok _ _ _ (Some (l, d)) st).
    + step (load_run _ _ _ Hh). now rewrite Hd.
    + now rewrite (bind_ok _ _ _ _ _ (load_run _ _ _ Hd)).
  - rewrite (bind_ok _ _ _ None st) by reflexivity.
    now rewrite (bind_ok _ _ _ _ _ (load_run _ _ _ Hh)).
Qed.

Lemma valid_ref_insert x st l d c :
  valid_ref x st -> valid_ref x {| heap := <[l := d]> (heap st); calls := c |}.
Proof.
  destruct x as [l'|]; [|trivial]. unfold valid_ref. cbn [heap].
  intros [d' Hd']. destruct (decide (l = l')) as [->|Hne].
  - exists d. apply list_lookup_insert_eq. now apply lookup_lt_Some in Hd'.
  - exists d'. now rewrite list_lookup_insert_ne.
Qed.

Lemma valid_ref_grown x y st : valid_ref x st -> valid_ref x (grown y st).
Proof.
  destruct x as [l|]; [|trivial]. intros [d Hd]. exists d. now apply grown_keeps.
Qed.

Lemma send_run E method url params body headers st :
  valid_ref headers st ->
  valid_ref params st ->
  send E method url params body headers st =
    (outcome E (fetch E (call_of E method url params body headers st)),
     sent E method url params body headers st).
Proof.
  intros Hh Hp.
  unfold send.
  step (or_fresh_run _ _ Hh).
  pose proof (chosen_lookup _ _ Hh) as Hl.
  pose proof (lookup_lt_Some _ _ _ Hl) as Hlt.
  set (lh := chosen headers st) in *. set (g := grown headers st) in *.
  set (h0 := dict_at headers st) in *.
  assert (Hins : forall d c, heap {| heap := <[lh := d]> (heap g); calls := c |} !! lh
                             = Some d).
  { intros d c. cbn [heap]. now apply list_lookup_insert_eq. }
  assert (Hpg : forall d c, valid_ref params {| heap := <[lh := d]> (heap g); calls := c |}).
  { intros d c. apply valid_ref_insert. now apply valid_ref_grown. }
  unfold sent, call_of, headers_for, transport_method, transport_data.
  fold lh g h0. rewrite <- (grown_calls headers st). fold g.
  destruct (String.eqb method "GET").
  - erewrite bind_ok; cycle 1.
    { step (modify_run _ _ _ _ Hl).
      step (modify_run _ _ _ _ (Hins _ _)).
      cbn [heap calls]. rewrite list_insert_insert_eq.
      apply do_fetch_run; [apply Hpg | apply Hins]. }
    cbn [heap calls]. apply interpret_run.
  - erewrite bind_ok; cycle 1.
    { step (modify_run _ _ _ _ Hl).
      step (modify_run _ _ _ _ (Hins _ _)).
      cbn [heap calls]. rewrite list_insert_insert_eq.
      step (modify_run _ _ _ _ (Hins _ _)).
      cbn [heap calls]. rewrite list_insert_insert_eq.
      apply do_fetch_run; [apply Hpg | apply Hins]. }
    cbn [heap calls]. apply interpret_run.
Qed.

(** ** Dictionaries *)

Lemma dict_get_set_eq k v d : dict_get k (dict_set k v d) = Some v.
Proof.
  induction d as [|[k' v'] d IH]; simpl.
  - now rewrite String.eqb_refl.
  - destruct (String.eqb k' k) eqn:E; simpl; now rewrite E.
Qed.

Lemma dict_get_set_ne k k' v d :
  k <> k' -> dict_get k (dict_set k' v d) = dict_get k d.
Proof.
  intros Hne. induction d as [|[k2 v2] d IH]; simpl.
  - destruct (String.eqb_spec k' k); congruence.
  - destruct (String.eqb_spec k2 k'); simpl.
    + subst k2. destruct (String.eqb_spec k' k); congruence.
    + now rewrite IH.
Qed.

Lemma keys_set k k' v d :
  In k (keys (dict_set k' v d)) <-> In k (keys d) \/ k = k'.
Proof.
  induction d as [|[k2 v2] d IH]; simpl.
  - intuition.
  - destruct (String.eqb_spec k2 k'); simpl.
    + subst. intuition.
    + rewrite IH. intuition.
Qed.

Lemma dict_set_fresh k v d :
  ~ In k (keys d) -> dict_set k v d = (d ++ [(k, v)])%list.
Proof.
  induction d as [|[k2 v2] d IH]; simpl; [reflexivity|]. intros H.
  destruct (String.eqb_spec k2 k); [tauto|]. rewrite IH; tauto.
Qed.

Lemma dict_remove_fresh k d : ~ In k (keys d) -> dict_remove k d = d.
Proof.
  unfold dict_remove.
  induction d as [|[k2 v2] d IH]; simpl; [reflexivity|]. intros H.
  destruct (String.eqb_spec k2 k); [tauto|]. simpl. rewrite IH; tauto.
Qed.

Lemma dict_remove_last k v d :
  ~ In k (keys d) -> dict_remove k (d ++ [(k, v)])%list = d.
Proof.
  intros H. unfold dict_remove. rewrite List.filter_app. fold (dict_remove k d).
  rewrite (dict_remove_fresh _ _ H). simpl. rewrite String.eqb_refl. simpl.
  apply app_nil_r.
Qed.

Lemma dict_get_absent k d : ~ In k (keys d) -> dict_get k d = None.
Proof.
  induction d as [|[k2 v2] d IH]; simpl; [reflexivity|]. intros H.
  destruct (String.eqb_spec k2 k); [tauto|]. apply IH. tauto.
Qed.

Lemma keys_auth_fields E self k d :
  In k (keys (dict_update d (auth_fields E self))) <->
  In k (keys d) \/ In k ["AccessKeyId"; "SignatureMethod"; "SignatureVersion"; "Timestamp"].
Proof.
  unfold dict_update, auth_fields. simpl. rewrite !keys_set. intuition.
Qed.

Lemma auth_fields_get E self d :
  let pre := dict_update d (auth_fields E self) in
  dict_get "AccessKeyId" pre = Some (value_of_key (_access_key self))
  /\ dict_get "SignatureMethod" pre = Some (VStr "HmacSHA256")
  /\ dict_get "SignatureVersion" pre = Some (VStr "2")
  /\ dict_get "Timestamp" pre = Some (VStr (strftime (utcnow E))).
Proof.
  unfold dict_update, auth_fields. simpl.
  repeat split;
    repeat first [ apply dict_get_set_eq
                 | rewrite dict_get_set_ne by discriminate ].
Qed.

Lemma headers_for_get E method k d :
  ~ In k ["Accept"; "Content-type"; "User-Agent"] ->
  dict_get k (headers_for E method d) = dict_get k d.
Proof.
  simpl. intros H. unfold headers_for.
  destruct (String.eqb method "GET"); rewrite !dict_get_set_ne; intuition.
Qed.

(** ** [request], stage by stage *)

Lemma request_stages E self method uri params body headers auth :
  request E self method uri params body headers auth =
    bind (lift (resolved_url E self uri))
         (fun url =>
            bind (if auth then authenticate E self method uri params else ret params)
                 (fun p => send E method url p body headers)).
Proof. unfold resolved_url, request. destruct auth, (is_absolute uri); reflexivity. Qed.

(** When [urljoin] raises, [request] stops there: nothing is changed. *)
Lemma request_unresolved E self method uri params body headers auth st e :
  resolved_url E self uri = Raise e ->
  request E self method uri params body headers auth st = (Raise e, st).
Proof. intros H. rewrite request_stages. unfold bind at 1, lift. now rewrite H. Qed.

Lemma request_resolved E self method uri params body headers auth st url :
  resolved_url E self uri = Ok url ->
  request E self method uri params body headers auth st =
    bind (if auth then authenticate E self method uri params else ret params)
         (fun p => send E method url p body headers) st.
Proof. intros H. rewrite request_stages. unfold bind at 1, lift. now rewrite H. Qed.

Lemma request_plain_run E self method uri params body headers st url :
  resolved_url E self uri = Ok url ->
  valid_ref params st ->
  valid_ref headers st ->
  request E self method uri params body headers false st =
    (outcome E (fetch E (call_of E method url params body headers st)),
     sent E method url params body headers st).
Proof.
  intros Hu Hp Hh. rewrite (request_resolved _ _ _ _ _ _ _ _ _ _ Hu).
  rewrite (bind_ok _ _ _ params st) by reflexivity. now apply send_run.
Qed.

(** The state after a successful [if auth:] block. *)
Lemma request_auth_run E self method uri params body headers st url :
  resolved_url E self uri = Ok url ->
  valid_ref params st ->
  valid_ref headers st ->
  let lp := chosen params st in
  let pre := dict_update (dict_at params st) (auth_fields E self) in
  request E self method uri params body headers true st =
    match generate_signature self method pre uri with
    | Ok signature =>
        let st2 := {| heap := <[lp := dict_set "Signature" (VStr signature) pre]>
                                (heap (grown params st));
                      calls := calls st |} in
        (outcome E (fetch E (call_of E method url (Some lp) body headers st2)),
         sent E method url (Some lp) body headers st2)
    | Raise e =>
        (Raise e, {| heap := <[lp := pre]> (heap (grown params st)); calls := calls st |})
    end.
Proof.
  intros Hu Hp Hh lp pre. rewrite (request_resolved _ _ _ _ _ _ _ _ _ _ Hu).
  pose proof (authenticate_run E self method uri params st Hp) as Ha.
  cbv zeta in Ha. fold lp pre in Ha.
  destruct (generate_signature self method pre uri) as [signature|e].
  - step Ha. apply send_run.
    + apply valid_ref_insert. now apply valid_ref_grown.
    + pose proof (chosen_lookup _ _ Hp) as Hl. fold lp in Hl.
      eexists. cbn [heap]. apply list_lookup_insert_eq. now apply lookup_lt_Some in Hl.
  - now rewrite (bind_raise _ _ _ _ _ Ha).
Qed.

(** Separate objects: the headers object is never the mapping that
    authentication works on. *)
Lemma headers_apart params headers st d c :
  valid_ref params st ->
  valid_ref headers st ->
  (forall l, params = Some l -> headers <> Some l) ->
  chosen headers {| heap := <[chosen params st := d]> (heap (grown params st)); calls := c |}
  <> chosen params st.
Proof.
  intros Hp Hh Hsep.
  pose proof (chosen_lookup _ _ Hp) as Hl. apply lookup_lt_Some in Hl.
  set (lp := chosen params st) in *.
  unfold chosen at 1. cbn [heap].
  destruct headers as [l|]; cbn [dict_at heap].
  - destruct (default [] (<[lp:=d]> (heap (grown params st)) !! l)) eqn:Hd.
    + rewrite length_insert. lia.
    + intros ->. destruct Hh as [dh Hdh]. apply lookup_lt_Some in Hdh.
      unfold lp, chosen in *. destruct params as [l'|]; cbn [dict_at] in *.
      * destruct (default [] (heap st !! l')) eqn:Hd'; [lia|].
        now apply (Hsep l').
      * lia.
  - rewrite length_insert. lia.
Qed.

Lemma params_sent E method url lp final body headers g c :
  (lp < List.length g)%nat ->
  chosen headers {| heap := <[lp := final]> g; calls := c |} <> lp ->
  fc_params (call_of E method url (Some lp) body headers
               {| heap := <[lp := final]> g; calls := c |})
  = Some (lp, final).
Proof.
  intros Hlt Hne. unfold call_of. cbn [fc_params]. f_equal. f_equal.
  rewrite list_lookup_insert_ne by exact Hne.
  erewrite grown_keeps; [reflexivity|]. cbn [heap].
  now apply list_lookup_insert_eq.
Qed.

(** ** What [request] does *)

Lemma generate_signature_needs_secret self method params uri :
  _secret_key self = None ->
  exists e, generate_signature self method params uri = Raise e.
Proof.
  intros Hs. unfold generate_signature.
  destruct (signing_target self uri) as [[host_url path]|e]; simpl.
  - rewrite Hs. now exists AttributeError.
  - now exists e.
Qed.

Lemma calls_not_grown {A} (l : list A) x : l <> l ++ [x].
Proof.
  intros H. apply (f_equal (@List.length A)) in H.
  rewrite length_app in H. simpl in H. lia.
Qed.

Lemma status_ok_iff d :
  status_not_ok d = false <-> pdict_get "status" d = Some (PScalar (VStr "ok")).
Proof.
  unfold status_not_ok.
  destruct (pdict_get "status" d) as [[[| | |s]| | |]|]; try (split; congruence).
  rewrite negb_false_iff. split.
  - intros H. apply String.eqb_eq in H. now subst.
  - intros H. injection H as ->. reflexivity.
Qed.

Lemma outcome_cases E success error :
  (truthy error = true -> outcome E (success, error) = Ok (PNone, error))
  /\ (truthy error = false ->
      forall d, decode_body E success = Ok (PDict d) ->
        (pdict_get "status" d = Some (PScalar (VStr "ok")) ->
         outcome E (success, error) = Ok (PDict d, PNone))
        /\ (pdict_get "status" d <> Some (PScalar (VStr "ok")) ->
            outcome E (success, error) = Ok (PNone, PDict d))).
Proof.
  unfold outcome. split; intros Ht; rewrite Ht; [reflexivity|].
  intros d Hd. rewrite Hd. simpl. rewrite <- status_ok_iff.
  destruct (status_not_ok d); split; congruence.
Qed.

Lemma outcome_exclusive E reply r e :
  outcome E reply = Ok (r, e) ->
  (r = PNone /\ e <> PNone) \/ (r <> PNone /\ e = PNone).
Proof.
  unfold outcome. destruct reply as [success error].
  destruct (truthy error) eqn:Ht.
  - intros H. injection H as <- <-. left. split; [reflexivity|].
    intros ->. discriminate.
  - destruct (decode_body E success) as [[v|l|d|m]|x]; simpl; try discriminate.
    destruct (status_not_ok d); intros H; injection H as <- <-;
      [left|right]; split; (reflexivity || discriminate).
Qed.

Lemma headers_for_entries E method d :
  dict_get "User-Agent" (headers_for E method d) = Some (VStr (USER_AGENT E))
  /\ (method = "GET" ->
      dict_get "Content-type" (headers_for E method d)
      = Some (VStr "application/x-www-form-urlencoded"))
  /\ (method <> "GET" ->
      dict_get "Content-type" (headers_for E method d) = Some (VStr "application/json")
      /\ dict_get "Accept" (headers_for E method d) = Some (VStr "application/json")).
Proof.
  unfold headers_for. destruct (String.eqb_spec method "GET") as [->|Hne].
  - repeat split; intros; try congruence;
      repeat first [ apply dict_get_set_eq | rewrite dict_get_set_ne by discriminate ].
  - repeat split; intros; try congruence;
      repeat first [ apply dict_get_set_eq | rewrite dict_get_set_ne by discriminate ].
Qed.

(** What [send] leaves at a location [l]: the dictionary that was there,
    unless [l] is the headers object. *)
Lemma sent_lookup E method url p body headers st l d :
  heap st !! l = Some d ->
  exists d', heap (sent E method url p body headers st) !! l = Some d'
    /\ (d' = d \/ (d <> [] /\ headers = Some l /\ d' = headers_for E method d)).
Proof.
  intros Hl. pose proof (lookup_lt_Some _ _ _ Hl) as Hlt.
  unfold sent. cbn [heap].
  destruct (decide (chosen headers st = l)) as [He|Hne].
  - assert (Hk : headers = Some l /\ d <> []).
    { unfold chosen in He. destruct headers as [l'|]; cbn [dict_at] in He.
      - destruct (default [] (heap st !! l')) eqn:Hd; [lia|]. subst l'.
        rewrite Hl in Hd. simpl in Hd. subst d. split; [reflexivity|discriminate].
      - lia. }
    destruct Hk as [-> Hd]. rewrite He.
    exists (headers_for E method (dict_at (Some l) st)). split.
    + apply list_lookup_insert_eq. unfold grown. cbn [dict_at]. rewrite Hl.
      destruct d; [congruence|exact Hlt].
    + right. cbn [dict_at]. rewrite Hl. now repeat split.
  - exists d. split; [|now left].
    rewrite list_lookup_insert_ne by exact Hne. now apply grown_keeps.
Qed.

Lemma auth_keys_final E self d signature k :
  In k auth_keys ->
  is_Some (dict_get k (dict_set "Signature" (VStr signature)
                         (dict_update d (auth_fields E self)))).
Proof.
  intros Hk. destruct (String.eqb_spec k "Signature") as [->|Hne].
  - rewrite dict_get_set_eq. eauto.
  - rewrite dict_get_set_ne by exact Hne.
    destruct (auth_fields_get E self d) as [H1 [H2 [H3 H4]]].
    unfold auth_keys in Hk. simpl in Hk.
    destruct Hk as [<-|[<-|[<-|[<-|[<-|[]]]]]]; eauto. congruence.
Qed.

Lemma auth_keys_not_headers k :
  In k auth_keys -> ~ In k ["Accept"; "Content-type"; "User-Agent"].
Proof.
  unfold auth_keys. simpl. intros [<-|[<-|[<-|[<-|[<-|[]]]]]]; intuition discriminate.
Qed.

Section Request.

Variables (E : Env) (self : HuobiSpotRestAPI).
Variables (method uri : string) (params : option loc) (body : pyval).
Variables (headers : option loc) (st : state).

Hypothesis params_valid : valid_ref params st.
Hypothesis headers_valid : valid_ref headers st.

(** No call is recorded when the URL cannot be made. *)
Lemma request_unresolved_calls auth e call :
  resolved_url E self uri = Raise e ->
  calls (snd (request E self method uri params body headers auth st))
    <> calls st ++ [call].
Proof using Type.
  intros Hu. rewrite (request_unresolved _ _ _ _ _ _ _ _ _ _ Hu). apply calls_not_grown.
Qed.

(** The one call of an authenticated [request] goes to the resolved URL and
    carries the signed mapping; there is no call when signing raises. *)
Lemma request_auth_sent url :
  resolved_url E self uri = Ok url ->
  (forall l, params = Some l -> headers <> Some l) ->
  let pre := dict_update (dict_at params st) (auth_fields E self) in
  let run := request E self method uri params body headers true st in
  match generate_signature self method pre uri with
  | Ok signature =>
      exists call, calls (snd run) = calls st ++ [call]
                   /\ fc_url call = url
                   /\ fc_params call
                      = Some (chosen params st, dict_set "Signature" (VStr signature) pre)
  | Raise e => fst run = Raise e /\ calls (snd run) = calls st
  end.
Proof using params_valid headers_valid.
  intros Hu Hsep pre run.
  pose proof (request_auth_run E self method uri params body headers st url Hu
                params_valid headers_valid) as Hrun.
  cbv zeta in Hrun. fold pre run in Hrun.
  destruct (generate_signature self method pre uri) as [signature|e].
  - eexists. rewrite Hrun. cbn [snd sent calls]. split; [reflexivity|].
    split; [reflexivity|].
    pose proof (chosen_lookup _ _ params_valid) as Hl. apply lookup_lt_Some in Hl.
    apply params_sent; [exact Hl|]. now apply headers_apart.
  - now rewrite Hrun.
Qed.

(** C2.  With [auth=True] and the headers held in another object than the
    mapping.  The four fields are [AccessKeyId] (the access key),
    [SignatureMethod] ([HmacSHA256]), [SignatureVersion] ([2]) and
    [Timestamp], the clock read through [strftime]: 19 characters of the
    form [YYYY-MM-DDTHH:MM:SS] that read back as the year, month, day, hour,
    minute and second of the clock, with nothing finer and no zone.  When
    the URL cannot be made ([urljoin] raises) [request] raises there and
    changes nothing.  Otherwise the caller's entries are updated with the
    four fields and the signature is computed on that mapping; when signing
    returns, [Signature] is set last (it stands last unless the caller's
    mapping already had one), the keys of the mapping are the caller's and
    these five, and that mapping is given to the transport in the one call,
    made to the resolved URL; when signing raises there is no transport
    call. *)
Theorem request_auth_fields :
  (forall l, params = Some l -> headers <> Some l) ->
  let d0 := dict_at params st in
  let pre := dict_update d0 (auth_fields E self) in
  let run := request E self method uri params body headers true st in
  (dict_get "AccessKeyId" pre = Some (value_of_key (_access_key self))
   /\ dict_get "SignatureMethod" pre = Some (VStr "HmacSHA256")
   /\ dict_get "SignatureVersion" pre = Some (VStr "2")
   /\ dict_get "Timestamp" pre = Some (VStr (strftime (utcnow E)))
   /\ String.length (strftime (utcnow E)) = 19%nat
   /\ strftime (utcnow E)
      = strftime {| year := year (utcnow E); month := month (utcnow E);
                    day := day (utcnow E); hour := hour (utcnow E);
                    minute := minute (utcnow E); second := second (utcnow E);
                    microsecond := 0 |}
   /\ (valid_datetime (utcnow E) ->
       read_timestamp (strftime (utcnow E))
       = Some {| year := year (utcnow E); month := month (utcnow E);
                 day := day (utcnow E); hour := hour (utcnow E);
                 minute := minute (utcnow E); second := second (utcnow E);
                 microsecond := 0 |}))
  /\ match resolved_url E self uri with
     | Raise e => run = (Raise e, st)
     | Ok url =>
         match generate_signature self method pre uri with
         | Ok signature =>
             let final := dict_set "Signature" (VStr signature) pre in
             (exists call, calls (snd run) = calls st ++ [call]
                           /\ fc_url call = url
                           /\ fc_params call = Some (chosen params st, final))
             /\ (forall k, In k (keys final) <-> In k (keys d0) \/ In k auth_keys)
             /\ (forall k, k <> "Signature" -> dict_get k final = dict_get k pre)
             /\ dict_get "Signature" final = Some (VStr signature)
             /\ (~ In "Signature" (keys d0) ->
                 final = (pre ++ [("Signature", VStr signature)])%list)
         | Raise e => fst run = Raise e /\ calls (snd run) = calls st
         end
     end.
Proof using params_valid headers_valid.
  intros Hsep d0 pre run. split.
  { destruct (auth_fields_get E self d0) as [H1 [H2 [H3 H4]]].
    split; [exact H1|]. split; [exact H2|]. split; [exact H3|]. split; [exact H4|].
    split; [apply strftime_length|]. split; [now apply strftime_second_precision|].
    intros [Hy [Hmo [Hd [Hh [Hmi Hs]]]]]. apply read_strftime; lia. }
  destruct (resolved_url E self uri) as [url|e] eqn:Hu;
    [|now apply request_unresolved].
  pose proof (request_auth_sent url Hu Hsep) as Hsent.
  cbv zeta in Hsent. fold d0 pre run in Hsent.
  destruct (generate_signature self method pre uri) as [signature|e]; [|exact Hsent].
  intros final. fold final in Hsent. split; [exact Hsent|]. split; [|split; [|split]].
  - intros k. unfold final. rewrite keys_set. unfold pre. rewrite keys_auth_fields.
    unfold auth_keys. simpl. intuition.
  - intros k Hk. unfold final. now apply dict_get_set_ne.
  - apply dict_get_set_eq.
  - intros Hno. apply dict_set_fresh. unfold pre. rewrite keys_auth_fields.
    simpl. intuition discriminate.
Qed.

(** C3 (amended).  [generate_signature] signs every entry it is given.
    Inside [request] the entry [Signature] is added only after signing: when
    the caller's mapping holds no [Signature] (and the headers are another
    object), the mapping that is signed has none, and taking [Signature] out
    of the mapping that is sent and signing again gives the signature that
    was sent. *)
Theorem request_signature_covers_the_rest :
  (forall l, params = Some l -> headers <> Some l) ->
  ~ In "Signature" (keys (dict_at params st)) ->
  let pre := dict_update (dict_at params st) (auth_fields E self) in
  let run := request E self method uri params body headers true st in
  dict_get "Signature" pre = None
  /\ forall call l final,
       calls (snd run) = calls st ++ [call] ->
       fc_params call = Some (l, final) ->
       exists signature,
         dict_get "Signature" final = Some (VStr signature)
         /\ dict_remove "Signature" final = pre
         /\ generate_signature self method (dict_remove "Signature" final) uri
            = Ok signature.
Proof using params_valid headers_valid.
  intros Hsep Hno pre run.
  assert (Hpre : ~ In "Signature" (keys pre)).
  { unfold pre. rewrite keys_auth_fields. simpl. intuition discriminate. }
  split; [now apply dict_get_absent|].
  intros call l final Hcalls Hparams.
  destruct (resolved_url E self uri) as [url|e] eqn:Hu;
    [|now apply (request_unresolved_calls true e call Hu) in Hcalls].
  pose proof (request_auth_sent url Hu Hsep) as H. cbv zeta in H. fold pre run in H.
  destruct (generate_signature self method pre uri) as [signature|e] eqn:Hsig.
  - destruct H as [call' [Hc [_ Hp]]].
    rewrite Hc in Hcalls. apply app_inj_tail in Hcalls as [_ <-].
    rewrite Hp in Hparams. injection Hparams as <- <-.
    exists signature. rewrite (dict_set_fresh _ _ _ Hpre).
    rewrite (dict_remove_last _ _ _ Hpre). repeat split; [|exact Hsig].
    rewrite <- (dict_set_fresh _ _ _ Hpre). apply dict_get_set_eq.
  - destruct H as [_ Hc]. rewrite Hc in Hcalls. now apply calls_not_grown in Hcalls.
Qed.

(** C9 (amended).  With [auth=True] and no secret key, [request] raises
    before any transport call; it does not return an error value.  An
    absent access key is not looked at: whenever the call is made, it
    carries [AccessKeyId] with the value [None]. *)
Theorem request_without_secret_key :
  let run := request E self method uri params body headers true st in
  (_secret_key self = None ->
   (exists e, fst run = Raise e) /\ calls (snd run) = calls st)
  /\ (_access_key self = None ->
      (forall l, params = Some l -> headers <> Some l) ->
      forall call l m,
        calls (snd run) = calls st ++ [call] ->
        fc_params call = Some (l, m) ->
        dict_get "AccessKeyId" m = Some VNone).
Proof using params_valid headers_valid.
  intros run. split.
  - intros Hs. unfold run.
    destruct (resolved_url E self uri) as [url|e] eqn:Hu;
      [|rewrite (request_unresolved _ _ _ _ _ _ _ _ _ _ Hu); simpl; eauto].
    rewrite (request_resolved _ _ _ _ _ _ _ _ _ _ Hu).
    pose proof (authenticate_run E self method uri params st params_valid) as Ha.
    cbv zeta in Ha.
    destruct (generate_signature_needs_secret self method
                (dict_update (dict_at params st) (auth_fields E self)) uri Hs) as [e He].
    rewrite He in Ha. rewrite (bind_raise _ _ _ _ _ Ha). simpl. eauto.
  - intros Ha Hsep call l m Hcalls Hparams.
    destruct (resolved_url E self uri) as [url|e] eqn:Hu;
      [|now apply (request_unresolved_calls true e call Hu) in Hcalls].
    pose proof (request_auth_sent url Hu Hsep) as H. cbv zeta in H. fold run in H.
    destruct (generate_signature self method _ uri) as [signature|e].
    + destruct H as [call' [Hc [_ Hp]]].
      rewrite Hc in Hcalls. apply app_inj_tail in Hcalls as [_ <-].
      rewrite Hp in Hparams. injection Hparams as <- <-.
      rewrite dict_get_set_ne by discriminate.
      replace (Some VNone) with (Some (value_of_key (_access_key self)))
        by now rewrite Ha.
      exact (proj1 (auth_fields_get E self (dict_at params st))).
    + destruct H as [_ Hc]. rewrite Hc in Hcalls. now apply calls_not_grown in Hcalls.
Qed.

(** Either [request] raises before any transport call, where it makes the
    URL or while it authenticates, or it makes exactly one call, to the
    resolved URL, and answers from the reply. *)
Lemma request_shape auth :
  let run := request E self method uri params body headers auth st in
  (exists e, fst run = Raise e /\ calls (snd run) = calls st
             /\ (resolved_url E self uri = Raise e \/ auth = true))
  \/ (exists call,
        calls (snd run) = calls st ++ [call]
        /\ fst run = outcome E (fetch E call)
        /\ fc_method call = transport_method method
        /\ resolved_url E self uri = Ok (fc_url call)
        /\ fc_data call = transport_data method body
        /\ (exists d, snd (fc_headers call) = headers_for E method d)
        /\ fc_timeout call = 10).
Proof using params_valid headers_valid.
  intros run. unfold run.
  destruct (resolved_url E self uri) as [url|e] eqn:Hu;
    [|left; rewrite (request_unresolved _ _ _ _ _ _ _ _ _ _ Hu); simpl; eauto].
  destruct auth.
  - pose proof (request_auth_run E self method uri params body headers st url Hu
                  params_valid headers_valid) as Hrun.
    cbv zeta in Hrun.
    destruct (generate_signature self method _ uri) as [signature|e].
    + right. rewrite Hrun. eexists. cbn [fst snd sent calls].
      repeat split; try reflexivity. eexists. reflexivity.
    + left. rewrite Hrun. eauto.
  - right. rewrite (request_plain_run E self method uri params body headers st url Hu
                      params_valid headers_valid).
    eexists. cbn [fst snd sent calls]. repeat split; try reflexivity.
    eexists. reflexivity.
Qed.

(** The call is made exactly when the URL can be made and, with
    [auth=True], signing returns. *)
Lemma request_calls auth url :
  resolved_url E self uri = Ok url ->
  (auth = true ->
   exists signature,
     generate_signature self method
       (dict_update (dict_at params st) (auth_fields E self)) uri = Ok signature) ->
  let run := request E self method uri params body headers auth st in
  exists call,
    calls (snd run) = calls st ++ [call]
    /\ fc_url call = url
    /\ fst run = outcome E (fetch E call).
Proof using params_valid headers_valid.
  intros Hu Hsig run. unfold run. destruct auth.
  - pose proof (request_auth_run E self method uri params body headers st url Hu
                  params_valid headers_valid) as Hrun.
    cbv zeta in Hrun. destruct (Hsig eq_refl) as [signature Hs]. rewrite Hs in Hrun.
    rewrite Hrun. eexists. cbn [fst snd sent calls]. repeat split; reflexivity.
  - rewrite (request_plain_run E self method uri params body headers st url Hu
               params_valid headers_valid).
    eexists. cbn [fst snd sent calls]. repeat split; reflexivity.
Qed.

(** C4 (amended).  When the URL can be made and, with [auth=True], signing
    returns, [request] makes the call, and what it does next is fixed by the
    reply.  A truthy [error] is returned with a [None] result.  Otherwise
    the body is decoded: a dictionary is taken as it is, text goes through
    [json.loads], anything else raises [TypeError].  When decoding gives a
    dictionary, that envelope is returned as the result if its [status] is
    the string [ok], and as the error if it is anything else or absent.
    When decoding raises, [request] raises the same; when it gives
    something else than a dictionary, [request] raises [AttributeError].
    Whatever pair [request] returns, it comes after a call and exactly one
    of result and error is [None]. *)
Theorem request_outcome auth :
  let run := request E self method uri params body headers auth st in
  let pre := dict_update (dict_at params st) (auth_fields E self) in
  (forall url,
     resolved_url E self uri = Ok url ->
     (auth = true ->
      exists signature, generate_signature self method pre uri = Ok signature) ->
     exists call,
       calls (snd run) = calls st ++ [call]
       /\ fc_url call = url
       /\ let success := fst (fetch E call) in
          let error := snd (fetch E call) in
          (truthy error = true -> fst run = Ok (PNone, error))
          /\ (truthy error = false ->
              match decode_body E success with
              | Ok (PDict d) =>
                  (pdict_get "status" d = Some (PScalar (VStr "ok")) ->
                   fst run = Ok (PDict d, PNone))
                  /\ (pdict_get "status" d <> Some (PScalar (VStr "ok")) ->
                      fst run = Ok (PNone, PDict d))
              | Ok _ => fst run = Raise AttributeError
              | Raise e => fst run = Raise e
              end))
  /\ (forall r e, fst run = Ok (r, e) ->
        (exists call, calls (snd run) = calls st ++ [call])
        /\ ((r = PNone /\ e <> PNone) \/ (r <> PNone /\ e = PNone))).
Proof using params_valid headers_valid.
  intros run pre. split.
  - intros url Hu Hsig.
    destruct (request_calls auth url Hu Hsig) as [call [Hc [Hurl Hr]]].
    fold run in Hc, Hr. exists call. split; [exact Hc|]. split; [exact Hurl|].
    intros success error. rewrite Hr.
    rewrite (surjective_pairing (fetch E call)). fold success error.
    split.
    + intros Ht. now apply outcome_cases.
    + intros Ht. unfold outcome. rewrite Ht.
      destruct (decode_body E success) as [[v|l|d|m]|e] eqn:Hd; cbn [rbind];
        try reflexivity.
      rewrite <- status_ok_iff. destruct (status_not_ok d); split; congruence.
  - intros r e Hre.
    destruct (request_shape auth) as [[e' [He _]]|[call [Hc [Hr _]]]];
      fold run in He || fold run in Hc, Hr.
    + congruence.
    + split; [eauto|]. rewrite Hr in Hre. now apply outcome_exclusive in Hre.
Qed.

(** C6 (amended).  An absolute URI is the URL of the call as it stands, a
    relative one is joined to the configured host.  For an absolute URI the
    signature is made with the lower-cased host name of the URI and, as
    path, a slash followed by everything after the third slash of the URI:
    that is all that follows the authority when it starts with a slash,
    query and fragment included, and so the path-only component when the URI
    has neither.  For a relative URI the signature is made with the
    lower-cased host name of the configured host and the URI itself. *)
Theorem request_absolute_uri auth :
  let run := request E self method uri params body headers auth st in
  let signed_path :=
    ("/" ++ Str.join "/" (Str.slice_from 3 (Str.split "/" uri)))%string in
  (forall call, calls (snd run) = calls st ++ [call] ->
     (if is_absolute uri then Ok uri else urljoin E (_host self) uri)
     = Ok (fc_url call))
  /\ (is_absolute uri = true ->
      forall h, Urllib.hostname uri = Ok (Some h) ->
        signing_target self uri = Ok (Str.lower h, signed_path)
        /\ (forall rest, Urllib.after_netloc uri = String "/" rest ->
              signed_path = Urllib.after_netloc uri
              /\ (Str.mem "?" (Urllib.after_netloc uri) = false ->
                  Str.mem "#" (Urllib.after_netloc uri) = false ->
                  signed_path = Urllib.path uri)))
  /\ (is_absolute uri = false ->
      forall h, Urllib.hostname (_host self) = Ok (Some h) ->
        signing_target self uri = Ok (Str.lower h, uri)).
Proof using params_valid headers_valid.
  intros run signed_path. repeat split.
  - intros call Hcall.
    destruct (request_shape auth) as [[e [_ [Hc _]]]|[call0 [Hc [_ [_ [Hu _]]]]]];
      fold run in Hc; rewrite Hc in Hcall.
    + now apply calls_not_grown in Hcall.
    + apply app_inj_tail in Hcall as [_ <-]. exact Hu.
  - now apply signing_target_absolute.
  - eapply absolute_path_after_netloc; eassumption.
  - intros Hq Hf. rewrite (path_without_query _ Hq Hf).
    eapply absolute_path_after_netloc; eassumption.
  - intros Habs h Hh. now apply signing_target_relative.
Qed.

(** C10 (amended).  With [auth=True] and a non-empty mapping from the caller,
    [request] works on that very object.  When the URL cannot be made
    ([urljoin] raises), [request] raises before it touches the mapping.
    Otherwise the four fields are merged into the caller's object; when
    signing returns, that object is given to the transport in the one call
    and after the call it holds the caller's entries with the four fields
    and [Signature]; when signing raises it holds the four fields and no new
    [Signature].  When the caller gives no mapping or an empty one, a new
    object is made and given to the transport, and the caller's object is as
    it was. *)
Theorem request_mutates_caller_mapping :
  let run := request E self method uri params body headers true st in
  let pre := dict_update (dict_at params st) (auth_fields E self) in
  (forall l d, params = Some l -> heap st !! l = Some d -> d <> [] ->
     (forall call, calls (snd run) = calls st ++ [call] ->
        exists m, fc_params call = Some (l, m))
     /\ match resolved_url E self uri with
        | Raise e => run = (Raise e, st)
        | Ok url =>
            match generate_signature self method pre uri with
            | Ok signature =>
                let final := dict_set "Signature" (VStr signature) pre in
                (exists call m, calls (snd run) = calls st ++ [call]
                                /\ fc_params call = Some (l, m))
                /\ exists d', heap (snd run) !! l = Some d'
                     /\ (headers <> Some l -> d' = final)
                     /\ (forall k, In k auth_keys ->
                           dict_get k d' = dict_get k final /\ is_Some (dict_get k d'))
            | Raise e =>
                fst run = Raise e
                /\ heap (snd run) !! l = Some (dict_update d (auth_fields E self))
            end
        end)
  /\ (dict_at params st = [] ->
      (forall l, params = Some l -> heap (snd run) !! l = heap st !! l)
      /\ (forall call, calls (snd run) = calls st ++ [call] ->
            heap st !! List.length (heap st) = None
            /\ exists m, fc_params call = Some (List.length (heap st), m))).
Proof using params_valid headers_valid.
  intros run pre.
  destruct (resolved_url E self uri) as [url|e] eqn:Hu.
  2:{ pose proof (request_unresolved E self method uri params body headers true st e Hu)
        as Hrun. fold run in Hrun.
      assert (Hno : forall call, calls (snd run) <> calls st ++ [call]).
      { intros call. rewrite Hrun. apply calls_not_grown. }
      split.
      - intros l d _ _ _. split; [|exact Hrun].
        intros call Hc. now apply Hno in Hc.
      - intros _. split; [intros l _; now rewrite Hrun|].
        intros call Hc. now apply Hno in Hc. }
  pose proof (request_auth_run E self method uri params body headers st url Hu
                params_valid headers_valid) as Hrun.
  cbv zeta in Hrun. fold pre run in Hrun.
  pose proof (chosen_lookup _ _ params_valid) as Hl.
  pose proof (lookup_lt_Some _ _ _ Hl) as Hlt.
  assert (Hcall : forall call, calls (snd run) = calls st ++ [call] ->
            exists m, fc_params call = Some (chosen params st, m)).
  { intros call Hc. destruct (generate_signature self method pre uri).
    - rewrite Hrun in Hc. cbn [snd sent calls] in Hc.
      apply app_inj_tail in Hc as [_ <-]. cbn [call_of fc_params]. eauto.
    - rewrite Hrun in Hc. cbn [snd calls] in Hc. now apply calls_not_grown in Hc. }
  split.
  - intros l d -> Hd Hne.
    assert (Hch : chosen (Some l) st = l /\ grown (Some l) st = st
                  /\ dict_at (Some l) st = d).
    { unfold chosen, grown. cbn [dict_at]. rewrite Hd. simpl.
      destruct d; [congruence|auto]. }
    destruct Hch as [Hc1 [Hc2 Hc3]]. rewrite Hc1, Hc2 in *.
    split; [exact Hcall|]. unfold pre in *. rewrite Hc3 in *.
    destruct (generate_signature self method _ uri) as [signature|e].
    + set (final := dict_set "Signature" (VStr signature) _) in *.
      split.
      { eexists. eexists. rewrite Hrun. cbn [snd sent calls].
        split; [reflexivity|]. cbn [call_of fc_params]. reflexivity. }
      destruct (sent_lookup E method url (Some l) body headers
                  {| heap := <[l := final]> (heap st); calls := calls st |} l final)
        as [d' [Hd' Hcase]].
      { cbn [heap]. now apply list_lookup_insert_eq. }
      exists d'. rewrite Hrun. cbn [snd]. split; [exact Hd'|].
      destruct Hcase as [->|[_ [Hh ->]]].
      * split; [reflexivity|]. intros k Hk. split; [reflexivity|].
        now apply auth_keys_final.
      * split; [congruence|]. intros k Hk.
        rewrite (headers_for_get _ _ _ _ (auth_keys_not_headers _ Hk)).
        split; [reflexivity|]. now apply auth_keys_final.
    + rewrite Hrun. cbn [fst snd heap]. split; [reflexivity|].
      now apply list_lookup_insert_eq.
  - intros Hempty.
    assert (Hch : chosen params st = List.length (heap st)
                  /\ heap (grown params st) = heap st ++ [[]]).
    { unfold chosen, grown. rewrite Hempty. now destruct params. }
    destruct Hch as [Hc1 Hc2]. rewrite Hc1, Hc2 in *. split.
    + intros l ->. destruct params_valid as [d Hd].
      cbn [dict_at] in Hempty. rewrite Hd in Hempty. simpl in Hempty. subst d.
      pose proof (lookup_lt_Some _ _ _ Hd) as Hll.
      assert (Hkeep : forall x c,
                heap {| heap := <[List.length (heap st) := x]> (heap st ++ [[]]);
                        calls := c |} !! l = Some []).
      { intros x c. cbn [heap]. rewrite list_lookup_insert_ne by lia.
        now apply lookup_app_l_Some. }
      rewrite Hd. destruct (generate_signature self method pre uri) as [signature|e].
      * rewrite Hrun. cbn [snd].
        destruct (sent_lookup E method url
                    (Some (List.length (heap st))) body headers _ l []
                    (Hkeep (dict_set "Signature" (VStr signature) pre) (calls st)))
          as [d' [Hd' [->|[Hne _]]]]; [exact Hd'|congruence].
      * rewrite Hrun. cbn [snd]. apply Hkeep.
    + intros call Hc. split; [|now apply Hcall].
      apply lookup_ge_None. lia.
Qed.

End Request.

(** ** The encoding chosen by method *)

(** What the one transport call carries: for [GET] the method [GET], the
    form content type and no body; for every other method the method [POST],
    the JSON content type and accept headers and the body; the user agent in
    both cases. *)
Lemma request_encoding E self method uri params body headers auth st call :
  valid_ref params st ->
  valid_ref headers st ->
  calls (snd (request E self method uri params body headers auth st))
    = calls st ++ [call] ->
  dict_get "User-Agent" (snd (fc_headers call)) = Some (VStr (USER_AGENT E))
  /\ (method = "GET" ->
      fc_method call = "GET" /\ fc_data call = None
      /\ dict_get "Content-type" (snd (fc_headers call))
         = Some (VStr "application/x-www-form-urlencoded"))
  /\ (method <> "GET" ->
      fc_method call = "POST" /\ fc_data call = Some body
      /\ dict_get "Content-type" (snd (fc_headers call)) = Some (VStr "application/json")
      /\ dict_get "Accept" (snd (fc_headers call)) = Some (VStr "application/json")).
Proof.
  intros Hp Hh Hcall.
  destruct (request_shape E self method uri params body headers st Hp Hh auth)
    as [[e [_ [Hc _]]]|[call0 [Hc [_ [Hm [_ [Hd [[d Hhd] _]]]]]]]];
    rewrite Hc in Hcall.
  - now apply calls_not_grown in Hcall.
  - apply app_inj_tail in Hcall as [_ <-]. rewrite Hhd, Hm, Hd.
    destruct (headers_for_entries E method d) as [Hua [Hget Hpost]].
    unfold transport_method, transport_data.
    split; [exact Hua|]. split.
    + intros ->. simpl. split; [reflexivity|]. split; [reflexivity|]. now apply Hget.
    + intros Hne. destruct (String.eqb_spec method "GET") as [->|_]; [congruence|].
      destruct (Hpost Hne) as [H1 H2]. auto.
Qed.

(** C5 (the code at the failing input).  A call with method [DELETE], and
    one with [PUT], reach the transport as [POST]. *)
Theorem request_delete_is_sent_as_post :
  map fc_method
    (calls (snd (request demo hb "DELETE" "/v1/order/orders/1" None PNone None false init)))
  = ["POST"]
  /\ map fc_method
       (calls (snd (request demo hb "PUT" "/v1/order/orders/1" None PNone None false init)))
     = ["POST"].
Proof. split; reflexivity. Qed.

(** ** Examples *)

Example strftime_to_the_second :
  strftime clock_2020 = "2020-09-10T01:02:03".
Proof. reflexivity. Qed.

Example transport_failure :
  fst (request failing hb "GET" "/market/depth" None PNone None false init)
  = Ok (PNone, PError "timeout").
Proof. reflexivity. Qed.

Example application_rejection :
  fst (request rejecting hb "POST" "/v1/order/orders/place" None PNone None true init)
  = Ok (PNone, rejection).
Proof. vm_compute. reflexivity. Qed.

Example place_order :
  fst (request demo hb "POST" "/v1/order/orders/place" None order_body None true init)
  = Ok (ok_envelope, PNone)
  /\ map fc_data
       (calls (snd (request demo hb "POST" "/v1/order/orders/place" None order_body None
                      true init)))
     = [Some order_body]
  /\ map (fun c => option_map (fun p => keys (snd p)) (fc_params c))
       (calls (snd (request demo hb "POST" "/v1/order/orders/place" None order_body None
                      true init)))
     = [Some auth_keys].
Proof. repeat split; vm_compute; reflexivity. Qed.

Example market_depth_url :
  map fc_url (calls (snd (request demo hb "GET" "/market/depth" None PNone None false init)))
  = ["https://api.huobi.pro/market/depth"].
Proof. reflexivity. Qed.

(** What [urljoin] does with the hosts and paths of the examples. *)
Example urljoin_examples :
  Urllib.urljoin "https://api.huobi.pro" "/v1/order/orders"
  = Ok "https://api.huobi.pro/v1/order/orders"
  /\ Urllib.urljoin "api.huobi.pro" "/v1/order/orders" = Ok "/v1/order/orders"
  /\ Urllib.urljoin "https://api.huobi.pro/api/" "v1/../v2/./x?a=b#c"
     = Ok "https://api.huobi.pro/api/v2/x?a=b#c"
  /\ Urllib.urljoin "https://api.huobi.pro" "//other.example/x" = Ok "https://other.example/x"
  /\ Urllib.urljoin "http://[::1" "/market/depth" = Raise ValueError
  /\ Urllib.urljoin "https://api.huobi.pro" "//[" = Raise ValueError
  /\ Urllib.urljoin "api.huobi.pro" "//[" = Raise ValueError.
Proof. repeat split; vm_compute; reflexivity. Qed.

(** A host or a path that [urljoin] does not take: [request] raises
    [ValueError] where it makes the URL; nothing is sent, and with
    [auth=True] the caller's mapping is not touched. *)
Example request_stops_at_urljoin :
  request demo unbracketed "GET" "/market/depth" None PNone None false init
  = (Raise ValueError, init)
  /\ request demo unbracketed "GET" "/v1/order/orders" (Some 0%nat) PNone None true placed
     = (Raise ValueError, placed)
  /\ request demo hb "GET" "//[" None PNone None false init = (Raise ValueError, init)
  /\ request demo hb "GET" "//[" (Some 0%nat) PNone None true placed
     = (Raise ValueError, placed).
Proof. repeat split; vm_compute; reflexivity. Qed.

Lemma placed_valid : valid_ref (Some 0%nat) placed.
Proof. exists [("symbol", VStr "btcusdt")]. reflexivity. Qed.

Lemma apart_from_none (l0 : nat) : forall l, Some l0 = Some l -> @None nat <> Some l.
Proof. intros l _. discriminate. Qed.

Lemma placed_signature :
  generate_signature hb "GET"
    (dict_update (dict_at (Some 0%nat) placed) (auth_fields demo hb)) "/v1/order/orders"
  = Ok "ZnLUgt395V/wWuZXfaAzsqyjJO/rgWfLyt5EgWWIAbA=".
Proof. vm_compute. reflexivity. Qed.

Lemma placed_url :
  resolved_url demo hb "/v1/order/orders" = Ok "https://api.huobi.pro/v1/order/orders".
Proof. vm_compute. reflexivity. Qed.

Lemma request_auth_fields_witness :
  exists call,
    calls (snd (request demo hb "GET" "/v1/order/orders" (Some 0%nat) PNone None true placed))
      = [call]
    /\ fc_url call = "https://api.huobi.pro/v1/order/orders"
    /\ fc_params call =
       Some (0%nat,
             [("symbol", VStr "btcusdt"); ("AccessKeyId", VStr "ak");
              ("SignatureMethod", VStr "HmacSHA256"); ("SignatureVersion", VStr "2");
              ("Timestamp", VStr "2020-09-10T01:02:03");
              ("Signature", VStr "ZnLUgt395V/wWuZXfaAzsqyjJO/rgWfLyt5EgWWIAbA=")]).
Proof.
  pose proof (request_auth_fields demo hb "GET" "/v1/order/orders" (Some 0%nat) PNone None
                placed placed_valid I (apart_from_none 0)) as H.
  cbv zeta in H. destruct H as [_ H].
  rewrite placed_url, placed_signature in H. destruct H as [[call [Hc [Hu Hp]]] _].
  exists call. split; [exact Hc|]. split; [exact Hu|]. rewrite Hp. vm_compute. reflexivity.
Defined.

Lemma placed_run :
  request demo hb "GET" "/v1/order/orders" (Some 0%nat) PNone None true placed
  = (Ok (ok_envelope, PNone),
     {| heap := [placed_params; snd (fc_headers placed_call)];
        calls := [placed_call] |}).
Proof. vm_compute. reflexivity. Qed.

Lemma placed_unsigned : ~ In "Signature" (keys (dict_at (Some 0%nat) placed)).
Proof. simpl. intros [H|[]]. discriminate. Qed.

Lemma request_signature_covers_the_rest_witness :
  exists signature,
    dict_get "Signature" placed_params = Some (VStr signature)
    /\ dict_remove "Signature" placed_params
       = dict_update (dict_at (Some 0%nat) placed) (auth_fields demo hb)
    /\ generate_signature hb "GET" (dict_remove "Signature" placed_params)
         "/v1/order/orders" = Ok signature.
Proof.
  pose proof (request_signature_covers_the_rest demo hb "GET" "/v1/order/orders"
                (Some 0%nat) PNone None placed placed_valid I (apart_from_none 0)
                placed_unsigned) as H.
  cbv zeta in H. destruct H as [_ H].
  apply (H placed_call 0%nat placed_params); [|reflexivity].
  rewrite placed_run. reflexivity.
Defined.

Lemma depth_url :
  resolved_url demo hb "/market/depth" = Ok "https://api.huobi.pro/market/depth".
Proof. vm_compute. reflexivity. Qed.

Lemma request_outcome_witness :
  exists call,
    calls (snd (request demo hb "GET" "/market/depth" None PNone None false init)) = [call]
    /\ fc_url call = "https://api.huobi.pro/market/depth"
    /\ fst (request demo hb "GET" "/market/depth" None PNone None false init)
       = Ok (ok_envelope, PNone).
Proof.
  pose proof (request_outcome demo hb "GET" "/market/depth" None PNone None init I I false)
    as H.
  cbv zeta in H. destruct H as [H _].
  destruct (H _ depth_url) as [call [Hc [Hu [_ Hr]]]]; [discriminate|].
  exists call. split; [exact Hc|]. split; [exact Hu|].
  exact (proj1 (Hr eq_refl) eq_refl).
Defined.

(** C4 (counterexample).  The transport answers without an error, with a
    text body that is not JSON: the call is made, and [request] returns
    neither the envelope nor an error value, it raises the exception of
    [json.loads]. *)
Lemma request_raises_on_text_body :
  map (fetch unparsable)
    (calls (snd (request unparsable hb "GET" "/market/depth" None PNone None false init)))
  = [(PScalar (VStr "Bad Gateway"), PNone)]
  /\ fst (request unparsable hb "GET" "/market/depth" None PNone None false init)
     = Raise JSONDecodeError.
Proof. split; vm_compute; reflexivity. Qed.

Lemma request_absolute_uri_witness :
  (forall call,
      calls (snd (request demo hb "POST" transfer_uri None PNone None true init))
        = calls init ++ [call] ->
      fc_url call = transfer_uri)
  /\ signing_target hb transfer_uri = Ok ("api.huobi.pro", "/v1/futures/transfer")
  /\ "/v1/futures/transfer" = Urllib.path transfer_uri.
Proof.
  pose proof (request_absolute_uri demo hb "POST" transfer_uri None PNone None init I I true)
    as H.
  cbv zeta in H. destruct H as [Hurl [Habs _]].
  specialize (Habs eq_refl "api.huobi.pro" eq_refl). destruct Habs as [Ht Hp].
  split; [|split; [exact Ht|]].
  { intros call Hc. pose proof (Hurl call Hc) as Hu. change (Ok transfer_uri = Ok (fc_url call)) in Hu.
    now injection Hu. }
  destruct (Hp "v1/futures/transfer" eq_refl) as [_ Hpath].
  exact (Hpath eq_refl eq_refl).
Defined.

(** C6 (counterexample).  For an absolute URI with a query the code signs
    the path together with the query, not the path-only component. *)
Lemma signing_target_keeps_query :
  Urllib.hostname query_uri = Ok (Some "api.example.com")
  /\ signing_target hb query_uri = Ok ("api.example.com", "/v1/x?a=b")
  /\ Urllib.path query_uri = "/v1/x"
  /\ signing_target hb query_uri <> Ok ("api.example.com", Urllib.path query_uri).
Proof. repeat split; try reflexivity. vm_compute. discriminate. Qed.

Lemma request_without_secret_key_witness :
  (exists e,
      fst (request demo no_secret "GET" "/v1/order/orders" (Some 0%nat) PNone None true
             placed) = Raise e)
  /\ calls (snd (request demo no_secret "GET" "/v1/order/orders" (Some 0%nat) PNone None
                   true placed)) = calls placed.
Proof.
  pose proof (request_without_secret_key demo no_secret "GET" "/v1/order/orders"
                (Some 0%nat) PNone None placed placed_valid I) as H.
  cbv zeta in H. destruct H as [H _]. exact (H eq_refl).
Defined.

(** C9 (counterexample).  A client with a secret key and no access key:
    the authenticated call is not stopped, it reaches the transport with
    [AccessKeyId] set to [None] and returns the envelope. *)
Lemma request_without_access_key_is_sent :
  _access_key no_access = None
  /\ fst (request demo no_access "POST" "/v1/order/orders/place" None PNone None true init)
     = Ok (ok_envelope, PNone)
  /\ map fc_params
       (calls (snd (request demo no_access "POST" "/v1/order/orders/place" None PNone
                      None true init)))
     = [Some (0%nat,
              [("AccessKeyId", VNone); ("SignatureMethod", VStr "HmacSHA256");
               ("SignatureVersion", VStr "2");
               ("Timestamp", VStr "2020-09-10T01:02:03");
               ("Signature", VStr "mM9b3pCwbtc+z6t8MiP4nAMrdyUgZErVCX4ykKPAEgA=")])].
Proof. repeat split; vm_compute; reflexivity. Qed.

Lemma request_mutates_caller_mapping_witness :
  heap (snd (request demo hb "GET" "/v1/order/orders" (Some 0%nat) PNone None true placed))
    !! 0%nat = Some placed_params.
Proof.
  pose proof (request_mutates_caller_mapping demo hb "GET" "/v1/order/orders" (Some 0%nat)
                PNone None placed placed_valid I) as H.
  cbv zeta in H. destruct H as [H _].
  destruct (H 0%nat [("symbol", VStr "btcusdt")] eq_refl eq_refl) as [_ Hm];
    [discriminate|].
  rewrite placed_url, placed_signature in Hm. destruct Hm as [_ [d' [Hd' [Heq _]]]].
  rewrite Hd'. f_equal. rewrite Heq by discriminate. vm_compute. reflexivity.
Defined.

(** C10 (counterexample).  With no secret key signing raises after the four
    fields were merged into the caller's mapping: after the call the mapping
    holds four of the five keys and no [Signature]. *)
Lemma request_leaves_mapping_unsigned :
  fst (request demo no_secret "GET" "/v1/order/orders" (Some 0%nat) PNone None true placed)
  = Raise AttributeError
  /\ heap (snd (request demo no_secret "GET" "/v1/order/orders" (Some 0%nat) PNone None
                  true placed)) !! 0%nat
     = Some [("symbol", VStr "btcusdt"); ("AccessKeyId", VStr "ak");
             ("SignatureMethod", VStr "HmacSHA256"); ("SignatureVersion", VStr "2");
             ("Timestamp", VStr "2020-09-10T01:02:03")]
  /\ dict_get "Signature"
       [("symbol", VStr "btcusdt"); ("AccessKeyId", VStr "ak");
        ("SignatureMethod", VStr "HmacSHA256"); ("SignatureVersion", VStr "2");
        ("Timestamp", VStr "2020-09-10T01:02:03")] = None.
Proof. repeat split; vm_compute; reflexivity. Qed.
(** * Further properties of [request] *)

Lemma chosen_other x st l :
  (l < List.length (heap st))%nat -> x <> Some l -> chosen x st <> l.
Proof.
  intros Hl Hx. unfold chosen. destruct (dict_at x st); [lia|].
  destruct x as [l'|]; [congruence|lia].
Qed.

Lemma grown_length x st :
  (List.length (heap st) <= List.length (heap (grown x st)) <= S (List.length (heap st)))%nat.
Proof.
  unfold grown. destruct (dict_at x st); simpl; [rewrite length_app; simpl; lia|lia].
Qed.

Lemma chosen_bound x st :
  valid_ref x st -> (chosen x st < List.length (heap (grown x st)))%nat.
Proof. intros Hv. eapply lookup_lt_Some. now apply chosen_lookup. Qed.

Lemma grown_other x st l :
  (l < List.length (heap st))%nat -> heap (grown x st) !! l = heap st !! l.
Proof.
  intros Hl. unfold grown. destruct (dict_at x st); cbn [heap]; [|reflexivity].
  now rewrite lookup_app_l.
Qed.

(** [send] changes one location only. *)
Lemma sent_other E method url p body headers st l :
  (l < List.length (heap st))%nat -> headers <> Some l ->
  heap (sent E method url p body headers st) !! l = heap st !! l.
Proof.
  intros Hl Hh. unfold sent. cbn [heap].
  rewrite list_lookup_insert_ne by now apply chosen_other.
  now apply grown_other.
Qed.

Lemma sent_length E method url p body headers st :
  (List.length (heap st) <= List.length (heap (sent E method url p body headers st))
   <= S (List.length (heap st)))%nat.
Proof. unfold sent. cbn [heap]. rewrite length_insert. apply grown_length. Qed.

Lemma signed_state_other params d st l :
  (l < List.length (heap st))%nat -> params <> Some l ->
  heap (signed_state params d st) !! l = heap st !! l.
Proof.
  intros Hl Hp. unfold signed_state. cbn [heap].
  rewrite list_lookup_insert_ne by now apply chosen_other.
  now apply grown_other.
Qed.

Lemma signed_state_length params d st :
  (List.length (heap st) <= List.length (heap (signed_state params d st))
   <= S (List.length (heap st)))%nat.
Proof. unfold signed_state. cbn [heap]. rewrite length_insert. apply grown_length. Qed.

Lemma signed_state_at params d st :
  valid_ref params st ->
  heap (signed_state params d st) !! chosen params st = Some d.
Proof.
  intros Hp. unfold signed_state. cbn [heap].
  apply list_lookup_insert_eq. now apply chosen_bound.
Qed.

Lemma signed_state_valid params d st x :
  valid_ref x st -> valid_ref x (signed_state params d st).
Proof. intros Hx. apply valid_ref_insert. now apply valid_ref_grown. Qed.

(** The four ways a run of [request] goes. *)
Lemma request_cases E self method uri params body headers auth st :
  valid_ref params st ->
  valid_ref headers st ->
  let run := request E self method uri params body headers auth st in
  let pre := dict_update (dict_at params st) (auth_fields E self) in
  (exists e, resolved_url E self uri = Raise e /\ run = (Raise e, st))
  \/ (auth = true
      /\ exists e, generate_signature self method pre uri = Raise e
                   /\ run = (Raise e, signed_state params pre st))
  \/ (exists url p st1,
        resolved_url E self uri = Ok url
        /\ run = (outcome E (fetch E (call_of E method url p body headers st1)),
                  sent E method url p body headers st1)
        /\ valid_ref p st1 /\ valid_ref headers st1
        /\ ((auth = false /\ p = params /\ st1 = st)
            \/ (auth = true
                /\ exists signature,
                     generate_signature self method pre uri = Ok signature
                     /\ p = Some (chosen params st)
                     /\ st1 = signed_state params
                                (dict_set "Signature" (VStr signature) pre) st))).
Proof.
  intros Hp Hh run pre. unfold run.
  destruct (resolved_url E self uri) as [url|e] eqn:Hu;
    [|left; exists e; split; [reflexivity|now apply request_unresolved]].
  right. destruct auth.
  - pose proof (request_auth_run E self method uri params body headers st url Hu Hp Hh)
      as Hrun.
    cbv zeta in Hrun. fold pre in Hrun.
    destruct (generate_signature self method pre uri) as [signature|e] eqn:Hs.
    + right. exists url. eexists. eexists. split; [reflexivity|]. split; [exact Hrun|].
      split; [|split].
      * eexists. apply (signed_state_at params _ st Hp).
      * now apply (signed_state_valid params _ st).
      * right. split; [reflexivity|]. exists signature. now repeat split.
    + left. split; [reflexivity|]. exists e. now split.
  - right. exists url, params, st. split; [reflexivity|].
    split; [now apply request_plain_run|].
    split; [exact Hp|]. split; [exact Hh|]. left. now repeat split.
Qed.

(** X1.  Without authentication [request] does not look at the
    credentials, and it leaves the caller's mapping as it was.  When the URL
    cannot be made ([urljoin] raises) it raises there, with no call and
    nothing changed.  Otherwise it does not raise before the transport call:
    it makes the one call, to the resolved URL, with the caller's mapping as
    it is, from the caller's own object, and answers from the reply. *)
Theorem request_without_auth E self method uri params body headers st :
  valid_ref params st ->
  valid_ref headers st ->
  (forall l, params = Some l -> headers <> Some l) ->
  let run := request E self method uri params body headers false st in
  match resolved_url E self uri with
  | Raise e => run = (Raise e, st)
  | Ok url =>
      exists call,
        calls (snd run) = calls st ++ [call]
        /\ fc_url call = url
        /\ fst run = outcome E (fetch E call)
        /\ fc_params call = match params with
                            | Some l => Some (l, dict_at params st)
                            | None => None
                            end
  end
  /\ (forall l, params = Some l -> heap (snd run) !! l = heap st !! l)
  /\ (forall self', _host self' = _host self ->
        request E self' method uri params body headers false st = run).
Proof.
  intros Hp Hh Hsep run. unfold run.
  assert (Hhost : forall self', _host self' = _host self ->
            resolved_url E self' uri = resolved_url E self uri).
  { intros self' Hhost. unfold resolved_url. now rewrite Hhost. }
  destruct (resolved_url E self uri) as [url|e] eqn:Hu.
  2:{ rewrite (request_unresolved _ _ _ _ _ _ _ _ _ _ Hu). cbn [snd].
      split; [reflexivity|]. split; [reflexivity|].
      intros self' Hs. apply request_unresolved. now rewrite (Hhost self' Hs). }
  rewrite (request_plain_run E self method uri params body headers st url Hu Hp Hh).
  cbn [fst snd]. split; [|split].
  - eexists. split; [reflexivity|]. split; [reflexivity|]. split; [reflexivity|].
    unfold call_of. cbn [fc_params]. destruct params as [l|]; [|reflexivity].
    destruct Hp as [d Hd]. pose proof (lookup_lt_Some _ _ _ Hd) as Hl.
    f_equal. f_equal.
    rewrite list_lookup_insert_ne by (apply chosen_other; auto).
    rewrite grown_other by exact Hl. reflexivity.
  - intros l ->. destruct Hp as [d Hd]. apply sent_other; [|auto].
    now apply lookup_lt_Some in Hd.
  - intros self' Hs.
    apply (request_plain_run E self' method uri params body headers st url); auto.
Qed.

Lemma request_without_auth_witness :
  let run := request demo hb "GET" "/market/depth" (Some 0%nat) PNone None false placed in
  (exists call,
      calls (snd run) = calls placed ++ [call]
      /\ fc_url call = "https://api.huobi.pro/market/depth"
      /\ fst run = outcome demo (fetch demo call)
      /\ fc_params call = Some (0%nat, dict_at (Some 0%nat) placed))
  /\ (forall l, Some 0%nat = Some l -> heap (snd run) !! l = heap placed !! l)
  /\ (forall self', _host self' = _host hb ->
        request demo self' "GET" "/market/depth" (Some 0%nat) PNone None false placed = run).
Proof.
  pose proof (request_without_auth demo hb "GET" "/market/depth" (Some 0%nat) PNone None
                placed placed_valid I (apart_from_none 0)) as H.
  cbv zeta in H. rewrite depth_url in H. exact H.
Defined.

(** X2.  Whatever way the run goes, [request] leaves alone every dictionary
    that is neither the caller's mapping nor the caller's headers; it
    creates at most two objects and removes none; it keeps the calls made
    before and adds at most one. *)
Theorem request_frame E self method uri params body headers auth st :
  valid_ref params st ->
  valid_ref headers st ->
  let run := request E self method uri params body headers auth st in
  (forall l, (l < List.length (heap st))%nat ->
     params <> Some l -> headers <> Some l ->
     heap (snd run) !! l = heap st !! l)
  /\ (List.length (heap st) <= List.length (heap (snd run))
      <= List.length (heap st) + 2)%nat
  /\ (calls (snd run) = calls st \/ exists call, calls (snd run) = calls st ++ [call]).
Proof.
  intros Hp Hh run.
  destruct (request_cases E self method uri params body headers auth st Hp Hh)
    as [[e [_ Hrun]]|[[_ [e [_ Hrun]]]|[url [p [st1 [_ [Hrun [_ [_ Hst1]]]]]]]]];
    fold run in Hrun; rewrite Hrun; cbn [snd].
  - split; [reflexivity|]. split; [lia|now left].
  - split; [|split].
    + intros l Hl Hlp _. now apply signed_state_other.
    + pose proof (signed_state_length params
                    (dict_update (dict_at params st) (auth_fields E self)) st). lia.
    + now left.
  - assert (Hframe : (forall l, (l < List.length (heap st))%nat -> params <> Some l ->
                        heap st1 !! l = heap st !! l)
                     /\ (List.length (heap st) <= List.length (heap st1)
                         <= S (List.length (heap st)))%nat
                     /\ calls st1 = calls st).
    { destruct Hst1 as [[_ [_ ->]]|[_ [signature [_ [_ ->]]]]].
      - split; [reflexivity|]. split; [lia|reflexivity].
      - split; [intros l Hl Hlp; now apply signed_state_other|].
        split; [apply signed_state_length|reflexivity]. }
    destruct Hframe as [Hf [Hlen Hc]].
    pose proof (sent_length E method url p body headers st1) as Hlen2.
    split; [|split].
    + intros l Hl Hlp Hlh. rewrite sent_other by (auto; lia). now apply Hf.
    + lia.
    + right. eexists. unfold sent. cbn [calls]. rewrite Hc. reflexivity.
Qed.

Lemma request_frame_witness :
  let run := request demo hb "GET" "/v1/order/orders" (Some 0%nat) PNone None true placed in
  (forall l, (l < List.length (heap placed))%nat ->
     Some 0%nat <> Some l -> @None nat <> Some l ->
     heap (snd run) !! l = heap placed !! l)
  /\ (List.length (heap placed) <= List.length (heap (snd run))
      <= List.length (heap placed) + 2)%nat
  /\ (calls (snd run) = calls placed
      \/ exists call, calls (snd run) = calls placed ++ [call]).
Proof.
  exact (request_frame demo hb "GET" "/v1/order/orders" (Some 0%nat) PNone None true placed
           placed_valid I).
Defined.

(** ** The headers object *)

Lemma chosen_kept l h st :
  heap st !! l = Some h -> h <> [] ->
  chosen (Some l) st = l /\ dict_at (Some l) st = h /\ grown (Some l) st = st.
Proof.
  intros Hl Hne. unfold chosen, grown. cbn [dict_at]. rewrite Hl. cbn [default].
  destruct h; [congruence|]. cbn [from_option id]. auto.
Qed.

Lemma chosen_new x st :
  dict_at x st = [] ->
  chosen x st = List.length (heap st)
  /\ grown x st = {| heap := heap st ++ [[]]; calls := calls st |}.
Proof. intros Hd. unfold chosen, grown. rewrite Hd. now destruct x. Qed.

(** The mapping that the [if auth:] block leaves is never empty, so it is
    never the object of empty headers. *)
Lemma dict_set_nonempty k v d : dict_set k v d <> [].
Proof. destruct d as [|[k' v'] d]; simpl; [|destruct (String.eqb k' k)]; discriminate. Qed.

Lemma dict_update_auth_nonempty E self d : dict_update d (auth_fields E self) <> [].
Proof. unfold dict_update, auth_fields. simpl. apply dict_set_nonempty. Qed.

Lemma signed_state_empty params d st headers :
  valid_ref params st ->
  valid_ref headers st ->
  d <> [] ->
  dict_at headers st = [] ->
  dict_at headers (signed_state params d st) = [].
Proof.
  intros Hp Hh Hd He. destruct headers as [l|]; [|reflexivity].
  cbn [dict_at] in *. destruct Hh as [h Hl]. rewrite Hl in He. cbn in He. subst h.
  pose proof (lookup_lt_Some _ _ _ Hl) as Hlt.
  destruct (decide (chosen params st = l)) as [Heq|Hne].
  - exfalso. unfold chosen in Heq. destruct params as [l'|]; cbn [dict_at] in Heq.
    + destruct (default [] (heap st !! l')) eqn:Hd'; [lia|]. subst l'.
      rewrite Hl in Hd'. discriminate.
    + lia.
  - unfold signed_state. cbn [heap]. rewrite list_lookup_insert_ne by exact Hne.
    rewrite grown_other by exact Hlt. now rewrite Hl.
Qed.

(** X3.  Headers that the caller passes in a non-empty dictionary are
    written in place: the call carries the caller's own object, which
    afterwards holds the user agent and the content type of the method
    (and [Accept] for a method other than [GET]) over whatever the caller
    had under these names, and every other entry as the caller set it. *)
Theorem request_headers_in_place E self method uri params body l h auth st :
  valid_ref params st ->
  heap st !! l = Some h ->
  h <> [] ->
  params <> Some l ->
  let run := request E self method uri params body (Some l) auth st in
  forall call, calls (snd run) = calls st ++ [call] ->
    exists h',
      fc_headers call = (l, h')
      /\ heap (snd run) !! l = Some h'
      /\ dict_get "User-Agent" h' = Some (VStr (USER_AGENT E))
      /\ dict_get "Content-type" h'
         = Some (VStr (if String.eqb method "GET"
                       then "application/x-www-form-urlencoded"
                       else "application/json"))
      /\ dict_get "Accept" h'
         = (if String.eqb method "GET" then dict_get "Accept" h
            else Some (VStr "application/json"))
      /\ (forall k, k <> "Accept" -> k <> "Content-type" -> k <> "User-Agent" ->
            dict_get k h' = dict_get k h).
Proof.
  intros Hp Hl Hne Hsep run call Hcall.
  assert (Hh : valid_ref (Some l) st) by (now exists h).
  pose proof (lookup_lt_Some _ _ _ Hl) as Hlt.
  destruct (request_cases E self method uri params body (Some l) auth st Hp Hh)
    as [[e [_ Hrun]]|[[_ [e [_ Hrun]]]|[url [p [st1 [_ [Hrun [_ [_ Hst1]]]]]]]]];
    fold run in Hrun; rewrite Hrun in Hcall |- *; cbn [snd] in *.
  { now apply calls_not_grown in Hcall. }
  { unfold signed_state in Hcall. cbn [calls] in Hcall.
    now apply calls_not_grown in Hcall. }
  assert (Hl1 : heap st1 !! l = Some h /\ calls st1 = calls st).
  { destruct Hst1 as [[_ [_ ->]]|[_ [signature [_ [_ ->]]]]]; [now split|].
    split; [|reflexivity]. rewrite signed_state_other by assumption. exact Hl. }
  destruct Hl1 as [Hl1 Hc1].
  destruct (chosen_kept l h st1 Hl1 Hne) as [Hch [Hda Hgr]].
  unfold sent in Hcall |- *. cbn [calls heap] in *. rewrite Hc1 in Hcall.
  apply app_inj_tail in Hcall as [_ <-].
  exists (headers_for E method h). unfold call_of. cbn [fc_headers].
  rewrite Hch, Hda, Hgr.
  split; [reflexivity|].
  split; [apply list_lookup_insert_eq; now apply lookup_lt_Some in Hl1|].
  unfold headers_for. destruct (String.eqb method "GET").
  - repeat split; intros;
      repeat first [ apply dict_get_set_eq | rewrite dict_get_set_ne by congruence ];
      reflexivity.
  - repeat split; intros;
      repeat first [ apply dict_get_set_eq | rewrite dict_get_set_ne by congruence ];
      reflexivity.
Qed.

(** X4.  When the caller passes no headers, or an empty dictionary, the
    call carries a dictionary created for it, holding exactly the entries
    of the method; an empty dictionary of the caller stays empty. *)
Theorem request_fresh_headers E self method uri params body headers auth st :
  valid_ref params st ->
  valid_ref headers st ->
  dict_at headers st = [] ->
  let run := request E self method uri params body headers auth st in
  forall call, calls (snd run) = calls st ++ [call] ->
    (List.length (heap st) <= fst (fc_headers call))%nat
    /\ heap (snd run) !! fst (fc_headers call) = Some (snd (fc_headers call))
    /\ snd (fc_headers call)
       = (if String.eqb method "GET" then form_headers E else json_headers E)
    /\ (forall l, headers = Some l -> heap (snd run) !! l = Some []).
Proof.
  intros Hp Hh He run call Hcall.
  destruct (request_cases E self method uri params body headers auth st Hp Hh)
    as [[e [_ Hrun]]|[[_ [e [_ Hrun]]]|[url [p [st1 [_ [Hrun [_ [Hh1 Hst1]]]]]]]]];
    fold run in Hrun; rewrite Hrun in Hcall |- *; cbn [snd] in *.
  { now apply calls_not_grown in Hcall. }
  { unfold signed_state in Hcall. cbn [calls] in Hcall.
    now apply calls_not_grown in Hcall. }
  assert (H1 : dict_at headers st1 = [] /\ calls st1 = calls st
               /\ (List.length (heap st) <= List.length (heap st1))%nat
               /\ (forall l, headers = Some l -> heap st1 !! l = Some [])).
  { assert (Hl0 : forall l, headers = Some l -> heap st !! l = Some []).
    { intros l ->. cbn [dict_at] in He. destruct Hh as [h Hl]. rewrite Hl in He |- *.
      cbn in He. now subst. }
    destruct Hst1 as [[_ [_ ->]]|[_ [signature [_ [_ ->]]]]].
    - split; [exact He|]. split; [reflexivity|]. split; [lia|exact Hl0].
    - split; [|split; [reflexivity|split]].
      + apply signed_state_empty; try assumption. apply dict_set_nonempty.
      + apply signed_state_length.
      + intros l Hl. pose proof (Hl0 l Hl) as Hl'. subst headers.
        pose proof (signed_state_empty params
                      (dict_set "Signature" (VStr signature)
                         (dict_update (dict_at params st) (auth_fields E self)))
                      st (Some l) Hp Hh (dict_set_nonempty _ _ _) He) as Hd.
        cbn [dict_at] in Hd. destruct Hh1 as [h Hh1]. rewrite Hh1 in Hd |- *.
        cbn in Hd. now subst. }
  destruct H1 as [He1 [Hc1 [Hlen Hl1]]].
  destruct (chosen_new headers st1 He1) as [Hch Hgr].
  unfold sent in Hcall |- *. cbn [calls heap] in *. rewrite Hc1 in Hcall.
  apply app_inj_tail in Hcall as [_ <-].
  unfold call_of. cbn [fc_headers fst snd]. rewrite Hch, Hgr, He1. cbn [heap].
  split; [exact Hlen|]. split; [|split].
  - apply list_lookup_insert_eq. rewrite length_app. simpl. lia.
  - unfold headers_for, form_headers, json_headers.
    now destruct (String.eqb method "GET").
  - intros l Hl. pose proof (Hl1 l Hl) as Hl'.
    pose proof (lookup_lt_Some _ _ _ Hl') as Hlt.
    rewrite list_lookup_insert_ne by lia. now rewrite lookup_app_l.
Qed.

Lemma with_headers_valid : valid_ref (Some 0%nat) with_headers.
Proof. exists [("symbol", VStr "btcusdt")]. reflexivity. Qed.

Lemma request_headers_in_place_witness :
  exists h',
    fc_headers
      {| fc_method := "GET"; fc_url := "https://api.huobi.pro/market/depth";
         fc_params := Some (0%nat, [("symbol", VStr "btcusdt")]);
         fc_data := None;
         fc_headers := (1%nat, [("X-Trace", VStr "7");
                                ("Content-type", VStr "application/x-www-form-urlencoded");
                                ("User-Agent", VStr "AlphaQuant")]);
         fc_timeout := 10 |} = (1%nat, h')
    /\ heap (snd (request demo hb "GET" "/market/depth" (Some 0%nat) PNone (Some 1%nat)
                    false with_headers)) !! 1%nat = Some h'
    /\ dict_get "User-Agent" h' = Some (VStr (USER_AGENT demo))
    /\ dict_get "Content-type" h' = Some (VStr "application/x-www-form-urlencoded")
    /\ dict_get "Accept" h' = None
    /\ (forall k, k <> "Accept" -> k <> "Content-type" -> k <> "User-Agent" ->
          dict_get k h'
          = dict_get k [("X-Trace", VStr "7"); ("Content-type", VStr "text/plain")]).
Proof.
  refine (request_headers_in_place demo hb "GET" "/market/depth" (Some 0%nat) PNone 1%nat
            [("X-Trace", VStr "7"); ("Content-type", VStr "text/plain")] false with_headers
            with_headers_valid eq_refl _ _ _ eq_refl); discriminate.
Defined.

Lemma request_fresh_headers_witness :
  let run := request demo hb "GET" "/market/depth" (Some 0%nat) PNone None false placed in
  let call := {| fc_method := "GET"; fc_url := "https://api.huobi.pro/market/depth";
                 fc_params := Some (0%nat, [("symbol", VStr "btcusdt")]);
                 fc_data := None;
                 fc_headers := (1%nat, form_headers demo);
                 fc_timeout := 10 |} in
  (List.length (heap placed) <= fst (fc_headers call))%nat
  /\ heap (snd run) !! fst (fc_headers call) = Some (snd (fc_headers call))
  /\ snd (fc_headers call) = form_headers demo
  /\ (forall l, @None nat = Some l -> heap (snd run) !! l = Some []).
Proof.
  exact (request_fresh_headers demo hb "GET" "/market/depth" (Some 0%nat) PNone None false
           placed placed_valid I eq_refl _ eq_refl).
Defined.

(** ** One entry per key *)

Lemma dict_set_keys_unique k v d : NoDup (keys d) -> NoDup (keys (dict_set k v d)).
Proof.
  induction d as [|[k2 v2] d IH]; cbn [dict_set keys map fst].
  - intros _. apply NoDup_singleton.
  - rewrite NoDup_cons. intros [Hn Hd]. destruct (String.eqb_spec k2 k) as [->|Hne].
    + cbn [keys map fst]. now apply NoDup_cons.
    + cbn [keys map fst]. apply NoDup_cons. split; [|now apply IH].
      rewrite list_elem_of_In. fold (keys (dict_set k v d)). rewrite keys_set.
      rewrite list_elem_of_In in Hn. intros [H|H]; [now apply Hn|congruence].
Qed.

Lemma dict_update_keys_unique other d :
  NoDup (keys d) -> NoDup (keys (dict_update d other)).
Proof.
  unfold dict_update. revert d. induction other as [|[k v] other IH]; intros d Hd.
  - exact Hd.
  - cbn [fold_left fst snd]. apply IH. now apply dict_set_keys_unique.
Qed.

Lemma headers_for_keys_unique E method d :
  NoDup (keys d) -> NoDup (keys (headers_for E method d)).
Proof.
  intros Hd. unfold headers_for.
  destruct (String.eqb method "GET"); repeat apply dict_set_keys_unique; exact Hd.
Qed.

Lemma heap_wf_grown x st : heap_wf st -> heap_wf (grown x st).
Proof.
  unfold heap_wf, grown. intros H. destruct (dict_at x st); cbn [heap]; [|exact H].
  apply Forall_app. split; [exact H|]. apply Forall_singleton. apply NoDup_nil_2.
Qed.

Lemma heap_wf_dict_at x st : heap_wf st -> NoDup (keys (dict_at x st)).
Proof.
  unfold heap_wf. intros H. destruct x as [l|]; cbn [dict_at]; [|apply NoDup_nil_2].
  destruct (heap st !! l) as [d|] eqn:Hl; cbn; [|apply NoDup_nil_2].
  exact (proj1 (Forall_lookup _ _) H l d Hl).
Qed.

Lemma heap_wf_signed_state params d st :
  heap_wf st -> NoDup (keys d) -> heap_wf (signed_state params d st).
Proof.
  intros H Hd. unfold heap_wf, signed_state. cbn [heap].
  apply Forall_insert; [|exact Hd]. now apply heap_wf_grown.
Qed.

Lemma heap_wf_sent E method url p body headers st :
  heap_wf st -> heap_wf (sent E method url p body headers st).
Proof.
  intros H. unfold heap_wf, sent. cbn [heap].
  apply Forall_insert; [now apply heap_wf_grown|].
  apply headers_for_keys_unique. now apply heap_wf_dict_at.
Qed.

(** X5.  [request] keeps every dictionary a dictionary: when each name
    occurs once in each dictionary before the call, it does so after it,
    however the call ends.  What the caller already had under one of the
    names that [request] writes is replaced, never doubled. *)
Theorem request_keeps_keys_unique E self method uri params body headers auth st :
  valid_ref params st ->
  valid_ref headers st ->
  heap_wf st ->
  heap_wf (snd (request E self method uri params body headers auth st)).
Proof.
  intros Hp Hh Hwf.
  assert (Hpre : NoDup (keys (dict_update (dict_at params st) (auth_fields E self)))).
  { apply dict_update_keys_unique. now apply heap_wf_dict_at. }
  destruct (request_cases E self method uri params body headers auth st Hp Hh)
    as [[e [_ Hrun]]|[[_ [e [_ Hrun]]]|[url [p [st1 [_ [Hrun [_ [_ Hst1]]]]]]]]];
    rewrite Hrun; cbn [snd].
  - exact Hwf.
  - now apply heap_wf_signed_state.
  - apply heap_wf_sent.
    destruct Hst1 as [[_ [_ ->]]|[_ [signature [_ [_ ->]]]]]; [exact Hwf|].
    apply heap_wf_signed_state; [exact Hwf|]. now apply dict_set_keys_unique.
Qed.

Lemma with_headers_wf : heap_wf with_headers.
Proof.
  unfold heap_wf, with_headers. cbn [heap].
  repeat constructor; cbn; rewrite ?list_elem_of_In; cbn; intuition discriminate.
Qed.

Lemma request_keeps_keys_unique_witness :
  heap_wf (snd (request demo hb "POST" "/v1/order/orders/place" (Some 0%nat) order_body
                  (Some 1%nat) true with_headers)).
Proof.
  apply (request_keeps_keys_unique demo hb "POST" "/v1/order/orders/place" (Some 0%nat)
           order_body (Some 1%nat) true with_headers with_headers_valid).
  - now eexists.
  - exact with_headers_wf.
Defined.

(** ** The body *)

Lemma request_body_free E self method uri params body body' headers auth st :
  valid_ref params st ->
  valid_ref headers st ->
  let run := request E self method uri params body headers auth st in
  let run' := request E self method uri params body' headers auth st in
  heap (snd run) = heap (snd run')
  /\ map call_line (calls (snd run)) = map call_line (calls (snd run')).
Proof.
  intros Hp Hh run run'.
  destruct (resolved_url E self uri) as [url0|e0] eqn:Hu0.
  2:{ unfold run, run'.
      rewrite (request_unresolved E self method uri params body headers auth st e0 Hu0),
        (request_unresolved E self method uri params body' headers auth st e0 Hu0).
      now split. }
  destruct (request_cases E self method uri params body headers auth st Hp Hh)
    as [[e [He _]]|[[Ha [e [Hs Hrun]]]|[url [p [st1 [Hu [Hrun [_ [_ Hst1]]]]]]]]];
    [congruence| |];
    (destruct (request_cases E self method uri params body' headers auth st Hp Hh)
      as [[e' [He' _]]|[[Ha' [e' [Hs' Hrun']]]
                        |[url' [p' [st1' [Hu' [Hrun' [_ [_ Hst1']]]]]]]]];
     [congruence| |]);
    fold run in Hrun; fold run' in Hrun'; rewrite Hrun, Hrun'; cbn [snd].
  - now split.
  - exfalso. destruct Hst1' as [[Hf _]|[_ [s [Hs2 _]]]]; congruence.
  - exfalso. destruct Hst1 as [[Hf _]|[_ [s [Hs2 _]]]]; congruence.
  - assert (Heq : url' = url /\ p' = p /\ st1' = st1).
    { split; [congruence|].
      destruct Hst1 as [[Hf [-> ->]]|[Ht [s [Hs [-> ->]]]]];
        destruct Hst1' as [[Hf' [-> ->]]|[Ht' [s' [Hs' [-> ->]]]]];
        try congruence; try now split.
      rewrite Hs in Hs'. injection Hs' as <-. now split. }
    destruct Heq as [-> [-> ->]]. unfold sent. cbn [heap calls].
    split; [reflexivity|]. rewrite !map_app. reflexivity.
Qed.

(** X6.  The body takes no part in authentication: two requests that differ
    in the body alone leave the same dictionaries and make the same call
    apart from the data, so with the same signature; and a method other than
    [GET] does send the body. *)
Theorem request_body_not_signed E self method uri params body body' headers auth st :
  valid_ref params st ->
  valid_ref headers st ->
  let run := request E self method uri params body headers auth st in
  let run' := request E self method uri params body' headers auth st in
  heap (snd run) = heap (snd run')
  /\ map call_line (calls (snd run)) = map call_line (calls (snd run'))
  /\ (method <> "GET" ->
      forall call, calls (snd run) = calls st ++ [call] -> fc_data call = Some body).
Proof.
  intros Hp Hh run run'.
  destruct (request_body_free E self method uri params body body' headers auth st Hp Hh)
    as [H1 H2].
  split; [exact H1|]. split; [exact H2|].
  intros Hne call Hc.
  destruct (request_shape E self method uri params body headers st Hp Hh auth)
    as [[e [_ [Hc0 _]]]|[call0 [Hc0 [_ [_ [_ [Hd _]]]]]]]; fold run in Hc0; rewrite Hc0 in Hc.
  - now apply calls_not_grown in Hc.
  - apply app_inj_tail in Hc as [_ <-]. rewrite Hd. unfold transport_data.
    destruct (String.eqb_spec method "GET"); congruence.
Qed.

Lemma request_body_not_signed_witness :
  let run := request demo hb "POST" "/v1/order/orders/place" None order_body None true init in
  let run' := request demo hb "POST" "/v1/order/orders/place" None PNone None true init in
  heap (snd run) = heap (snd run')
  /\ map call_line (calls (snd run)) = map call_line (calls (snd run'))
  /\ ("POST" <> "GET" ->
      forall call, calls (snd run) = calls init ++ [call] -> fc_data call = Some order_body).
Proof.
  exact (request_body_not_signed demo hb "POST" "/v1/order/orders/place" None order_body PNone
           None true init I I).
Defined.

(** ** A mapping used twice *)

Lemma auth_fields_keep_signature E self d :
  dict_get "Signature" (dict_update d (auth_fields E self)) = dict_get "Signature" d.
Proof.
  unfold dict_update, auth_fields. cbn [fold_left fst snd].
  now rewrite !dict_get_set_ne by discriminate.
Qed.

(** X7.  A mapping that has been through an authenticated [request] keeps
    its [Signature].  When the caller passes the same object to a second
    authenticated [request], the old signature is still in the mapping when
    the new one is computed: the second signature covers the first one,
    which is then replaced by it in the mapping that is sent. *)
Theorem request_reuse_signs_old_signature
    E E' self method uri body method' uri' body' l d0 st :
  heap st !! l = Some d0 ->
  d0 <> [] ->
  let run1 := request E self method uri (Some l) body None true st in
  let run2 := request E' self method' uri' (Some l) body' None true (snd run1) in
  forall call1 call2,
    calls (snd run1) = calls st ++ [call1] ->
    calls (snd run2) = calls (snd run1) ++ [call2] ->
    exists m1 s1 s2,
      fc_params call1 = Some (l, m1)
      /\ dict_get "Signature" m1 = Some (VStr s1)
      /\ dict_get "Signature" (dict_update m1 (auth_fields E' self)) = Some (VStr s1)
      /\ generate_signature self method' (dict_update m1 (auth_fields E' self)) uri' = Ok s2
      /\ fc_params call2
         = Some (l, dict_set "Signature" (VStr s2) (dict_update m1 (auth_fields E' self))).
Proof.
  intros Hl Hne run1 run2 call1 call2 Hc1 Hc2.
  assert (Hp : valid_ref (Some l) st) by (now exists d0).
  assert (Hsep : forall l0 : loc, Some l = Some l0 -> @None loc <> Some l0)
    by (intros; discriminate).
  destruct (chosen_kept l d0 st Hl Hne) as [Hch [Hda _]].
  (* the first call *)
  destruct (resolved_url E self uri) as [url1|e] eqn:Hu1;
    [|now apply (request_unresolved_calls E self method uri (Some l) body None st
                   true e call1 Hu1) in Hc1].
  pose proof (request_auth_sent E self method uri (Some l) body None st Hp I url1 Hu1 Hsep)
    as H1.
  cbv zeta in H1. fold run1 in H1. rewrite Hda, Hch in H1.
  set (pre1 := dict_update d0 (auth_fields E self)) in *.
  destruct (generate_signature self method pre1 uri) as [s1|e] eqn:Hs1; cycle 1.
  { destruct H1 as [_ H1]. rewrite H1 in Hc1. now apply calls_not_grown in Hc1. }
  destruct H1 as [c1 [Hc1' [_ Hp1]]]. rewrite Hc1' in Hc1.
  apply app_inj_tail in Hc1 as [_ ->].
  set (m1 := dict_set "Signature" (VStr s1) pre1) in *.
  (* the caller's object after it *)
  assert (Hl1 : heap (snd run1) !! l = Some m1).
  { unfold run1.
    pose proof (request_auth_run E self method uri (Some l) body None st url1 Hu1 Hp I)
      as Hrun.
    cbv zeta in Hrun. rewrite Hda, Hch in Hrun. fold pre1 in Hrun. rewrite Hs1 in Hrun.
    fold m1 in Hrun. rewrite Hrun. cbn [snd].
    apply lookup_lt_Some in Hl. pose proof (grown_length (Some l) st) as Hg.
    rewrite sent_other; [|cbn [heap]; rewrite length_insert; lia|discriminate].
    cbn [heap]. apply list_lookup_insert_eq. lia. }
  assert (Hm1 : m1 <> []) by apply dict_set_nonempty.
  assert (Hp' : valid_ref (Some l) (snd run1)) by (now exists m1).
  destruct (chosen_kept l m1 (snd run1) Hl1 Hm1) as [Hch' [Hda' _]].
  (* the second call *)
  destruct (resolved_url E' self uri') as [url2|e] eqn:Hu2;
    [|now apply (request_unresolved_calls E' self method' uri' (Some l) body' None
                   (snd run1) true e call2 Hu2) in Hc2].
  pose proof (request_auth_sent E' self method' uri' (Some l) body' None (snd run1)
                Hp' I url2 Hu2 Hsep) as H2.
  cbv zeta in H2. fold run2 in H2. rewrite Hda', Hch' in H2.
  destruct (generate_signature self method' (dict_update m1 (auth_fields E' self)) uri')
    as [s2|e] eqn:Hs2; cycle 1.
  { destruct H2 as [_ H2]. rewrite H2 in Hc2. now apply calls_not_grown in Hc2. }
  destruct H2 as [c2 [Hc2' [_ Hp2]]]. rewrite Hc2' in Hc2.
  apply app_inj_tail in Hc2 as [_ ->].
  exists m1, s1, s2.
  split; [exact Hp1|]. split; [apply dict_get_set_eq|].
  split; [rewrite auth_fields_keep_signature; apply dict_get_set_eq|].
  split; [exact Hs2|exact Hp2].
Qed.

Lemma reused_run :
  calls (snd (request demo hb "GET" "/v1/order/orders" (Some 0%nat) PNone None true
                (snd (request demo hb "GET" "/v1/order/orders" (Some 0%nat) PNone None true
                        placed))))
  = [placed_call; reused_call].
Proof. vm_compute. reflexivity. Qed.

Lemma request_reuse_signs_old_signature_witness :
  exists m1 s1 s2,
    fc_params placed_call = Some (0%nat, m1)
    /\ dict_get "Signature" m1 = Some (VStr s1)
    /\ dict_get "Signature" (dict_update m1 (auth_fields demo hb)) = Some (VStr s1)
    /\ generate_signature hb "GET" (dict_update m1 (auth_fields demo hb)) "/v1/order/orders"
       = Ok s2
    /\ fc_params reused_call
       = Some (0%nat, dict_set "Signature" (VStr s2) (dict_update m1 (auth_fields demo hb))).
Proof.
  apply (request_reuse_signs_old_signature demo demo hb "GET" "/v1/order/orders" PNone
           "GET" "/v1/order/orders" PNone 0%nat [("symbol", VStr "btcusdt")] placed eq_refl).
  - discriminate.
  - rewrite placed_run. reflexivity.
  - rewrite reused_run, placed_run. reflexivity.
Defined.

(** The second signature is not the one that the mapping without the old
    [Signature] would get. *)
Example reused_signature_is_stale :
  option_map (fun p => dict_get "Signature" (snd p)) (fc_params reused_call)
  <> option_map (fun p => dict_get "Signature" (snd p)) (fc_params placed_call)
  /\ generate_signature hb "GET"
       (dict_remove "Signature" (dict_at (Some 0%nat)
          (snd (request demo hb "GET" "/v1/order/orders" (Some 0%nat) PNone None true placed))))
       "/v1/order/orders"
     = Ok "ZnLUgt395V/wWuZXfaAzsqyjJO/rgWfLyt5EgWWIAbA=".
Proof. split; [discriminate|]. vm_compute. reflexivity. Qed.

(** ** A reply that is no envelope *)

(** X8.  Once the transport has answered without an error, a body that is
    not an envelope makes [request] raise, after the call has been made: a
    [TypeError] for a body that is neither a dictionary nor text, the
    exception of [json.loads] for text that it does not decode, an
    [AttributeError] for text that decodes to something else than a
    dictionary.  None of these is returned as an error value. *)
Theorem request_raises_after_call E self method uri params body headers auth st call :
  valid_ref params st ->
  valid_ref headers st ->
  let run := request E self method uri params body headers auth st in
  calls (snd run) = calls st ++ [call] ->
  truthy (snd (fetch E call)) = false ->
  match fst (fetch E call) with
  | PDict _ => exists r, fst run = Ok r
  | PScalar (VStr s) =>
      match json_loads E s with
      | Ok (PDict _) => exists r, fst run = Ok r
      | Ok _ => fst run = Raise AttributeError
      | Raise e => fst run = Raise e
      end
  | _ => fst run = Raise TypeError
  end.
Proof.
  intros Hp Hh run Hcall Herr.
  destruct (request_shape E self method uri params body headers st Hp Hh auth)
    as [[e [_ [Hc _]]]|[call0 [Hc [Hout _]]]]; fold run in Hc; rewrite Hc in Hcall.
  { now apply calls_not_grown in Hcall. }
  apply app_inj_tail in Hcall as [_ ->]. fold run in Hout. rewrite Hout.
  unfold outcome. destruct (fetch E call) as [success error]. cbn [fst snd] in *.
  rewrite Herr. unfold decode_body.
  destruct success as [[| | |s]|l|d|m]; cbn [rbind]; try reflexivity.
  - destruct (json_loads E s) as [[v|l|d|m]|e]; cbn [rbind]; try reflexivity.
    destruct (status_not_ok d); eauto.
  - destruct (status_not_ok d); eauto.
Qed.

Lemma request_raises_after_call_witness :
  fst (request garbled hb "GET" "/market/depth" None PNone None false init)
  = Raise TypeError.
Proof.
  exact (request_raises_after_call garbled hb "GET" "/market/depth" None PNone None false init
           _ I I eq_refl eq_refl).
Defined.

(** * Further properties of [generate_signature] *)

Lemma hostname_raises url e : Urllib.hostname url = Raise e -> e = ValueError.
Proof.
  unfold Urllib.hostname, Urllib.netloc.
  destruct (Urllib.after_scheme url) as [|a s']; [discriminate|].
  destruct a as [[] [] [] [] [] [] [] []]; try discriminate.
  destruct s' as [|b tl]; [discriminate|].
  destruct b as [[] [] [] [] [] [] [] []]; try discriminate.
  destruct (xorb _ _); cbn; congruence.
Qed.

(** X9.  Whether [generate_signature] returns depends on the host and the
    secret key alone, not on the method or the mapping: it returns exactly
    when the URL that names the host (the request path when absolute, the
    configured host otherwise) has a host name and the secret key is set.
    It raises [ValueError] exactly when parsing that URL does, and
    [AttributeError] exactly when there is no host name or, with a host
    name, no secret key; it raises nothing else. *)
Theorem generate_signature_returns_iff self method params request_path :
  let target := if is_absolute request_path then request_path else _host self in
  let signed := generate_signature self method params request_path in
  ((exists s, signed = Ok s) <->
   (exists h, Urllib.hostname target = Ok (Some h)) /\ (exists k, _secret_key self = Some k))
  /\ (signed = Raise ValueError <-> Urllib.hostname target = Raise ValueError)
  /\ (signed = Raise AttributeError <->
      Urllib.hostname target = Ok None
      \/ ((exists h, Urllib.hostname target = Ok (Some h)) /\ _secret_key self = None))
  /\ signed <> Raise TypeError
  /\ signed <> Raise JSONDecodeError.
Proof.
  intros target signed. unfold signed, generate_signature, signing_target.
  fold target.
  assert (Hshape :
    (if is_absolute request_path
     then (let? h := Urllib.hostname request_path in
           let? host_url := lower_attr h in
           Ok (host_url,
               ("/" ++ Str.join "/" (Str.slice_from 3 (Str.split "/" request_path)))%string))
     else (let? h := Urllib.hostname (_host self) in
           let? host_url := lower_attr h in
           Ok (host_url, request_path)))%result
    = (let? h := Urllib.hostname target in
       let? host_url := lower_attr h in
       Ok (host_url,
           if is_absolute request_path
           then ("/" ++ Str.join "/" (Str.slice_from 3 (Str.split "/" request_path)))%string
           else request_path))%result).
  { unfold target. now destruct (is_absolute request_path). }
  rewrite Hshape. clear Hshape.
  pose proof (hostname_raises target) as Hraise.
  destruct (Urllib.hostname target) as [[h|]|e]; cbn [rbind lower_attr];
    [destruct (_secret_key self) as [k|]; cbn [rbind encode_attr]| |];
    [| | |rewrite (Hraise e eq_refl)];
    repeat split; intros;
    repeat match goal with
           | H : _ /\ _ |- _ => destruct H
           | H : _ \/ _ |- _ => destruct H
           | H : exists _, _ |- _ => destruct H
           end;
    try discriminate; eauto.
Qed.

Lemma hostname_without_scheme host :
  Str.mem ":" host = false ->
  Str.startswith host "//" = false ->
  Urllib.hostname host = Ok None.
Proof.
  intros Hc Hs. unfold Urllib.hostname, Urllib.netloc, Urllib.after_scheme.
  rewrite (partition_absent _ _ Hc). cbn [andb].
  unfold Str.startswith in Hs.
  destruct host as [|a s']; [reflexivity|].
  destruct a as [[] [] [] [] [] [] [] []]; try reflexivity.
  destruct s' as [|b tl]; [reflexivity|].
  destruct b as [[] [] [] [] [] [] [] []]; try reflexivity.
  simpl in Hs. destruct tl; discriminate Hs.
Qed.

(** X10.  A client whose host is written without a scheme (no colon and no
    leading [//], as in [api.huobi.pro]) cannot sign a relative path:
    [generate_signature] raises [AttributeError] for every method and
    mapping.  When [urljoin] raises on the host and the path, [request]
    raises that, with or without authentication, and changes nothing.
    When it gives a URL, an authenticated [request] raises
    [AttributeError] before any transport call, while the same request
    without authentication is sent, to that URL. *)
Theorem request_host_without_scheme E self method uri params body headers st :
  valid_ref params st ->
  valid_ref headers st ->
  Str.mem ":" (_host self) = false ->
  Str.startswith (_host self) "//" = false ->
  is_absolute uri = false ->
  (forall m p, generate_signature self m p uri = Raise AttributeError)
  /\ match urljoin E (_host self) uri with
     | Raise e =>
         forall auth, request E self method uri params body headers auth st = (Raise e, st)
     | Ok url =>
         fst (request E self method uri params body headers true st) = Raise AttributeError
         /\ calls (snd (request E self method uri params body headers true st)) = calls st
         /\ exists call,
              calls (snd (request E self method uri params body headers false st))
              = calls st ++ [call]
              /\ fc_url call = url
     end.
Proof.
  intros Hp Hh Hc Hs Habs.
  assert (Hsig : forall m p, generate_signature self m p uri = Raise AttributeError).
  { intros m p. unfold generate_signature, signing_target.
    rewrite Habs, (hostname_without_scheme _ Hc Hs). reflexivity. }
  split; [exact Hsig|].
  assert (Hres : resolved_url E self uri = urljoin E (_host self) uri).
  { unfold resolved_url. now rewrite Habs. }
  destruct (urljoin E (_host self) uri) as [url|e].
  - pose proof (request_auth_run E self method uri params body headers st url Hres Hp Hh)
      as Hrun.
    cbv zeta in Hrun. rewrite Hsig in Hrun. rewrite Hrun. cbn [fst snd calls].
    split; [reflexivity|]. split; [reflexivity|].
    rewrite (request_plain_run E self method uri params body headers st url Hres Hp Hh).
    eexists. split; reflexivity.
  - intros auth. now apply request_unresolved.
Qed.

Lemma request_host_without_scheme_witness :
  let bare := {| _host := "api.huobi.pro"; _access_key := Some "ak";
                 _secret_key := Some "sk" |} in
  (forall m p, generate_signature bare m p "/v1/order/orders" = Raise AttributeError)
  /\ fst (request demo bare "GET" "/v1/order/orders" None PNone None true init)
     = Raise AttributeError
  /\ calls (snd (request demo bare "GET" "/v1/order/orders" None PNone None true init))
     = calls init
  /\ exists call,
       calls (snd (request demo bare "GET" "/v1/order/orders" None PNone None false init))
       = calls init ++ [call]
       /\ fc_url call = "/v1/order/orders".
Proof.
  exact (request_host_without_scheme demo
           {| _host := "api.huobi.pro"; _access_key := Some "ak"; _secret_key := Some "sk" |}
           "GET" "/v1/order/orders" None PNone None init I I eq_refl eq_refl eq_refl).
Defined.

(** * The endpoint methods *)

(** ** A query with its own mapping *)

Lemma request_query_run E self uri q st :
  q <> [] ->
  request E self "GET" uri (Some (List.length (heap st))) PNone None false
    {| heap := heap st ++ [q]; calls := calls st |}
  = match resolved_url E self uri with
    | Ok url =>
        (outcome E (fetch E (query_call E url q st)),
         {| heap := heap st ++ [q; form_headers E];
            calls := calls st ++ [query_call E url q st] |})
    | Raise e => (Raise e, {| heap := heap st ++ [q]; calls := calls st |})
    end.
Proof.
  intros Hq.
  set (st1 := {| heap := heap st ++ [q]; calls := calls st |}).
  destruct (resolved_url E self uri) as [url|e] eqn:Hu;
    [|now apply request_unresolved].
  assert (Hl : heap st1 !! List.length (heap st) = Some q).
  { unfold st1. cbn [heap]. rewrite lookup_app_r by lia. now rewrite Nat.sub_diag. }
  assert (Hp : valid_ref (Some (List.length (heap st))) st1) by (now exists q).
  rewrite (request_plain_run E self "GET" uri _ PNone None st1 url Hu Hp I).
  assert (Hcall : call_of E "GET" url (Some (List.length (heap st)))
                    PNone None st1 = query_call E url q st).
  { unfold call_of, query_call.
    unfold chosen, grown. cbn [dict_at heap st1 transport_method transport_data String.eqb].
    rewrite length_app. cbn [List.length]. rewrite Nat.add_1_r.
    f_equal. rewrite list_lookup_insert_ne by lia.
    rewrite lookup_app_l by (rewrite length_app; cbn; lia).
    change (heap st ++ [q]) with (heap st1). now rewrite Hl. }
  rewrite Hcall. f_equal. unfold sent. rewrite Hcall. f_equal.
  unfold chosen, grown. cbn [dict_at heap st1].
  rewrite <- app_assoc. cbn [app].
  rewrite insert_app_r_alt by (rewrite length_app; cbn; lia).
  rewrite length_app. cbn [List.length].
  replace (List.length (heap st) + 1 - List.length (heap st))%nat with 1%nat by lia.
  reflexivity.
Qed.

(** ** A signed request that starts from no mapping *)

Lemma request_signed E self uri body st :
  request E self "POST" uri None body None true st
  = match resolved_url E self uri with
    | Raise e => (Raise e, st)
    | Ok url =>
        match generate_signature self "POST" (auth_fields E self) uri with
        | Ok signature =>
            (outcome E (fetch E (signed_call E self url body signature st)),
             {| heap := heap st ++ [signed_query E self signature; json_headers E];
                calls := calls st ++ [signed_call E self url body signature st] |})
        | Raise e =>
            (Raise e, {| heap := heap st ++ [auth_fields E self]; calls := calls st |})
        end
    end.
Proof.
  destruct (resolved_url E self uri) as [url|e0] eqn:Hu;
    [|now apply request_unresolved].
  pose proof (request_auth_run E self "POST" uri None body None st url Hu I I) as Hrun.
  cbv zeta in Hrun.
  change (dict_update (dict_at None st) (auth_fields E self)) with (auth_fields E self) in Hrun.
  rewrite Hrun. clear Hrun.
  unfold chosen, grown. cbn [dict_at heap].
  destruct (generate_signature self "POST" (auth_fields E self) uri) as [signature|e].
  - cbv zeta.
    assert (Hins : <[List.length (heap st) :=
                       dict_set "Signature" (VStr signature) (auth_fields E self)]>
                     (heap st ++ [[]])
                   = heap st ++ [signed_query E self signature]).
    { rewrite insert_app_r_alt by lia. now rewrite Nat.sub_diag. }
    rewrite Hins.
    set (st2 := {| heap := heap st ++ [signed_query E self signature]; calls := calls st |}).
    assert (Hcall : call_of E "POST" url (Some (List.length (heap st)))
                      body None st2 = signed_call E self url body signature st).
    { unfold call_of, signed_call.
      unfold chosen, grown. cbn [dict_at heap st2 transport_method transport_data String.eqb].
      rewrite length_app. cbn [List.length]. rewrite Nat.add_1_r.
      f_equal. rewrite list_lookup_insert_ne by lia.
      rewrite lookup_app_l by (rewrite length_app; cbn; lia).
      rewrite lookup_app_r by lia. now rewrite Nat.sub_diag. }
    rewrite Hcall. unfold sent. rewrite Hcall. f_equal. f_equal.
    unfold chosen, grown. cbn [dict_at heap st2].
    rewrite <- app_assoc. cbn [app].
    rewrite insert_app_r_alt by (rewrite length_app; cbn; lia).
    rewrite length_app. cbn [List.length].
    replace (List.length (heap st) + 1 - List.length (heap st))%nat with 1%nat by lia.
    reflexivity.
  - f_equal. f_equal. rewrite insert_app_r_alt by lia. now rewrite Nat.sub_diag.
Qed.

(** X11.  An authenticated [POST] for which the caller passes neither
    mapping nor headers, as every order method makes it.  When the URL
    cannot be made (the URI is relative and [urljoin] raises), [request]
    raises that: no call is made and no object is created.  Otherwise, when
    signing returns, one call is made, to the resolved URL, that carries the
    body as data, a new mapping that holds exactly [AccessKeyId],
    [SignatureMethod], [SignatureVersion], [Timestamp] and [Signature], in
    this order, and new headers with [Accept], [Content-type] and
    [User-Agent]; the signature is the one of the first four entries.  When
    signing raises, no call is made, and all that is left is a new mapping
    with the four entries that nothing refers to. *)
Theorem request_signed_run E self uri body st :
  request E self "POST" uri None body None true st
  = match (if is_absolute uri then Ok uri else urljoin E (_host self) uri) with
    | Raise e => (Raise e, st)
    | Ok url =>
        match generate_signature self "POST" (auth_fields E self) uri with
        | Ok signature =>
            let mapping :=
              [("AccessKeyId", value_of_key (_access_key self));
               ("SignatureMethod", VStr "HmacSHA256");
               ("SignatureVersion", VStr "2");
               ("Timestamp", VStr (strftime (utcnow E)));
               ("Signature", VStr signature)] in
            let headers :=
              [("Accept", VStr "application/json");
               ("Content-type", VStr "application/json");
               ("User-Agent", VStr (USER_AGENT E))] in
            let call :=
              {| fc_method := "POST";
                 fc_url := url;
                 fc_params := Some (List.length (heap st), mapping);
                 fc_data := Some body;
                 fc_headers := (S (List.length (heap st)), headers);
                 fc_timeout := 10 |} in
            (outcome E (fetch E call),
             {| heap := heap st ++ [mapping; headers]; calls := calls st ++ [call] |})
        | Raise e =>
            (Raise e, {| heap := heap st ++ [auth_fields E self]; calls := calls st |})
        end
    end.
Proof. rewrite request_signed. reflexivity. Qed.

Lemma alloc_run d st :
  alloc d st = (Ok (List.length (heap st)), {| heap := heap st ++ [d]; calls := calls st |}).
Proof. reflexivity. Qed.

Lemma modify_last f d st :
  modify (List.length (heap st)) f {| heap := heap st ++ [d]; calls := calls st |}
  = (Ok tt, {| heap := heap st ++ [f d]; calls := calls st |}).
Proof.
  unfold modify. cbn [heap calls].
  rewrite lookup_app_r by lia. rewrite Nat.sub_diag. cbn.
  f_equal. f_equal. rewrite insert_app_r_alt by lia. now rewrite Nat.sub_diag.
Qed.

(** The signature of a relative path under a host with a name and a key. *)
Lemma generate_signature_relative self method params uri h k :
  is_absolute uri = false ->
  Urllib.hostname (_host self) = Ok (Some h) ->
  _secret_key self = Some k ->
  generate_signature self method params uri
  = Ok (sign (Str.encode k) (Str.encode (payload_of method (Str.lower h) uri params))).
Proof.
  intros Habs Hh Hk. unfold generate_signature.
  rewrite (signing_target_relative self uri h Habs Hh). cbn [rbind]. now rewrite Hk.
Qed.

(** ** Market data *)

(** X12.  [get_orderbook] builds a new mapping, [symbol], [type] =
    [step0] and, only when [depth] is truthy, [depth] (a depth of [None],
    [0] or the empty string is left out), and asks for [/market/depth]
    under the configured host.  When [urljoin] gives the URL, it makes one
    call and does not raise before it: a [GET] of that URL, without body
    and without signature, with the mapping and new headers.  When
    [urljoin] raises, [get_orderbook] raises that, no call is made and the
    mapping is all that is left.  The credentials are not read. *)
Theorem get_orderbook_call E self symbol depth st :
  let mapping :=
    [("symbol", symbol); ("type", VStr "step0")]
    ++ (if is_true depth then [("depth", depth)] else []) in
  let headers :=
    [("Content-type", VStr "application/x-www-form-urlencoded");
     ("User-Agent", VStr (USER_AGENT E))] in
  get_orderbook E self symbol depth st
  = match urljoin E (_host self) "/market/depth" with
    | Ok url =>
        let call :=
          {| fc_method := "GET";
             fc_url := url;
             fc_params := Some (List.length (heap st), mapping);
             fc_data := None;
             fc_headers := (S (List.length (heap st)), headers);
             fc_timeout := 10 |} in
        (outcome E (fetch E call),
         {| heap := heap st ++ [mapping; headers]; calls := calls st ++ [call] |})
    | Raise e => (Raise e, {| heap := heap st ++ [mapping]; calls := calls st |})
    end.
Proof.
  cbv zeta. unfold get_orderbook. step (alloc_run _ st).
  destruct (is_true depth).
  - step (modify_last (dict_set "depth" depth) _ st).
    now rewrite request_query_run.
  - rewrite (bind_ok _ _ _ tt _ eq_refl). now rewrite request_query_run.
Qed.

(** X13.  The other queries do the same with their own path and mapping:
    [get_klines] sends [symbol], [period] and a truthy [size] only,
    [get_etp_nav] sends [symbol], [get_etp_transaction] sends
    [transactId].  When [urljoin] gives the URL for the path under the
    configured host, each is one unsigned [GET] of that URL with a new
    mapping and new headers; when [urljoin] raises, the method raises that,
    no call is made and the new mapping is all that is left. *)
Theorem query_methods_call E self st :
  (forall symbol period size,
     let mapping := [("symbol", symbol); ("period", period)]
                    ++ (if is_true size then [("size", size)] else []) in
     get_klines E self symbol period size st
     = match urljoin E (_host self) "/market/history/kline" with
       | Ok url =>
           let call := query_call E url mapping st in
           (outcome E (fetch E call),
            {| heap := heap st ++ [mapping; form_headers E];
               calls := calls st ++ [call] |})
       | Raise e => (Raise e, {| heap := heap st ++ [mapping]; calls := calls st |})
       end)
  /\ (forall symbol,
        let mapping := [("symbol", symbol)] in
        get_etp_nav E self symbol st
        = match urljoin E (_host self) "/market/etp" with
          | Ok url =>
              let call := query_call E url mapping st in
              (outcome E (fetch E call),
               {| heap := heap st ++ [mapping; form_headers E];
                  calls := calls st ++ [call] |})
          | Raise e => (Raise e, {| heap := heap st ++ [mapping]; calls := calls st |})
          end)
  /\ (forall transactId,
        let mapping := [("transactId", transactId)] in
        get_etp_transaction E self transactId st
        = match urljoin E (_host self) "/v2/etp/transaction" with
          | Ok url =>
              let call := query_call E url mapping st in
              (outcome E (fetch E call),
               {| heap := heap st ++ [mapping; form_headers E];
                  calls := calls st ++ [call] |})
          | Raise e => (Raise e, {| heap := heap st ++ [mapping]; calls := calls st |})
          end).
Proof.
  split; [|split].
  - intros symbol period size. cbv zeta. unfold get_klines. step (alloc_run _ st).
    destruct (is_true size).
    + step (modify_last (dict_set "size" size) _ st). now rewrite request_query_run.
    + rewrite (bind_ok _ _ _ tt _ eq_refl). now rewrite request_query_run.
  - intros symbol. cbv zeta. unfold get_etp_nav. step (alloc_run _ st).
    now rewrite request_query_run.
  - intros transactId. cbv zeta. unfold get_etp_transaction. step (alloc_run _ st).
    now rewrite request_query_run.
Qed.

(** ** Orders *)

Lemma relative_after_slash s : is_absolute (String "/" s) = false.
Proof. reflexivity. Qed.

(** X14.  [revoke_order] puts the order id into the path, and the path is
    signed: for a client whose host has a name and whose secret key is set,
    the one call is a [POST] to [/v1/order/orders/<id>/submitcancel] under
    the host, as [urljoin] gives it, with the id again in the body, and the
    signature is the one of [POST], the lower-cased host name, that path and
    the four authentication entries; were [urljoin] to raise, the method
    would raise that and leave everything as it was.
    An id that is not a [str] (an [int], [None])
    makes the method raise [TypeError] at once: nothing is created and no
    call is made.  [get_order_detail] builds its path in the same way, ends
    it at the id, and posts it signed. *)
Theorem revoke_order_signs_the_id E self id h k st :
  Urllib.hostname (_host self) = Ok (Some h) ->
  _secret_key self = Some k ->
  let uri := ("/v1/order/orders/" ++ id ++ "/submitcancel")%string in
  let signature :=
    sign (Str.encode k)
         (Str.encode (payload_of "POST" (Str.lower h) uri (auth_fields E self))) in
  revoke_order E self (VStr id) st
  = match urljoin E (_host self) uri with
    | Ok url =>
        let call :=
          {| fc_method := "POST";
             fc_url := url;
             fc_params := Some (List.length (heap st), signed_query E self signature);
             fc_data := Some (PDict [("order_id", PScalar (VStr id))]);
             fc_headers := (S (List.length (heap st)), json_headers E);
             fc_timeout := 10 |} in
        (outcome E (fetch E call),
         {| heap := heap st ++ [signed_query E self signature; json_headers E];
            calls := calls st ++ [call] |})
    | Raise e => (Raise e, st)
    end
  /\ (forall x, (forall s, x <> VStr s) ->
        revoke_order E self x st = (Raise TypeError, st)
        /\ get_order_detail E self x st = (Raise TypeError, st))
  /\ get_order_detail E self (VStr id) st
     = request E self "POST" ("/v1/order/orders/" ++ id)%string None
         (PDict [("order_id", PScalar (VStr id))]) None true st.
Proof.
  intros Hh Hk uri signature. split; [|split; [|reflexivity]].
  - unfold revoke_order. cbn [str_add rbind].
    rewrite (bind_ok _ _ _ uri st eq_refl).
    rewrite request_signed.
    rewrite (generate_signature_relative self "POST" _ uri h k
               (relative_after_slash _) Hh Hk).
    change (resolved_url E self uri) with (urljoin E (_host self) uri).
    now destruct (urljoin E (_host self) uri).
  - intros x Hx. unfold revoke_order, get_order_detail.
    destruct x as [| | |s]; try (split; reflexivity). now destruct (Hx s).
Qed.

Lemma revoke_order_signs_the_id_witness :
  let uri := "/v1/order/orders/59378/submitcancel" in
  let signature :=
    sign (Str.encode "sk")
         (Str.encode (payload_of "POST" (Str.lower "api.huobi.pro") uri (auth_fields demo hb))) in
  let call :=
    {| fc_method := "POST";
       fc_url := "https://api.huobi.pro/v1/order/orders/59378/submitcancel";
       fc_params := Some (List.length (heap init), signed_query demo hb signature);
       fc_data := Some (PDict [("order_id", PScalar (VStr "59378"))]);
       fc_headers := (S (List.length (heap init)), json_headers demo);
       fc_timeout := 10 |} in
  revoke_order demo hb (VStr "59378") init
  = (outcome demo (fetch demo call),
     {| heap := heap init ++ [signed_query demo hb signature; json_headers demo];
        calls := calls init ++ [call] |})
  /\ (forall x, (forall s, x <> VStr s) ->
        revoke_order demo hb x init = (Raise TypeError, init)
        /\ get_order_detail demo hb x init = (Raise TypeError, init))
  /\ get_order_detail demo hb (VStr "59378") init
     = request demo hb "POST" ("/v1/order/orders/" ++ "59378")%string None
         (PDict [("order_id", PScalar (VStr "59378"))]) None true init.
Proof.
  exact (revoke_order_signs_the_id demo hb "59378" "api.huobi.pro" "sk" init eq_refl eq_refl).
Defined.

(** X15.  [transfer_between_spot_future] does not use the configured host:
    whatever the client's host is, with a secret key set it makes one
    [POST] to [https://api.huobi.pro/v1/futures/transfer] and signs
    [POST], [api.huobi.pro], [/v1/futures/transfer] and the four
    authentication entries; the currency, the amount and the direction
    travel in the body. *)
Theorem transfer_ignores_configured_host E self k symbol amount type_s st :
  _secret_key self = Some k ->
  let signature :=
    sign (Str.encode k)
         (Str.encode (payload_of "POST" "api.huobi.pro" "/v1/futures/transfer"
                        (auth_fields E self))) in
  let call :=
    {| fc_method := "POST";
       fc_url := "https://api.huobi.pro/v1/futures/transfer";
       fc_params := Some (List.length (heap st), signed_query E self signature);
       fc_data := Some (PDict [("currency", PScalar symbol); ("amount", PScalar amount);
                               ("type", PScalar type_s)]);
       fc_headers := (S (List.length (heap st)), json_headers E);
       fc_timeout := 10 |} in
  transfer_between_spot_future E self symbol amount type_s st
  = (outcome E (fetch E call),
     {| heap := heap st ++ [signed_query E self signature; json_headers E];
        calls := calls st ++ [call] |}).
Proof.
  intros Hk signature call. unfold transfer_between_spot_future. cbv zeta.
  rewrite request_signed.
  assert (Hs : generate_signature self "POST" (auth_fields E self)
                 "https://api.huobi.pro/v1/futures/transfer" = Ok signature).
  { unfold generate_signature.
    change (signing_target self "https://api.huobi.pro/v1/futures/transfer")
      with (@Ok (string * string) ("api.huobi.pro", "/v1/futures/transfer")).
    cbn [rbind]. now rewrite Hk. }
  rewrite Hs. reflexivity.
Qed.

Lemma transfer_ignores_configured_host_witness :
  let nowhere := {| _host := "nowhere"; _access_key := Some "ak"; _secret_key := Some "sk" |} in
  let signature :=
    sign (Str.encode "sk")
         (Str.encode (payload_of "POST" "api.huobi.pro" "/v1/futures/transfer"
                        (auth_fields demo nowhere))) in
  let call :=
    {| fc_method := "POST";
       fc_url := "https://api.huobi.pro/v1/futures/transfer";
       fc_params := Some (List.length (heap init), signed_query demo nowhere signature);
       fc_data := Some (PDict [("currency", PScalar (VStr "btc"));
                               ("amount", PScalar (VStr "0.1"));
                               ("type", PScalar (VStr "pro-to-futures"))]);
       fc_headers := (S (List.length (heap init)), json_headers demo);
       fc_timeout := 10 |} in
  transfer_between_spot_future demo nowhere (VStr "btc") (VStr "0.1") (VStr "pro-to-futures")
    init
  = (outcome demo (fetch demo call),
     {| heap := heap init ++ [signed_query demo nowhere signature; json_headers demo];
        calls := calls init ++ [call] |}).
Proof.
  exact (transfer_ignores_configured_host demo
           {| _host := "nowhere"; _access_key := Some "ak"; _secret_key := Some "sk" |}
           "sk" (VStr "btc") (VStr "0.1") (VStr "pro-to-futures") init eq_refl).
Defined.

(** ** Names that are bound nowhere *)

(** X16.  [create_order] stops at an unbound name whenever [source] is
    truthy, as its default [spot-api] is, or [operater] is: it then raises
    [NameError] before anything is created or sent.  It reaches [request]
    only with a falsy [source] and a falsy [operater]; the body then holds
    the four required fields and the truthy ones among [client_order_id],
    [price] and [stop_price], and never a [source] or an [operator]. *)
Theorem create_order_unbound_names
    E self account_id symbol _type amount price source client_order_id stop_price operater st :
  let run := create_order E self account_id symbol _type amount price source
               client_order_id stop_price operater st in
  let body :=
    [("account-id", PScalar account_id); ("symbol", PScalar symbol);
     ("type", PScalar _type); ("amount", PScalar amount)]
    ++ (if is_true client_order_id
        then [("client_order_id", PScalar client_order_id)] else [])
    ++ (if is_true price then [("price", PScalar price)] else [])
    ++ (if is_true stop_price then [("stop_price", PScalar stop_price)] else []) in
  (is_true source = true -> run = (NameError "souce", st))
  /\ (is_true source = false -> is_true operater = true ->
      run = (NameError "operator", st))
  /\ (is_true source = false -> is_true operater = false ->
      run = finish (request E self "POST" "/v1/order/orders/place" None (PDict body) None
                      true) st
      /\ pdict_get "source" body = None
      /\ pdict_get "operator" body = None).
Proof.
  intros run body. unfold run, create_order. split; [|split].
  - intros ->. reflexivity.
  - intros -> ->. reflexivity.
  - intros -> ->. unfold body.
    destruct (is_true client_order_id), (is_true price), (is_true stop_price);
      repeat split; reflexivity.
Qed.

Lemma create_order_unbound_names_witness :
  create_order demo hb (VStr "spot") (VStr "btcusdt") (VStr "buy-market") (VStr "1")
    VNone (VStr "spot-api") VNone VNone VNone init
  = (NameError "souce", init).
Proof.
  exact (proj1 (create_order_unbound_names demo hb (VStr "spot") (VStr "btcusdt")
                  (VStr "buy-market") (VStr "1") VNone (VStr "spot-api") VNone VNone VNone
                  init) eq_refl).
Defined.

Lemma str_items_raises xs e : str_items xs = Raise e -> e = TypeError.
Proof.
  induction xs as [|x xs IH]; cbn [str_items]; [discriminate|].
  destruct x as [| | |s]; try congruence.
  destruct (str_items xs) as [l|e']; cbn [rbind]; [discriminate|].
  intros H. apply IH. congruence.
Qed.

Lemma join_list_raises sep xs e : join_list sep xs = Raise e -> e = TypeError.
Proof.
  unfold join_list. destruct (str_items xs) as [l|e'] eqn:Hs; cbn [rbind]; [discriminate|].
  intros H. apply (str_items_raises xs). congruence.
Qed.

Lemma join_chars_raises sep x e : join_chars sep x = Raise e -> e = TypeError.
Proof. destruct x; cbn; congruence. Qed.

Lemma builds_ret st : builds st (ret tt).
Proof. intros d. exists d. now left. Qed.

Lemma builds_modify st f : builds st (modify (List.length (heap st)) f).
Proof. intros d. exists (f d). left. apply modify_last. Qed.

Lemma builds_join st (r : result string) k :
  (forall e, r = Raise e -> e = TypeError) ->
  builds st (s <- lift r ;; modify (List.length (heap st)) (dict_set k (VStr s)))%M.
Proof.
  intros Hr d. destruct r as [s|e].
  - exists (dict_set k (VStr s) d). left. unfold bind, lift. apply modify_last.
  - exists d. right. now rewrite (Hr e eq_refl).
Qed.

Lemma builds_bind st m1 (m2 : unit -> M unit) :
  builds st m1 -> (forall u, builds st (m2 u)) -> builds st (bind m1 m2).
Proof.
  intros H1 H2 d. destruct (H1 d) as [d1 [Hd|Hd]].
  - destruct (H2 tt d1) as [d2 [Hd2|Hd2]]; exists d2; [left|right];
      now rewrite (bind_ok _ _ _ _ _ Hd).
  - exists d1. right. now rewrite (bind_raise _ _ _ _ _ Hd).
Qed.

(** X17.  Three methods can never return: [get_etp_reference] stops at the
    unbound name [etp_code] and [create_etp] at [currency], for every
    argument, and [get_etp_transactions] either raises [TypeError] while it
    joins its arguments or stops at the unbound name [fromID].  None of
    them makes a transport call or touches an existing dictionary; at most
    a mapping that nothing refers to is left behind. *)
Theorem etp_methods_never_return E self st :
  (forall etpName,
     get_etp_reference E self etpName st
     = (NameError "etp_code", {| heap := heap st ++ [[]]; calls := calls st |}))
  /\ (forall etpName value curency,
        create_etp E self etpName value curency st = (NameError "currency", st))
  /\ (forall etpNames currencies transactTypes transactStatus startTime endTime sort
             limit fromId,
        let run := get_etp_transactions E self etpNames currencies transactTypes
                     transactStatus startTime endTime sort limit fromId st in
        (fst run = NameError "fromID" \/ fst run = Raised TypeError)
        /\ exists d, snd run = {| heap := heap st ++ [d]; calls := calls st |}).
Proof.
  split; [reflexivity|]. split; [reflexivity|].
  intros etpNames currencies transactTypes transactStatus startTime endTime sort
         limit fromId run.
  unfold run, get_etp_transactions. clear run.
  step (alloc_run [("limit", limit)] st).
  match goal with
  | |- context [?m {| heap := heap st ++ [[("limit", limit)]]; calls := calls st |}] =>
      assert (Hm : builds st m)
  end.
  { repeat (apply builds_bind; [|intros _]);
      repeat match goal with
             | |- builds _ (match ?l with [] => _ | _ => _ end) => destruct l
             | |- builds _ (if ?c then _ else _) => destruct c
             end;
      first [ apply builds_ret
            | apply builds_modify
            | apply builds_join; first [apply join_list_raises | apply join_chars_raises] ]. }
  destruct (Hm [("limit", limit)]) as [d [Hd|Hd]]; rewrite Hd; cbn [fst snd];
    (split; [auto|now exists d]).
Qed.

(** ** Lists of ids *)

Lemma str_items_map ids : str_items (map VStr ids) = Ok ids.
Proof. induction ids as [|s ids IH]; cbn [map str_items]; [|rewrite IH]; reflexivity. Qed.

Lemma str_items_not_str xs x :
  In x xs -> (forall s, x <> VStr s) -> str_items xs = Raise TypeError.
Proof.
  intros Hin Hx. induction xs as [|y xs IH]; [destruct Hin|].
  cbn [str_items]. destruct Hin as [->|Hin].
  - destruct x as [| | |s]; try reflexivity. now destruct (Hx s).
  - destruct y as [| | |s]; try reflexivity. now rewrite (IH Hin).
Qed.

Lemma split_join sep ids :
  ids <> [] ->
  Forall (fun s => Str.mem sep s = false) ids ->
  Str.split sep (Str.join (String sep EmptyString) ids) = ids.
Proof.
  intros Hne Hall. unfold Str.join.
  induction Hall as [|x ids Hx Hall IH]; [congruence|].
  destruct ids as [|y ids].
  - cbn [String.concat]. now apply split_no_sep.
  - cbn [String.concat] in *. cbn [String.append].
    rewrite split_app_sep by exact Hx. f_equal. apply IH. discriminate.
Qed.

(** X18.  [revoke_orders] and [get_order_info] send their id lists as text
    joined with commas.  For lists of [str] the method is the signed [POST]
    of the joined fields; a list that is not empty and whose ids hold no
    comma is read back from its field by splitting at the commas, while the
    empty list and the list of one empty id give the same field.  An id
    that is not a [str] makes the method raise [TypeError] before anything
    is created or sent. *)
Theorem id_lists_are_joined E self st :
  (forall ids cids,
     revoke_orders E self (map VStr ids) (map VStr cids) st
     = request E self "POST" "/v1/order/orders/batchcancel" None
         (PDict [("order_id", PScalar (VStr (Str.join "," ids)));
                 ("client_order_id", PScalar (VStr (Str.join "," cids)))])
         None true st)
  /\ (forall contract_code ids cids,
        get_order_info E self contract_code (map VStr ids) (map VStr cids) st
        = request E self "POST" "/linear-swap-api/v1/swap_order_info" None
            (PDict [("contract_code", PScalar contract_code);
                    ("order_id", PScalar (VStr (Str.join "," ids)));
                    ("client_order_id", PScalar (VStr (Str.join "," cids)))])
            None true st)
  /\ (forall ids, ids <> [] -> Forall (fun s => Str.mem "," s = false) ids ->
        Str.split "," (Str.join "," ids) = ids)
  /\ Str.join "," [] = Str.join "," [EmptyString]
  /\ (forall contract_code xs ys x,
        In x (xs ++ ys) -> (forall s, x <> VStr s) ->
        revoke_orders E self xs ys st = (Raise TypeError, st)
        /\ get_order_info E self contract_code xs ys st = (Raise TypeError, st)).
Proof.
  split; [|split; [|split; [|split]]].
  - intros ids cids. unfold revoke_orders, join_list. rewrite !str_items_map.
    reflexivity.
  - intros contract_code ids cids. unfold get_order_info, join_list.
    rewrite !str_items_map. reflexivity.
  - intros ids. apply split_join.
  - reflexivity.
  - intros contract_code xs ys x Hin Hx.
    assert (H : join_list "," xs = Raise TypeError
                \/ exists s, join_list "," xs = Ok s /\ join_list "," ys = Raise TypeError).
    { unfold join_list. apply in_app_or in Hin as [Hin|Hin].
      - left. now rewrite (str_items_not_str xs x Hin Hx).
      - destruct (str_items xs) as [l|e] eqn:Hxs.
        + right. eexists. split; [reflexivity|].
          now rewrite (str_items_not_str ys x Hin Hx).
        + left. now rewrite (str_items_raises xs e Hxs). }
    unfold revoke_orders, get_order_info.
    destruct H as [->|[s [-> ->]]]; split; reflexivity.
Qed.

Lemma id_lists_are_joined_witness :
  Str.split "," (Str.join "," ["59378"; "59379"]) = ["59378"; "59379"].
Proof.
  apply (proj1 (proj2 (proj2 (id_lists_are_joined demo hb init)))).
  - discriminate.
  - repeat constructor.
Defined.

(** ** Arguments that are optional *)

(** X19.  A falsy optional argument is left out of the body, so
    [revoke_open_orders] cannot send a [size] of [0], and with nothing set
    it posts the empty body; [get_open_orders] always sends [account-id],
    [symbol] and [size], whatever they are, and the truthy ones among
    [side], [from] and [direct].  Each body lists its fields in the order
    of the code, once. *)
Theorem optional_fields_of_bodies E self st :
  (forall account_id symbols side size,
     revoke_open_orders E self account_id (map VStr symbols) side size st
     = request E self "POST" "/v1/order/orders/batchCancelOpenOrders" None
         (PDict ((if is_true account_id then [("account_id", PScalar account_id)] else [])
                 ++ match symbols with
                    | [] => []
                    | _ => [("symbol", PScalar (VStr (Str.join "," symbols)))]
                    end
                 ++ (if is_true side then [("side", PScalar side)] else [])
                 ++ (if is_true size then [("size", PScalar size)] else [])))
         None true st)
  /\ (forall account_id symbol side _from direct size,
        get_open_orders E self account_id symbol side _from direct size st
        = request E self "POST" "/v1/order/openOrders" None
            (PDict ([("account-id", PScalar account_id); ("symbol", PScalar symbol);
                     ("size", PScalar size)]
                    ++ (if is_true side then [("side", PScalar side)] else [])
                    ++ (if is_true _from then [("from", PScalar _from)] else [])
                    ++ (if is_true direct then [("direct", PScalar direct)] else [])))
            None true st).
Proof.
  split.
  - intros account_id symbols side size. unfold revoke_open_orders. cbv zeta.
    destruct symbols as [|s symbols].
    + destruct (is_true account_id), (is_true side), (is_true size); reflexivity.
    + change (map VStr (s :: symbols)) with (VStr s :: map VStr symbols).
      cbv iota. unfold join_list.
      change (str_items (VStr s :: map VStr symbols))
        with (str_items (map VStr (s :: symbols))).
      rewrite str_items_map. cbn [rbind].
      destruct (is_true account_id), (is_true side), (is_true size); reflexivity.
  - intros account_id symbol side _from direct size. unfold get_open_orders. cbv zeta.
    destruct (is_true side), (is_true _from), (is_true direct); reflexivity.
Qed.

(** X20.  What an order method is asked to do is not covered by its
    signature: [redempt_etp], [revoke_client_order], [get_open_orders] and
    [transfer_between_spot_future] make, for any two sets of arguments, the
    same call apart from the data, with the same mapping and therefore the
    same [Signature]. *)
Theorem order_arguments_not_signed E self st :
  (forall etpName currency amount etpName' currency' amount',
     map call_line (calls (snd (redempt_etp E self etpName currency amount st)))
     = map call_line (calls (snd (redempt_etp E self etpName' currency' amount' st))))
  /\ (forall id id',
        map call_line (calls (snd (revoke_client_order E self id st)))
        = map call_line (calls (snd (revoke_client_order E self id' st))))
  /\ (forall account_id symbol side _from direct size
             account_id' symbol' side' _from' direct' size',
        map call_line
          (calls (snd (get_open_orders E self account_id symbol side _from direct size st)))
        = map call_line
            (calls (snd (get_open_orders E self account_id' symbol' side' _from' direct'
                           size' st))))
  /\ (forall symbol amount type_s symbol' amount' type_s',
        map call_line
          (calls (snd (transfer_between_spot_future E self symbol amount type_s st)))
        = map call_line
            (calls (snd (transfer_between_spot_future E self symbol' amount' type_s' st)))).
Proof.
  split; [|split; [|split]]; intros;
    unfold redempt_etp, revoke_client_order, get_open_orders, transfer_between_spot_future;
    cbv zeta;
    match goal with
    | |- map call_line (calls (snd (request _ _ _ ?uri None ?b None true _))) =
         map call_line (calls (snd (request _ _ _ _ None ?b' None true _))) =>
        exact (proj2 (request_body_free E self "POST" uri None b b' None true st I I))
    end.
Qed.

(** * The encoded query *)

Lemma concat_empty_cons x xs :
  String.concat EmptyString (x :: xs) = (x ++ String.concat EmptyString xs)%string.
Proof.
  destruct xs as [|y ys]; cbn [String.concat]; [|reflexivity].
  induction x as [|c x IH]; cbn; congruence.
Qed.

Lemma string_app_assoc (a b c : string) : ((a ++ b) ++ c = a ++ (b ++ c))%string.
Proof. induction a as [|x a IH]; cbn; congruence. Qed.

Lemma string_app_nil_r (a : string) : (a ++ EmptyString)%string = a.
Proof. induction a as [|x a IH]; cbn; congruence. Qed.

Lemma concat_empty_app l1 l2 :
  String.concat EmptyString (l1 ++ l2)
  = (String.concat EmptyString l1 ++ String.concat EmptyString l2)%string.
Proof.
  induction l1 as [|x l1 IH]; [reflexivity|].
  change ((x :: l1) ++ l2) with (x :: (l1 ++ l2)).
  now rewrite !concat_empty_cons, IH, string_app_assoc.
Qed.

Lemma replace_char_app a b s t :
  Urllib.replace_char a b (s ++ t)
  = (Urllib.replace_char a b s ++ Urllib.replace_char a b t)%string.
Proof. induction s as [|c s IH]; cbn; congruence. Qed.

Lemma flat_map_string_app f s t :
  flat_map_string f (s ++ t) = (flat_map_string f s ++ flat_map_string f t)%string.
Proof.
  induction s as [|c s IH]; [reflexivity|]. cbn [String.append flat_map_string].
  now rewrite IH, string_app_assoc.
Qed.

Lemma quote_char_plain c :
  Ascii.eqb c " " = false ->
  String.concat EmptyString (map (Urllib.quote_byte EmptyString) (Str.utf8_char c))
  = quote_plus_char c.
Proof. intros H. unfold quote_plus_char. now rewrite H. Qed.

Lemma quote_char_space c :
  Urllib.replace_char " " "+"
    (String.concat EmptyString (map (Urllib.quote_byte " ") (Str.utf8_char c)))
  = quote_plus_char c.
Proof. destruct c as [[] [] [] [] [] [] [] []]; vm_compute; reflexivity. Qed.

Lemma quote_plain s :
  Str.mem " " s = false ->
  Urllib.quote s EmptyString = flat_map_string quote_plus_char s.
Proof.
  unfold Urllib.quote, Urllib.quote_from_bytes.
  induction s as [|c s IH]; [reflexivity|]. cbn [Str.mem Str.encode flat_map_string].
  intros H. apply orb_false_iff in H as [Hc Hs].
  rewrite map_app, concat_empty_app, (IH Hs).
  rewrite quote_char_plain; [reflexivity|].
  now rewrite Ascii.eqb_sym.
Qed.

Lemma quote_space s :
  Urllib.replace_char " " "+" (Urllib.quote s " ") = flat_map_string quote_plus_char s.
Proof.
  unfold Urllib.quote, Urllib.quote_from_bytes.
  induction s as [|c s IH]; [reflexivity|]. cbn [Str.encode flat_map_string].
  now rewrite map_app, concat_empty_app, replace_char_app, IH, quote_char_space.
Qed.

Lemma quote_plus_chars s : Urllib.quote_plus s = flat_map_string quote_plus_char s.
Proof.
  unfold Urllib.quote_plus. destruct (Str.mem " " s) eqn:H; cbn [negb].
  - apply quote_space.
  - now apply quote_plain.
Qed.

(** ** The timestamp in the query *)

Lemma quote_digits n z : flat_map_string quote_plus_char (digits n z) = digits n z.
Proof.
  revert z. induction n as [|n IH]; intros z; [reflexivity|].
  cbn [digits]. rewrite flat_map_string_app, IH. f_equal.
  assert (H : 0 <= z mod 10 < 10) by (apply Z.mod_pos_bound; lia).
  assert (Hc : z mod 10 = 0 \/ z mod 10 = 1 \/ z mod 10 = 2 \/ z mod 10 = 3
               \/ z mod 10 = 4 \/ z mod 10 = 5 \/ z mod 10 = 6 \/ z mod 10 = 7
               \/ z mod 10 = 8 \/ z mod 10 = 9) by lia.
  destruct Hc as [->|[->|[->|[->|[->|[->|[->|[->|[->| ->]]]]]]]]]; reflexivity.
Qed.

(** X21.  In the query that is signed and sent, the timestamp is written
    with its two colons percent-encoded as [%3A], in capitals, and
    everything else as [strftime] wrote it: the digits, the two hyphens and
    the [T]. *)
Theorem timestamp_is_percent_encoded t :
  Urllib.urlencode [("Timestamp", VStr (strftime t))]
  = ("Timestamp=" ++ digits 4 (year t) ++ "-" ++ digits 2 (month t) ++ "-"
     ++ digits 2 (day t) ++ "T" ++ digits 2 (hour t) ++ "%3A" ++ digits 2 (minute t)
     ++ "%3A" ++ digits 2 (second t))%string.
Proof.
  unfold Urllib.urlencode, Str.join. cbn [map String.concat fst snd str_of_value].
  rewrite !quote_plus_chars. unfold strftime.
  rewrite !flat_map_string_app, !quote_digits. reflexivity.
Qed.

(** ** The payload can be read back *)

Lemma unquote_quote_char c rest :
  unquote_char (quote_plus_char c ++ rest) = Some (c, rest).
Proof. destruct c as [[] [] [] [] [] [] [] []]; vm_compute; reflexivity. Qed.

Lemma quote_plus_injective s : forall s',
  Urllib.quote_plus s = Urllib.quote_plus s' -> s = s'.
Proof.
  intros s'. rewrite !quote_plus_chars. revert s'.
  induction s as [|c s IH]; intros [|c' s'] H; cbn [flat_map_string] in H.
  - reflexivity.
  - apply (f_equal unquote_char) in H. rewrite unquote_quote_char in H. discriminate.
  - apply (f_equal unquote_char) in H. rewrite unquote_quote_char in H. discriminate.
  - apply (f_equal unquote_char) in H. rewrite !unquote_quote_char in H.
    injection H as -> H. f_equal. now apply IH.
Qed.

Lemma mem_app c a b : Str.mem c (a ++ b) = Str.mem c a || Str.mem c b.
Proof.
  induction a as [|x a IH]; [reflexivity|]. cbn [String.append Str.mem].
  now rewrite IH, orb_assoc.
Qed.

Lemma quote_plus_char_marks c :
  Str.mem "=" (quote_plus_char c) = false /\ Str.mem "&" (quote_plus_char c) = false.
Proof. destruct c as [[] [] [] [] [] [] [] []]; vm_compute; split; reflexivity. Qed.

Lemma quote_plus_marks s :
  Str.mem "=" (Urllib.quote_plus s) = false /\ Str.mem "&" (Urllib.quote_plus s) = false.
Proof.
  rewrite quote_plus_chars. induction s as [|c s [IH1 IH2]]; [now split|].
  cbn [flat_map_string]. rewrite !mem_app, IH1, IH2.
  destruct (quote_plus_char_marks c) as [-> ->]. now split.
Qed.

(** Two texts that stop at the same mark: before the mark, and from it on,
    they are the same. *)
Lemma app_stop_inj c a : forall a' t t',
  Str.mem c a = false ->
  Str.mem c a' = false ->
  (t = EmptyString \/ exists u, t = String c u) ->
  (t' = EmptyString \/ exists u, t' = String c u) ->
  (a ++ t)%string = (a' ++ t')%string ->
  a = a' /\ t = t'.
Proof.
  induction a as [|x a IH]; intros a' t t' Ha Ha' Ht Ht' H.
  - destruct a' as [|y a']; [now split|]. cbn in H. exfalso.
    destruct Ht as [->|[u ->]]; [discriminate|].
    injection H as <- _. cbn in Ha'. now rewrite Ascii.eqb_refl in Ha'.
  - destruct a' as [|y a'].
    + cbn in H. exfalso. destruct Ht' as [->|[u ->]]; [discriminate|].
      injection H as -> _. cbn in Ha. now rewrite Ascii.eqb_refl in Ha.
    + cbn in H. injection H as -> H. cbn in Ha, Ha'.
      apply orb_false_iff in Ha as [_ Ha]. apply orb_false_iff in Ha' as [_ Ha'].
      destruct (IH a' t t' Ha Ha' Ht Ht' H) as [-> ->]. now split.
Qed.

Lemma app_sep_inj c a a' b b' :
  Str.mem c a = false ->
  Str.mem c a' = false ->
  (a ++ String c b)%string = (a' ++ String c b')%string ->
  a = a' /\ b = b'.
Proof.
  intros Ha Ha' H.
  destruct (app_stop_inj c a a' (String c b) (String c b') Ha Ha') as [-> Hb]; eauto.
  now injection Hb as ->.
Qed.

(** One [key=value] item of the query, and the query from its items. *)
Lemma item_injective (kv kv' : string * value) :
  (Urllib.quote_plus (fst kv) ++ "=" ++ Urllib.quote_plus (str_of_value (snd kv)))%string
  = (Urllib.quote_plus (fst kv') ++ "=" ++ Urllib.quote_plus (str_of_value (snd kv')))%string ->
  fst kv = fst kv' /\ str_of_value (snd kv) = str_of_value (snd kv').
Proof.
  intros H. cbn [String.append] in H.
  apply app_sep_inj in H as [Hk Hv]; try apply quote_plus_marks.
  split; now apply quote_plus_injective.
Qed.

Lemma item_no_amp (kv : string * value) :
  Str.mem "&"
    (Urllib.quote_plus (fst kv) ++ "=" ++ Urllib.quote_plus (str_of_value (snd kv)))
  = false.
Proof.
  rewrite !mem_app.
  rewrite (proj2 (quote_plus_marks (fst kv))).
  now rewrite (proj2 (quote_plus_marks (str_of_value (snd kv)))).
Qed.

Lemma join_cons (sep : ascii) (x : string) (xs : list string) :
  exists t, String.concat (String sep EmptyString) (x :: xs) = (x ++ t)%string
            /\ ((xs = [] /\ t = EmptyString)
                \/ (xs <> [] /\ t = String sep (String.concat (String sep EmptyString) xs))).
Proof.
  destruct xs as [|y ys].
  - exists EmptyString. cbn [String.concat]. rewrite string_app_nil_r.
    split; [reflexivity|]. now left.
  - eexists. split; [reflexivity|]. right. split; [discriminate|reflexivity].
Qed.

Lemma item_has_eq (kv : string * value) :
  Str.mem "="
    (Urllib.quote_plus (fst kv) ++ "=" ++ Urllib.quote_plus (str_of_value (snd kv)))
  = true.
Proof. rewrite mem_app. cbn. apply orb_true_r. Qed.

Lemma urlencode_injective l : forall l',
  Urllib.urlencode l = Urllib.urlencode l' ->
  map (fun kv => (fst kv, str_of_value (snd kv))) l
  = map (fun kv => (fst kv, str_of_value (snd kv))) l'.
Proof.
  unfold Urllib.urlencode, Str.join.
  set (item := fun kv : string * value =>
                 (Urllib.quote_plus (fst kv) ++ "="
                  ++ Urllib.quote_plus (str_of_value (snd kv)))%string).
  induction l as [|kv l IH]; intros [|kv' l'] H; cbn [map] in H |- *.
  - reflexivity.
  - exfalso. destruct (join_cons "&" (item kv') (map item l')) as [t [Ht _]].
    rewrite Ht in H. apply (f_equal (Str.mem "=")) in H.
    rewrite mem_app in H. unfold item in H at 1. rewrite item_has_eq in H.
    discriminate.
  - exfalso. destruct (join_cons "&" (item kv) (map item l)) as [t [Ht _]].
    rewrite Ht in H. apply (f_equal (Str.mem "=")) in H.
    rewrite mem_app in H. unfold item in H at 1. rewrite item_has_eq in H.
    discriminate.
  - destruct (join_cons "&" (item kv) (map item l)) as [t [Ht Hshape]].
    destruct (join_cons "&" (item kv') (map item l')) as [t' [Ht' Hshape']].
    rewrite Ht, Ht' in H.
    apply (app_stop_inj "&") in H as [Hitem Htail]; try apply item_no_amp.
    + destruct (item_injective kv kv' Hitem) as [-> ->]. f_equal.
      destruct Hshape as [[Hl ->]|[Hl ->]]; destruct Hshape' as [[Hl' ->]|[Hl' ->]];
        try discriminate.
      * destruct l; [|discriminate]. destruct l'; [|discriminate]. reflexivity.
      * injection Htail as Htail. now apply IH.
    + destruct Hshape as [[_ ->]|[_ ->]]; eauto.
    + destruct Hshape' as [[_ ->]|[_ ->]]; eauto.
Qed.

(** X22.  The payload is unambiguous: when the method, the host name and
    the path hold no newline, the text that is signed determines each of
    them and, entry by entry, every key and the text of every value of the
    sorted mapping.  Two requests with the same payload differ at most in
    values that [str] writes alike. *)
Theorem payload_unambiguous method host_url path params method' host_url' path' params' :
  Str.mem (Str.chr 10) method = false ->
  Str.mem (Str.chr 10) host_url = false ->
  Str.mem (Str.chr 10) path = false ->
  Str.mem (Str.chr 10) method' = false ->
  Str.mem (Str.chr 10) host_url' = false ->
  Str.mem (Str.chr 10) path' = false ->
  payload_of method host_url path params = payload_of method' host_url' path' params' ->
  method = method' /\ host_url = host_url' /\ path = path'
  /\ rendered params = rendered params'.
Proof.
  intros Hm Hh Hp Hm' Hh' Hp' H. unfold payload_of, Str.join in H.
  cbn [String.concat String.append] in H.
  apply app_sep_inj in H as [-> H]; [|assumption|assumption].
  apply app_sep_inj in H as [-> H]; [|assumption|assumption].
  apply app_sep_inj in H as [-> H]; [|assumption|assumption].
  repeat split. now apply urlencode_injective.
Qed.

Lemma payload_unambiguous_witness :
  "GET" = "GET" /\ "api.huobi.pro" = "api.huobi.pro" /\ "/v1/x" = "/v1/x"
  /\ rendered [("symbol", VStr "btcusdt"); ("AccessKeyId", VStr "ak")]
     = rendered [("AccessKeyId", VStr "ak"); ("symbol", VStr "btcusdt")].
Proof.
  apply (payload_unambiguous "GET" "api.huobi.pro" "/v1/x"
           [("symbol", VStr "btcusdt"); ("AccessKeyId", VStr "ak")]
           "GET" "api.huobi.pro" "/v1/x"
           [("AccessKeyId", VStr "ak"); ("symbol", VStr "btcusdt")]); reflexivity.
Defined.

(** Values that [str] writes alike do give the same payload: [None] and the
    text [None]. *)
Example payload_none_as_text :
  payload_of "GET" "api.huobi.pro" "/v1/x" [("AccessKeyId", VNone)]
  = payload_of "GET" "api.huobi.pro" "/v1/x" [("AccessKeyId", VStr "None")].
Proof. reflexivity. Qed.

(** ** The timestamp can be read back *)

Lemma string_app_inj_length (a a' b b' : string) :
  String.length a = String.length a' ->
  (a ++ b)%string = (a' ++ b')%string ->
  a = a' /\ b = b'.
Proof.
  revert a'. induction a as [|c a IH]; intros [|c' a'] Hl H; try discriminate.
  - now split.
  - cbn in Hl, H. injection H as -> H. injection Hl as Hl.
    destruct (IH a' Hl H) as [-> ->]. now split.
Qed.

Lemma string_tail_inj c (a b : string) : String c a = String c b -> a = b.
Proof. intros H. now injection H. Qed.

Lemma digits_injective n : forall z z',
  0 <= z < 10 ^ Z.of_nat n ->
  0 <= z' < 10 ^ Z.of_nat n ->
  digits n z = digits n z' ->
  z = z'.
Proof.
  induction n as [|n IH]; intros z z' Hz Hz' H.
  - cbn in Hz, Hz'. lia.
  - cbn [digits] in H.
    apply string_app_inj_length in H as [Hhigh Hlow]; [|now rewrite !digits_length].
    assert (Hc : Str.chr (48 + z mod 10) = Str.chr (48 + z' mod 10)) by (now injection Hlow).
    clear Hlow. rename Hc into Hlow. apply (f_equal Str.code) in Hlow.
    assert (Hm : 0 <= z mod 10 < 10) by (apply Z.mod_pos_bound; lia).
    assert (Hm' : 0 <= z' mod 10 < 10) by (apply Z.mod_pos_bound; lia).
    rewrite !code_chr in Hlow by lia.
    rewrite Nat2Z.inj_succ, Z.pow_succ_r in Hz, Hz' by lia.
    assert (Hq : z / 10 = z' / 10).
    { apply IH; [| |exact Hhigh]; split;
        try (apply Z.div_pos; lia); apply Z.div_lt_upper_bound; lia. }
    rewrite (Z.div_mod z 10), (Z.div_mod z' 10) by lia. lia.
Qed.

(** X23.  The timestamp tells the second: two dates and times that
    [datetime] can hold, in the years 1000 to 9999, are written alike by
    [strftime] exactly when they agree on year, month, day, hour, minute
    and second.  The microsecond is the only thing lost. *)
Theorem strftime_tells_the_second t t' :
  valid_datetime t ->
  valid_datetime t' ->
  (strftime t = strftime t' <->
   year t = year t' /\ month t = month t' /\ day t = day t'
   /\ hour t = hour t' /\ minute t = minute t' /\ second t = second t').
Proof.
  intros [Hy [Hmo [Hd [Hh [Hmi Hs]]]]] [Hy' [Hmo' [Hd' [Hh' [Hmi' Hs']]]]]. split.
  - unfold strftime. intros H. cbn [String.append] in H.
    apply string_app_inj_length in H as [H1 H]; [|now rewrite !digits_length].
    apply string_tail_inj in H.
    apply string_app_inj_length in H as [H2 H]; [|now rewrite !digits_length].
    apply string_tail_inj in H.
    apply string_app_inj_length in H as [H3 H]; [|now rewrite !digits_length].
    apply string_tail_inj in H.
    apply string_app_inj_length in H as [H4 H]; [|now rewrite !digits_length].
    apply string_tail_inj in H.
    apply string_app_inj_length in H as [H5 H6]; [|now rewrite !digits_length].
    apply string_tail_inj in H6.
    repeat split; (eapply digits_injective; [| |eassumption]; cbn; lia).
  - intros [H1 [H2 [H3 [H4 [H5 H6]]]]]. now apply strftime_second_precision.
Qed.

Lemma strftime_tells_the_second_witness :
  strftime clock_2020
  = strftime {| year := 2020; month := 9; day := 10; hour := 1; minute := 2; second := 3;
                microsecond := 0 |}
  <-> 2020 = 2020 /\ 9 = 9 /\ 10 = 10 /\ 1 = 1 /\ 2 = 2 /\ 3 = 3.
Proof.
  apply (strftime_tells_the_second clock_2020
           {| year := 2020; month := 9; day := 10; hour := 1; minute := 2; second := 3;
              microsecond := 0 |});
    unfold valid_datetime; cbn; lia.
Defined.
